(** * SaveCoTestePerfil: candidate flow, result viewer and candidate roster

    A shallow embedding of the parts of the application that its
    specification makes claims about.  Part I holds the program:

    - [Json]: the JavaScript built-ins [JSON.parse] / [JSON.stringify] that
      the result viewer relies on, as an executable recursive-descent
      parser and a printer over the ECMA-404 grammar;
    - [Results]: [safeParseJSON] and [calculateChartData] of the result
      viewer;
    - [Backend]: the rows of the [profiles] table and the [update] call of
      the backend client;
    - [Candidate]: the questionnaire runner ([loadSession], the answer
      handlers, [canProceed], [handleNext], [submitTest]), and the
      component over time, as a run of events;
    - [Roster]: the admin roster ([fetchData], [openModal], [handleSave]);
    - [Viewer]: the list of the result viewer ([fetchResults]);
    - [Wire]: the JSON text of the payload that the runner posts, which
      the result viewer reads back.

    Part II holds the properties, one module of facts per module of
    Part I. *)

From Stdlib Require Import ZArith NArith String Ascii List Bool Lia.
From Stdlib Require Import Decimal DecimalString DecimalN DecimalFacts.
From stdpp Require Import base option gmap strings.

Local Open Scope string_scope.

#[local] Arguments String.append !_ _ / : simpl nomatch.

(** * Part I: the program

    A JavaScript string is modelled by a Rocq [string]: a sequence of
    bytes, read as the UTF-8 encoding of the text; its length is its
    number of bytes. *)

(** ** JSON text: [JSON.parse] and [JSON.stringify] *)

Module Json.

(** A JSON value.  A number [VNum m e] keeps the literal [m * 10 ^ e] as
    it is written; it stands for the double nearest to that value, and
    what the program observes of the double is read off the literal
    ([Results.is_zero], [Results.is_infinite]).  The properties of an
    object are kept in the order of the text; [Results.listed] gives the
    order in which the engine lists them. *)
#[local] Unset Elimination Schemes.
Inductive value : Type :=
| VNull
| VBool (b : bool)
| VNum (m e : Z)
| VStr (s : string)
| VArr (l : list value)
| VObj (l : list (string * value)).
#[local] Set Elimination Schemes.

Definition dquote : ascii := "034"%char.
Definition backslash : ascii := "092"%char.

Definition is_ws (c : ascii) : bool :=
  ((c =? " ") || (c =? "009") || (c =? "010") || (c =? "013"))%char.

Fixpoint skip_ws (s : string) : string :=
  match s with
  | String c r => if is_ws c then skip_ws r else s
  | EmptyString => s
  end.

(** *** String literals *)

Definition is_control (c : ascii) : bool := (N_of_ascii c <? 32)%N.

Definition hex_val (c : ascii) : option N :=
  let n := N_of_ascii c in
  if ((48 <=? n) && (n <=? 57))%N then Some (n - 48)%N
  else if ((97 <=? n) && (n <=? 102))%N then Some (n - 87)%N
  else if ((65 <=? n) && (n <=? 70))%N then Some (n - 55)%N
  else None.

Definition hex4 (a b c d : ascii) : option N :=
  match hex_val a, hex_val b, hex_val c, hex_val d with
  | Some x, Some y, Some z, Some w => Some (((x * 16 + y) * 16 + z) * 16 + w)%N
  | _, _, _, _ => None
  end.

(** The UTF-8 bytes of a 16-bit code unit (surrogates are encoded unit by
    unit). *)
Definition utf8 (cp : N) : string :=
  if (cp <? 128)%N then String (ascii_of_N cp) ""
  else if (cp <? 2048)%N then
    String (ascii_of_N (192 + cp / 64)) (String (ascii_of_N (128 + cp mod 64)) "")
  else
    String (ascii_of_N (224 + cp / 4096))
      (String (ascii_of_N (128 + (cp / 64) mod 64))
         (String (ascii_of_N (128 + cp mod 64)) "")).

(** The character a two-character escape stands for. *)
Definition unescape (e : ascii) : option ascii :=
  (if e =? dquote then Some dquote
   else if e =? backslash then Some backslash
   else if e =? "/" then Some "/"
   else if e =? "b" then Some "008"
   else if e =? "f" then Some "012"
   else if e =? "n" then Some "010"
   else if e =? "r" then Some "013"
   else if e =? "t" then Some "009"
   else None)%char.

Definition push (p : string) (r : option (string * string)) : option (string * string) :=
  match r with
  | Some (t, rest) => Some (p ++ t, rest)
  | None => None
  end.

(** [lex_string s] reads the characters of a string literal whose opening
    quote has been consumed, up to and including the closing quote. *)
Fixpoint lex_string (s : string) : option (string * string) :=
  match s with
  | EmptyString => None
  | String c r =>
    if (c =? dquote)%char then Some ("", r)
    else if (c =? backslash)%char then
      match r with
      | EmptyString => None
      | String e r1 =>
        match unescape e with
        | Some d => push (String d "") (lex_string r1)
        | None =>
          if (e =? "u")%char then
            match r1 with
            | String h1 (String h2 (String h3 (String h4 r2))) =>
              match hex4 h1 h2 h3 h4 with
              | Some cp => push (utf8 cp) (lex_string r2)
              | None => None
              end
            | _ => None
            end
          else None
        end
      end
    else if is_control c then None
    else push (String c "") (lex_string r)
  end.

(** *** Number literals *)

Definition digit_of (c : ascii) : option (uint -> uint) :=
  (if c =? "0" then Some D0 else if c =? "1" then Some D1
   else if c =? "2" then Some D2 else if c =? "3" then Some D3
   else if c =? "4" then Some D4 else if c =? "5" then Some D5
   else if c =? "6" then Some D6 else if c =? "7" then Some D7
   else if c =? "8" then Some D8 else if c =? "9" then Some D9
   else None)%char.

Definition is_digit (c : ascii) : bool :=
  match digit_of c with Some _ => true | None => false end.

(** The longest run of decimal digits at the head of [s]. *)
Fixpoint lex_digits (s : string) : uint * string :=
  match s with
  | EmptyString => (Nil, s)
  | String c r =>
    match digit_of c with
    | Some d => let '(u, r') := lex_digits r in (d u, r')
    | None => (Nil, s)
    end
  end.

(** int = "0" | digit1-9 digit* *)
Definition lex_int (s : string) : option (uint * string) :=
  match s with
  | String c r =>
    if (c =? "0")%char then Some (D0 Nil, r)
    else match lex_digits s with
         | (Nil, _) => None
         | (u, r') => Some (u, r')
         end
  | EmptyString => None
  end.

(** frac = "." digit+ (optional) *)
Definition lex_frac (s : string) : option (uint * string) :=
  match s with
  | String c r =>
    if (c =? ".")%char then
      match lex_digits r with
      | (Nil, _) => None
      | (u, r') => Some (u, r')
      end
    else Some (Nil, s)
  | EmptyString => Some (Nil, s)
  end.

Definition lex_exp_digits (neg : bool) (s : string) : option (Z * string) :=
  match lex_digits s with
  | (Nil, _) => None
  | (u, r) => Some (if neg then (- Z.of_N (N.of_uint u))%Z else Z.of_N (N.of_uint u), r)
  end.

(** exp = ("e" | "E") ["+" | "-"] digit+ (optional) *)
Definition lex_exp (s : string) : option (Z * string) :=
  match s with
  | String c r =>
    if ((c =? "e") || (c =? "E"))%char then
      match r with
      | String g r1 =>
        if (g =? "-")%char then lex_exp_digits true r1
        else if (g =? "+")%char then lex_exp_digits false r1
        else lex_exp_digits false r
      | EmptyString => None
      end
    else Some (0%Z, s)
  | EmptyString => Some (0%Z, s)
  end.

Definition lex_unsigned (s : string) : option (N * Z * string) :=
  match lex_int s with
  | None => None
  | Some (ip, s1) =>
    match lex_frac s1 with
    | None => None
    | Some (fp, s2) =>
      match lex_exp s2 with
      | None => None
      | Some (ex, s3) =>
        Some ((N.of_uint ip * 10 ^ N.of_nat (nb_digits fp) + N.of_uint fp)%N,
              (ex - Z.of_nat (nb_digits fp))%Z, s3)
      end
    end
  end.

(** number = ["-"] int [frac] [exp] *)
Definition lex_number (s : string) : option (Z * Z * string) :=
  match s with
  | String c r =>
    if (c =? "-")%char then
      match lex_unsigned r with
      | Some (m, e, r') => Some ((- Z.of_N m)%Z, e, r')
      | None => None
      end
    else
      match lex_unsigned s with
      | Some (m, e, r') => Some (Z.of_N m, e, r')
      | None => None
      end
  | EmptyString => None
  end.

#[global] Arguments lex_number : simpl never.

(** *** Values *)

(** [expect lit v s]: the literal [lit] at the head of [s]. *)
Fixpoint expect (lit : string) (v : value) (s : string) : option (value * string) :=
  match lit with
  | EmptyString => Some (v, s)
  | String c lit' =>
    match s with
    | String d r => if (c =? d)%char then expect lit' v r else None
    | EmptyString => None
    end
  end.

(** Defining a property of an object under construction: a repeated name
    keeps its place and takes the later value. *)
Fixpoint obj_set (k : string) (v : value) (o : list (string * value)) : list (string * value) :=
  match o with
  | [] => [(k, v)]
  | (k', v') :: o' => if String.eqb k k' then (k, v) :: o' else (k', v') :: obj_set k v o'
  end.

Definition obj_of_members (ms : list (string * value)) : list (string * value) :=
  fold_left (fun o kv => obj_set (fst kv) (snd kv) o) ms [].

(** The recursive descent, one function per nonterminal; each takes the
  parsers of the nonterminals it calls. *)
Section Descent.
Variable value_p : string -> option (value * string).
Variable elements_p : string -> option (list value * string).
Variable members_p : string -> option (list (string * value) * string).

(** value = string | array | object | "true" | "false" | "null" | number *)
Definition value_step (s : string) : option (value * string) :=
  match skip_ws s with
  | EmptyString => None
  | String c r =>
    if (c =? dquote)%char then
      match lex_string r with
      | Some (t, r') => Some (VStr t, r')
      | None => None
      end
    else if (c =? "[")%char then
      match skip_ws r with
      | String "]" r' => Some (VArr [], r')
      | _ =>
        match elements_p r with
        | Some (l, r') => Some (VArr l, r')
        | None => None
        end
      end
    else if (c =? "{")%char then
      match skip_ws r with
      | String "}" r' => Some (VObj [], r')
      | _ =>
        match members_p r with
        | Some (ms, r') => Some (VObj (obj_of_members ms), r')
        | None => None
        end
      end
    else if (c =? "t")%char then expect "rue" (VBool true) r
    else if (c =? "f")%char then expect "alse" (VBool false) r
    else if (c =? "n")%char then expect "ull" VNull r
    else
      match lex_number (String c r) with
      | Some (m, e, r') => Some (VNum m e, r')
      | None => None
      end
  end.

(** elements = value ("," value)* "]" *)
Definition elements_step (s : string) : option (list value * string) :=
  match value_p s with
  | None => None
  | Some (v, r) =>
    match skip_ws r with
    | String "," r' =>
      match elements_p r' with
      | Some (l, r'') => Some (v :: l, r'')
      | None => None
      end
    | String "]" r' => Some ([v], r')
    | _ => None
    end
  end.

(** members = string ":" value ("," string ":" value)* "}" *)
Definition members_step (s : string) : option (list (string * value) * string) :=
  match skip_ws s with
  | String c r =>
    if (c =? dquote)%char then
      match lex_string r with
      | None => None
      | Some (k, r1) =>
        match skip_ws r1 with
        | String ":" r2 =>
          match value_p r2 with
          | None => None
          | Some (v, r3) =>
            match skip_ws r3 with
            | String "," r4 =>
              match members_p r4 with
              | Some (ms, r5) => Some ((k, v) :: ms, r5)
              | None => None
              end
            | String "}" r4 => Some ([(k, v)], r4)
            | _ => None
            end
          end
        | _ => None
        end
      end
    else None
  | EmptyString => None
  end.
End Descent.

(** [fuel] bounds the depth of the calls; every call consumes input, so the
    length of the text is always enough (see [JSON_parse]). *)
Fixpoint parse_value (fuel : nat) (s : string) : option (value * string) :=
  match fuel with
  | O => None
  | S n => value_step (parse_elements n) (parse_members n) s
  end
with parse_elements (fuel : nat) (s : string) : option (list value * string) :=
  match fuel with
  | O => None
  | S n => elements_step (parse_value n) (parse_elements n) s
  end
with parse_members (fuel : nat) (s : string) : option (list (string * value) * string) :=
  match fuel with
  | O => None
  | S n => members_step (parse_value n) (parse_members n) s
  end.

(** [JSON.parse(text)]: [None] stands for the [SyntaxError] it throws. *)
Definition JSON_parse (text : string) : option value :=
  match parse_value (S (String.length text)) text with
  | Some (v, r) =>
    match skip_ws r with
    | EmptyString => Some v
    | String _ _ => None
    end
  | None => None
  end.

(** *** [JSON.stringify] *)

Definition print_N (n : N) : string := NilEmpty.string_of_uint (N.to_uint n).

Definition print_Z (z : Z) : string :=
  if (z <? 0)%Z then String "-" (print_N (Z.abs_N z)) else print_N (Z.abs_N z).

Definition print_exp (e : Z) : string :=
  if (e =? 0)%Z then "" else String "e" (print_Z e).

Definition print_num (m e : Z) : string := print_Z m ++ print_exp e.

Definition hex_digit (n : N) : ascii :=
  if (n <? 10)%N then ascii_of_N (48 + n) else ascii_of_N (87 + n).

Definition escape_char (c : ascii) : string :=
  (if c =? dquote then String backslash (String dquote "")
   else if c =? backslash then String backslash (String backslash "")
   else if c =? "008" then String backslash "b"
   else if c =? "012" then String backslash "f"
   else if c =? "010" then String backslash "n"
   else if c =? "013" then String backslash "r"
   else if c =? "009" then String backslash "t"
   else if is_control c then
     String backslash
       (String "u" (String "0" (String "0"
          (String (hex_digit (N_of_ascii c / 16)) (String (hex_digit (N_of_ascii c mod 16)) "")))))
   else String c "")%char.

Fixpoint escape (s : string) : string :=
  match s with
  | EmptyString => ""
  | String c r => escape_char c ++ escape r
  end.

Definition quote (s : string) : string :=
  String dquote (escape s ++ String dquote "").

Fixpoint join (sep : string) (l : list string) : string :=
  match l with
  | [] => ""
  | [x] => x
  | x :: l' => x ++ sep ++ join sep l'
  end.

Fixpoint stringify (v : value) : string :=
  match v with
  | VNull => "null"
  | VBool true => "true"
  | VBool false => "false"
  | VNum m e => print_num m e
  | VStr s => quote s
  | VArr l => String "[" (join "," (map stringify l) ++ "]")
  | VObj l =>
    String "{" (join "," (map (fun kv => quote (fst kv) ++ String ":" (stringify (snd kv))) l) ++ "}")
  end.

(** *** Notions the properties of the parser are stated with *)

(** How a step of the descent succeeds: on its own, or through one call
    of a parser it was given, on a shorter text. *)
Inductive value_step_ok (pe : string -> option (list value * string))
    (pm : string -> option (list (string * value) * string))
    (s : string) (v : value) (r : string) : Prop :=
| ok_atom :
    String.length r < String.length s ->
    (forall pe' pm', value_step pe' pm' s = Some (v, r)) ->
    value_step_ok pe pm s v r
| ok_array r0 l :
    String.length r0 < String.length s -> pe r0 = Some (l, r) ->
    (forall pe' pm', pe' r0 = Some (l, r) -> value_step pe' pm' s = Some (v, r)) ->
    value_step_ok pe pm s v r
| ok_object r0 ms :
    String.length r0 < String.length s -> pm r0 = Some (ms, r) ->
    (forall pe' pm', pm' r0 = Some (ms, r) -> value_step pe' pm' s = Some (v, r)) ->
    value_step_ok pe pm s v r.

Inductive elements_step_ok (pv : string -> option (value * string))
    (pe : string -> option (list value * string))
    (s : string) (l : list value) (r : string) : Prop :=
| ok_last v r1 :
    pv s = Some (v, r1) -> String.length r < String.length r1 ->
    (forall pv' pe', pv' s = Some (v, r1) -> elements_step pv' pe' s = Some (l, r)) ->
    elements_step_ok pv pe s l r
| ok_more v r1 r2 l' :
    pv s = Some (v, r1) -> String.length r2 < String.length r1 -> pe r2 = Some (l', r) ->
    (forall pv' pe', pv' s = Some (v, r1) -> pe' r2 = Some (l', r) ->
                     elements_step pv' pe' s = Some (l, r)) ->
    elements_step_ok pv pe s l r.

Inductive members_step_ok (pv : string -> option (value * string))
    (pm : string -> option (list (string * value) * string))
    (s : string) (ms : list (string * value)) (r : string) : Prop :=
| okm_last r2 v r3 :
    String.length r2 < String.length s ->
    pv r2 = Some (v, r3) -> String.length r < String.length r3 ->
    (forall pv' pm', pv' r2 = Some (v, r3) -> members_step pv' pm' s = Some (ms, r)) ->
    members_step_ok pv pm s ms r
| okm_more r2 v r3 r4 ms' :
    String.length r2 < String.length s ->
    pv r2 = Some (v, r3) -> String.length r4 < String.length r3 -> pm r4 = Some (ms', r) ->
    (forall pv' pm', pv' r2 = Some (v, r3) -> pm' r4 = Some (ms', r) ->
                     members_step pv' pm' s = Some (ms, r)) ->
    members_step_ok pv pm s ms r.

(** A parse that succeeds with some fuel succeeds with any fuel larger
    than the number of characters it consumes. *)
Definition value_cost (n : nat) : Prop :=
  forall s v r, parse_value n s = Some (v, r) ->
    exists k, k + String.length r <= String.length s
              /\ forall m, k <= m -> parse_value m s = Some (v, r).

Definition elements_cost (n : nat) : Prop :=
  forall s l r, parse_elements n s = Some (l, r) ->
    exists k, k + String.length r <= String.length s
              /\ forall m, k <= m -> parse_elements m s = Some (l, r).

Definition members_cost (n : nat) : Prop :=
  forall s ms r, parse_members n s = Some (ms, r) ->
    exists k, k + String.length r <= String.length s
              /\ forall m, k <= m -> parse_members m s = Some (ms, r).

(** [text] is a JSON text for [v]: some run of the descent reads [v] from
    it and leaves only white space. *)
Definition derives (text : string) (v : value) : Prop :=
  exists fuel rest, parse_value fuel text = Some (v, rest) /\ skip_ws rest = "".

(** What may follow a number without being read as part of it. *)
Definition nondigit (rest : string) : bool :=
  match rest with
  | EmptyString => true
  | String c _ => negb (is_digit c)
  end.

Definition stops_number (rest : string) : bool :=
  match rest with
  | EmptyString => true
  | String c _ => negb (is_digit c || (c =? ".") || (c =? "e") || (c =? "E"))%char
  end.

(** The digits of a natural number have no leading zero. *)
Definition int_shape (d : uint) : bool :=
  match d with
  | Nil => false
  | D0 Nil => true
  | D0 _ => false
  | _ => true
  end.

(** Values as JavaScript builds them: no object has two properties of the
    same name. *)
Fixpoint wf (v : value) : bool :=
  match v with
  | VArr l => forallb wf l
  | VObj l => bool_decide (NoDup (map fst l)) && forallb (fun kv => wf (snd kv)) l
  | _ => true
  end.

Fixpoint size (v : value) : nat :=
  match v with
  | VArr l => S (fold_right (fun x acc => S (size x + acc)) 0 l)
  | VObj l => S (fold_right (fun kv acc => S (size (snd kv) + acc)) 0 l)
  | _ => 1
  end.

Definition sizes (l : list value) : nat :=
  fold_right (fun x acc => S (size x + acc)) 0 l.

Definition msizes (l : list (string * value)) : nat :=
  fold_right (fun kv acc => S (size (snd kv) + acc)) 0 l.

Definition member (kv : string * value) : string :=
  quote (fst kv) ++ String ":" (stringify (snd kv)).

(** The first character of a printed value. *)
Definition value_start (c : ascii) : bool :=
  ((c =? dquote) || (c =? "[") || (c =? "{") || (c =? "t") || (c =? "f")
   || (c =? "n") || (c =? "-") || is_digit c)%char.

Definition roundtrip_value (n : nat) : Prop :=
  forall v rest, size v <= n -> wf v = true -> stops_number rest = true ->
    parse_value n (stringify v ++ rest) = Some (v, rest).

Definition roundtrip_elements (n : nat) : Prop :=
  forall x l rest, sizes (x :: l) <= n -> forallb wf (x :: l) = true ->
    parse_elements n (join "," (map stringify (x :: l)) ++ String "]" rest)
    = Some (x :: l, rest).

Definition roundtrip_members (n : nat) : Prop :=
  forall kv ms rest, msizes (kv :: ms) <= n ->
    forallb (fun kv => wf (snd kv)) (kv :: ms) = true ->
    parse_members n (join "," (map member (kv :: ms)) ++ String "}" rest)
    = Some (kv :: ms, rest).

(** Sample texts are written with single quotes for readability. *)
Fixpoint sq (s : string) : string :=
  match s with
  | EmptyString => ""
  | String c r => String (if (c =? "'")%char then dquote else c) (sq r)
  end.

End Json.

(** ** The result viewer: [safeParseJSON] and [calculateChartData] *)

Module Results.
Import Json.

(** A JavaScript value as the viewer receives it ([any]): a JSON value, or
    [undefined]. *)
Inductive any : Type :=
| Undefined
| Val (v : value).

(** [typeof a === 'object' && a !== null] *)
Definition is_object (a : any) : bool :=
  match a with
  | Val (VArr _) | Val (VObj _) => true
  | _ => false
  end.

(** [typeof a === 'string'] *)
Definition is_string (v : value) : bool :=
  match v with
  | VStr _ => true
  | _ => false
  end.

(** A computation that may throw a [TypeError]. *)
Inductive outcome (A : Type) : Type :=
| Returns (a : A)
| TypeError.
Arguments Returns {A} a.
Arguments TypeError {A}.

Definition bind {A B} (x : outcome A) (k : A -> outcome B) : outcome B :=
  match x with
  | Returns a => k a
  | TypeError => TypeError
  end.

Notation "'let!' x ':=' e 'in' k" := (bind e (fun x => k))
  (at level 10, x name, e at level 100, k at level 200).

(** *** Numbers as the program sees them

    [JSON.parse] reads a number literal as the double nearest to its
    value, ties to the even significand.  [VNum m e] keeps the literal;
    the two things this program can tell of the double, whether it is
    zero and whether it is infinite, are read off the literal here. *)

(** The literal is read as [0] or [-0]: its absolute value is at most
    [2^-1075], half the least positive double. *)
Definition is_zero (m e : Z) : bool :=
  if (0 <=? e)%Z then (m =? 0)%Z
  else (Z.abs m * 2 ^ 1075 <=? 10 ^ (- e))%Z.

(** The literal is read as an infinity: its absolute value is at least
    [2^1024 - 2^970], half way from the greatest double to [2^1024]. *)
Definition is_infinite (m e : Z) : bool :=
  if (0 <=? e)%Z then (2 ^ 1024 - 2 ^ 970 <=? Z.abs m * 10 ^ e)%Z
  else ((2 ^ 1024 - 2 ^ 970) * 10 ^ (- e) <=? Z.abs m)%Z.

(** The text of a number.  An infinity has its name.  A finite number
    is spelled as its literal, [m] followed by the exponent: a text that
    reads back as the same number, and the engine's own spelling when the
    literal is an integer without exponent that a double holds exactly.
    Of any other literal the engine may write other digits for the same
    number, which shows only in a label made of a number. *)
Definition number_text (m e : Z) : string :=
  if is_infinite m e then (if (m <? 0)%Z then "-Infinity" else "Infinity")
  else print_num m e.

Fixpoint assoc {A} (k : string) (l : list (string * A)) : option A :=
  match l with
  | [] => None
  | (k', a) :: l' => if String.eqb k k' then Some a else assoc k l'
  end.

Definition has {A} (k : string) (l : list (string * A)) : bool :=
  match assoc k l with
  | Some _ => true
  | None => false
  end.

(** The conversion of a value to a string, which [JSON.parse] applies to
    an argument that is not one, which names a property and which
    [parseInt] reads.  An array joins the texts of its elements; an
    object is converted by the [toString] it inherits, and cannot be
    converted when it has a property of its own of that name, which in a
    parsed value is never a function. *)
Fixpoint to_string (v : value) : outcome string :=
  match v with
  | VNull => Returns "null"
  | VBool true => Returns "true"
  | VBool false => Returns "false"
  | VNum m e => Returns (number_text m e)
  | VStr s => Returns s
  | VArr l =>
    match (fix elements (l : list value) : outcome (list string) :=
             match l with
             | [] => Returns []
             | x :: l' =>
               match match x with
                     | VNull => Returns ""
                     | _ => to_string x
                     end, elements l' with
               | Returns s, Returns ss => Returns (s :: ss)
               | _, _ => TypeError
               end
             end) l with
    | Returns parts => Returns (join "," parts)
    | TypeError => TypeError
    end
  | VObj l => if has "toString" l then TypeError else Returns "[object Object]"
  end.

Definition ToString (a : any) : outcome string :=
  match a with
  | Undefined => Returns "undefined"
  | Val v => to_string v
  end.

(** [safeParseJSON], with the depth of its self-recursion bounded by
    [fuel]; [None] only when the bound is reached.  The [catch] takes
    whatever [JSON.parse] throws, the conversion of its argument
    included. *)
Fixpoint safeParseJSON_fuel (fuel : nat) (input : any) : option value :=
  match fuel with
  | O => None
  | S n =>
    match input with
    | Val (VArr _ as o) | Val (VObj _ as o) => Some o
    | _ =>
      match ToString input with
      | TypeError => Some (VObj [])
      | Returns text =>
        match JSON_parse text with
        | Some (VStr parsed) => safeParseJSON_fuel n (Val (VStr parsed))
        | Some parsed => Some parsed
        | None => Some (VObj [])
        end
      end
    end
  end.

(** The length of the text [JSON.parse] reads of an input. *)
Definition text_length (input : any) : nat :=
  match ToString input with
  | Returns text => String.length text
  | TypeError => 0
  end.

(** [safeParseJSON]: the text read bounds the depth. *)
Definition safeParseJSON (input : any) : value :=
  default (VObj []) (safeParseJSON_fuel (S (text_length input)) input).

(** *** Reading values the way the viewer does *)

(** [a[k]] for one of the property names the viewer reads (none of them
    is inherited from a prototype). *)
Definition get (k : string) (a : any) : outcome any :=
  match a with
  | Undefined | Val VNull => TypeError
  | Val (VObj l) =>
    Returns match assoc k l with
            | Some v => Val v
            | None => Undefined
            end
  | Val _ => Returns Undefined
  end.

(** [a?.[k]] *)
Definition get_opt (k : string) (a : any) : outcome any :=
  match a with
  | Undefined | Val VNull => Returns Undefined
  | _ => get k a
  end.

Definition truthy (a : any) : bool :=
  match a with
  | Undefined | Val VNull => false
  | Val (VBool b) => b
  | Val (VNum m e) => negb (is_zero m e)
  | Val (VStr s) => negb (s =? "")
  | Val (VArr _) | Val (VObj _) => true
  end.

(** *** Texts as sequences of UTF-16 code units

    The length of a JavaScript string and the positions in it count
    UTF-16 code units: one for a character of the basic plane, two for
    any other, which UTF-8 writes in four bytes. *)

(** A byte that continues a character. *)
Definition is_continuation (c : ascii) : bool :=
  ((128 <=? N_of_ascii c) && (N_of_ascii c <? 192))%N.

(** The characters of a text, each with the bytes that write it. *)
Fixpoint characters (s : string) : list string :=
  match s with
  | EmptyString => []
  | String c r =>
    match characters r with
    | String d t :: rest =>
      if is_continuation d then String c (String d t) :: rest
      else String c "" :: String d t :: rest
    | rest => String c "" :: rest
    end
  end.

(** The two surrogates of a character outside the basic plane, each
    written the way a lone code unit is. *)
Definition surrogates (c : string) : option (string * string) :=
  match c with
  | String b0 (String b1 (String b2 (String b3 _))) =>
    if (240 <=? N_of_ascii b0)%N then
      let cp := ((N_of_ascii b0 mod 8) * 262144 + (N_of_ascii b1 mod 64) * 4096
                 + (N_of_ascii b2 mod 64) * 64 + N_of_ascii b3 mod 64)%N in
      Some (utf8 (55296 + (cp - 65536) / 1024), utf8 (56320 + (cp - 65536) mod 1024))
    else None
  | _ => None
  end.

(** The code units of a character. *)
Definition units (c : string) : list string :=
  match surrogates c with
  | Some (high, low) => [high; low]
  | None => [c]
  end.

(** [s.length] *)
Definition js_length (s : string) : nat :=
  length (flat_map units (characters s)).

(** [s.substring(0, n)], on the characters of [s]: a character of two
    units that the cut divides leaves its high surrogate. *)
Fixpoint take_units (n : nat) (cs : list string) : string :=
  match cs with
  | [] => ""
  | c :: cs' =>
    match n with
    | O => ""
    | S m =>
      match surrogates c with
      | None => c ++ take_units m cs'
      | Some (high, _) =>
        match m with
        | O => high
        | S m' => c ++ take_units m' cs'
        end
      end
    end
  end.

(** *** Own properties in the order the engine lists them

    [Object.keys] and [Object.entries] list the names that are array
    indices first, in ascending order, and then the other names in the
    order they were created. *)

(** The array index a name spells: a decimal numeral without leading
    zero, at most [2^32 - 2]. *)
Definition index (k : string) : option N :=
  match lex_int k with
  | Some (u, EmptyString) =>
    if (N.of_uint u <=? 4294967294)%N then Some (N.of_uint u) else None
  | _ => None
  end.

(** A new name [k] is listed before the name [k']. *)
Definition precedes (k k' : string) : bool :=
  match index k, index k' with
  | Some n, Some n' => (n <? n')%N
  | Some _, None => true
  | None, _ => false
  end.

(** The properties after a property of a new name is created. *)
Fixpoint create {A} (k : string) (a : A) (l : list (string * A)) : list (string * A) :=
  match l with
  | [] => [(k, a)]
  | (k', a') :: l' =>
    if precedes k k' then (k, a) :: l else (k', a') :: create k a l'
  end.

(** The properties after the property named [k] is given a new value. *)
Fixpoint store {A} (k : string) (a : A) (l : list (string * A)) : list (string * A) :=
  match l with
  | [] => []
  | (k', a') :: l' =>
    if String.eqb k k' then (k', a) :: l' else (k', a') :: store k a l'
  end.

(** [o[k] = a] *)
Definition assign {A} (k : string) (a : A) (l : list (string * A)) : list (string * A) :=
  if has k l then store k a l else create k a l.

(** The properties of a parsed object in the order the engine lists
    them. *)
Definition listed {A} (l : list (string * A)) : list (string * A) :=
  fold_left (fun acc kv => assign (fst kv) (snd kv) acc) l [].

(** The names an object without a property of its own still answers to:
    the properties of [Object.prototype].  All of them are functions,
    except [__proto__], which is the prototype itself. *)
Definition inherited (k : string) : bool :=
  existsb (String.eqb k)
    [ "constructor"; "toString"; "toLocaleString"; "valueOf"; "hasOwnProperty";
      "isPrototypeOf"; "propertyIsEnumerable"; "__proto__"; "__defineGetter__";
      "__defineSetter__"; "__lookupGetter__"; "__lookupSetter__" ].

Fixpoint indexed {A} (i : N) (l : list A) : list (string * A) :=
  match l with
  | [] => []
  | x :: l' => (print_N i, x) :: indexed (N.succ i) l'
  end.

(** The code units of a string, as the strings [s[i]]. *)
Definition chars (s : string) : list value :=
  map VStr (flat_map units (characters s)).

(** [Object.entries(a)] *)
Definition entries (a : any) : outcome (list (string * value)) :=
  match a with
  | Undefined | Val VNull => TypeError
  | Val (VObj l) => Returns (listed l)
  | Val (VArr l) => Returns (indexed 0 l)
  | Val (VStr s) => Returns (indexed 0 (chars s))
  | Val _ => Returns []
  end.

(** [key.replace(/_/g, ' ')] *)
Fixpoint replace_underscores (s : string) : string :=
  match s with
  | EmptyString => ""
  | String c r => String (if (c =? "_")%char then " "%char else c) (replace_underscores r)
  end.

(** [typeof value === 'number' ? value : 0] *)
Definition number_or_zero (v : value) : Z * Z :=
  match v with
  | VNum m e => (m, e)
  | _ => (0, 0)%Z
  end.

(** A row of [result_test] as the viewer keeps it. *)
Record ResultRow : Type := {
  id : string;
  created_at : string;
  test_id : string;
  candidate_id : string;
  result : any
}.

(** The step of [fetchResults] that every fetched row goes through:
    [{...row, result: safeParseJSON(row.result)}]. *)
Definition processRow (row : ResultRow) : ResultRow :=
  {| id := id row; created_at := created_at row; test_id := test_id row;
     candidate_id := candidate_id row;
     result := Val (safeParseJSON (result row)) |}.

(** *** [calculateChartData] *)

(** A point of the radar series.  In the raw-answers scenario the source
    sets [A] to [(total / count).toFixed(1)]; the quotient and its
    rounding are floating-point, so the point keeps [total] and [count]
    ([None] for [NaN]). *)
Inductive RadarPoint : Type :=
| AiPoint (subject : string) (A : Z * Z) (fullMark : Z)
| RawPoint (subject fullSubject : string) (total : option Z) (count : Z) (fullMark : Z).

(** What [profileCounts] holds for a tag: the number of answers with
    the tag, or, for a tag that names a function every object inherits,
    the text of that function followed by as many digits [1] as there
    were answers ([counts[tag] || 0] finds the function, and [+ 1]
    appends to its text). *)
Inductive Count : Type :=
| Times (n : Z)
| Appended (ones : nat).

(** The value of a bar: a number [m * 10 ^ e], or the text of the
    function that objects inherit as [name], followed by digits [1]. *)
Inductive BarValue : Type :=
| Number (m e : Z)
| NativeText (name : string) (ones : nat).

(** A bar of the profile chart, [{ name, value }]. *)
Record BarPoint : Type := { barName : string; barValue : BarValue }.

Record ChartData : Type := {
  radarData : list RadarPoint;
  barData : list BarPoint;
  isAiData : bool
}.

Definition sections : list string :=
  [ "caracteirsta-de-personalidade-comunicacao";
    "caracteirsta-de-personalidade-organizacao";
    "caracteirsta-de-personalidade-lideranca";
    "caracteirsta-de-personalidade-analitico" ].

(** [a || b] *)
Definition or_else (a b : any) : any := if truthy a then a else b.

(** [a === s] for a string [s]. *)
Definition is_str (s : string) (a : any) : bool :=
  match a with
  | Val (VStr t) => String.eqb t s
  | _ => false
  end.

(** [counts[tag] = (counts[tag] || 0) + 1].  A count of a tag's own is
    incremented; a new tag starts at one, unless objects inherit the
    name: the assignment to [__proto__] of what is no object is ignored,
    and under any other such name the text of the function found is
    stored with a [1] appended. *)
Definition increment (tag : string) (counts : list (string * Count))
  : list (string * Count) :=
  match assoc tag counts with
  | Some (Times n) => store tag (Times (n + 1)) counts
  | Some (Appended k) => store tag (Appended (S k)) counts
  | None =>
    if String.eqb tag "__proto__" then counts
    else if inherited tag then create tag (Appended 1) counts
    else create tag (Times 1) counts
  end.

(** [if (!scores[cat]) scores[cat] = { total: 0, count: 0 };
    scores[cat].total += n; scores[cat].count += 1].  Under a name that
    objects inherit the test finds what is inherited, no property is
    created, and the two additions land on that shared object, where
    nothing here reads them. *)
Definition accumulate (cat : string) (n : option Z)
    (scores : list (string * (option Z * Z))) : list (string * (option Z * Z)) :=
  let add (total : option Z) : option Z :=
    match total, n with
    | Some t, Some k => Some (t + k)%Z
    | _, _ => None
    end in
  match assoc cat scores with
  | Some (total, count) => store cat (add total, (count + 1)%Z) scores
  | None =>
    if inherited cat then scores
    else create cat (add (Some 0%Z), 1%Z) scores
  end.

(** [cat.length > 20 ? cat.substring(0, 20) + '...' : cat] *)
Definition shorten (cat : string) : string :=
  if (20 <? js_length cat)%nat then take_units 20 (characters cat) ++ "..." else cat.

Section Chart.
(** [parseInt(text, radix)], [None] for [NaN]; the radix is optional. *)
Variable parseInt : string -> option Z -> option Z.

Definition isNaN (n : option Z) : bool :=
  match n with
  | None => true
  | Some _ => false
  end.

(** The body of [sections.forEach] in the analysed-data scenario. *)
Definition section_points (data : any) (secKey : string) : outcome (list RadarPoint) :=
  let! sec := get secKey data in
  if truthy sec then
    let! es := entries sec in
    Returns (map (fun kv => AiPoint (replace_underscores (fst kv))
                                    (number_or_zero (snd kv)) 100) es)
  else Returns [].

Fixpoint all_section_points (data : any) (keys : list string) : outcome (list RadarPoint) :=
  match keys with
  | [] => Returns []
  | k :: keys' =>
    let! ps := section_points data k in
    let! rest := all_section_points data keys' in
    Returns (ps ++ rest)%list
  end.

Definition State : Type := list (string * (option Z * Z)) * list (string * Count).

(** [if (v && isNaN(parseInt(v))) counts[v] = (counts[v] || 0) + 1] *)
Definition tally (v : any) (counts : list (string * Count))
  : outcome (list (string * Count)) :=
  if truthy v then
    let! text := ToString v in
    Returns (if isNaN (parseInt text None) then increment text counts else counts)
  else Returns counts.

(** The body of [questions.forEach] in the raw-answers scenario. *)
Definition score_question (q : value) (st : State) : outcome State :=
  let '(categoryScores, profileCounts) := st in
  let! category := get "category" (Val q) in
  let! type := get "type" (Val q) in
  let! resposta := get "resposta" (Val q) in
  let! answered := get_opt "value" resposta in
  let! categoryScores :=
    if truthy category && is_str "scale" type && truthy answered then
      let! cat := ToString category in
      let! text := ToString answered in
      Returns (accumulate cat (parseInt text (Some 10%Z)) categoryScores)
    else Returns categoryScores in
  if is_str "choice" type && truthy resposta then
    let! profileCounts := tally answered profileCounts in
    let! most := get "most" resposta in
    let! mostValue := get_opt "value" most in
    let! profileCounts := tally mostValue profileCounts in
    Returns (categoryScores, profileCounts)
  else Returns (categoryScores, profileCounts).

Fixpoint forEach (qs : list value) (st : State) : outcome State :=
  match qs with
  | [] => Returns st
  | q :: qs' =>
    let! st' := score_question q st in
    forEach qs' st'
  end.

(** The value of the bar of a tag. *)
Definition bar (pc : string * Count) : BarPoint :=
  {| barName := fst pc;
     barValue := match snd pc with
                 | Times n => Number n 0
                 | Appended k => NativeText (fst pc) k
                 end |}.

Definition calculateChartData (resultRow : ResultRow) : outcome ChartData :=
  let data := or_else (result resultRow) (Val (VObj [])) in
  let! lideranca := get "caracteirsta-de-personalidade-lideranca" data in
  let! metadados := get "metadados_calculo" data in
  if truthy (or_else lideranca metadados) then
    let! radarData := all_section_points data sections in
    let! barData :=
      if truthy metadados then
        let! escala := get "escala_0_100" metadados in
        if truthy escala then
          let! es := entries escala in
          Returns (map (fun kv => {| barName := fst kv;
                                     barValue := Number (fst (number_or_zero (snd kv)))
                                                        (snd (number_or_zero (snd kv))) |}) es)
        else Returns []
      else Returns [] in
    Returns {| radarData := radarData; barData := barData; isAiData := true |}
  else
    let! body := get "body" data in
    let! qs := get "questions" data in
    let! payload := get "payload" data in
    let! payloadBody := get_opt "body" payload in
    let questions := or_else (or_else (or_else body qs) payloadBody) (Val (VArr [])) in
    match questions with
    | Val (VArr l) =>
      let! st := forEach l ([], []) in
      Returns
        {| radarData :=
             map (fun cs => RawPoint (shorten (fst cs)) (fst cs)
                                     (fst (snd cs)) (snd (snd cs)) 5) (fst st);
           barData := map bar (snd st);
           isAiData := false |}
    | _ => TypeError
    end.
End Chart.

(** *** Notions the properties of the viewer are stated with *)

(** Where the result of [safeParseJSON] on an input comes from: the
    input itself when it is an object; otherwise the text of the input
    is parsed, a failure gives the empty object, a string is unwrapped
    in its turn, and any other value is the result. *)
Inductive origin : any -> value -> Prop :=
| FromInput (v : value) :
    is_object (Val v) = true -> origin (Val v) v
| FromFailure (input : any) (text : string) :
    is_object input = false -> ToString input = Returns text ->
    JSON_parse text = None -> origin input (VObj [])
| FromString (input : any) (text parsed : string) (r : value) :
    is_object input = false -> ToString input = Returns text ->
    JSON_parse text = Some (VStr parsed) -> origin (Val (VStr parsed)) r ->
    origin input r
| FromParse (input : any) (text : string) (r : value) :
    is_object input = false -> ToString input = Returns text ->
    JSON_parse text = Some r -> is_string r = false -> origin input r.

(** [a[k]] where [a] is neither [null] nor [undefined]. *)
Definition field (k : string) (a : any) : any :=
  match a with
  | Val (VObj l) =>
    match assoc k l with
    | Some v => Val v
    | None => Undefined
    end
  | _ => Undefined
  end.

(** The test that selects the analysed-data scenario:
    [data['caracteirsta-de-personalidade-lideranca'] || data['metadados_calculo']]. *)
Definition analysed (data : any) : bool :=
  truthy (field "caracteirsta-de-personalidade-lideranca" data)
  || truthy (field "metadados_calculo" data).

(** [data.body || data.questions || data.payload?.body || []] *)
Definition questions_of (data : any) : any :=
  or_else (or_else (or_else (field "body" data) (field "questions" data))
                   (field "body" (field "payload" data)))
          (Val (VArr [])).

(** A value that has a text: no object in it, however deep in arrays,
    has a property of its own named [toString]. *)
Definition stringable (a : any) : bool :=
  match ToString a with
  | Returns _ => true
  | TypeError => false
  end.

(** The values of a question that the loop over the questions converts
    to a string: the category and the answer of a scale question that
    has both, the answer of a choice question and the value of its
    "most" option. *)
Definition converted (q : value) : list any :=
  let category := field "category" (Val q) in
  let type := field "type" (Val q) in
  let resposta := field "resposta" (Val q) in
  let answered := field "value" resposta in
  let mostValue := field "value" (field "most" resposta) in
  ((if truthy category && is_str "scale" type && truthy answered
    then [category; answered] else [])
   ++ (if is_str "choice" type && truthy resposta
       then (if truthy answered then [answered] else [])
            ++ (if truthy mostValue then [mostValue] else [])
       else []))%list.

(** A question the loop over the questions fails on. *)
Definition unreadable (q : value) : Prop :=
  q = VNull \/ exists a, In a (converted q) /\ stringable a = false.

(** [fullSubject] of a point of the raw-answers radar. *)
Definition fullSubject (p : RadarPoint) : string :=
  match p with
  | AiPoint subject _ _ => subject
  | RawPoint _ full _ _ _ => full
  end.

(** The two records [questions.forEach] fills: no name twice, no count
    below one, no category that objects inherit. *)
Definition tidy (st : list (string * (option Z * Z)) * list (string * Count)) : Prop :=
  NoDup (map fst (fst st))
  /\ Forall (fun cs => (1 <= snd (snd cs))%Z /\ inherited (fst cs) = false) (fst st)
  /\ NoDup (map fst (snd st))
  /\ Forall (fun tn => match snd tn with
                       | Times n => (1 <= n)%Z
                       | Appended k => 1 <= k /\ inherited (fst tn) = true
                       end) (snd st).

(** [JSON.stringify] applied [n + 1] times. *)
Fixpoint encode (n : nat) (v : value) : string :=
  match n with
  | O => stringify v
  | S k => stringify (VStr (encode k v))
  end.

(** *** Sample data *)

(** An analysed result, as an object. *)
Definition sample_object : list (string * value) :=
  [ ("test_title", VStr "T1");
    ("body", VArr [VObj [("id", VStr "q1"); ("resposta", VObj [("value", VStr "4")])]]);
    ("score", VNum (-125) (-1)) ].

(** A row whose payload is not JSON. *)
Definition malformed_row : ResultRow :=
  {| id := "r1"; created_at := "2024-05-01T10:00:00Z"; test_id := "t1";
     candidate_id := "c1"; result := Val (VStr "{body: [") |}.

(** A reading of decimal digits, enough to run the examples. *)
Definition parseInt_digits (text : string) (radix : option Z) : option Z :=
  match lex_int text with
  | Some (u, _) => Some (Z.of_N (N.of_uint u))
  | None => None
  end.

(** A fetched row with the given payload text. *)
Definition row_of (payload : string) : ResultRow :=
  {| id := "r1"; created_at := "2024-05-01T10:00:00Z"; test_id := "t1";
     candidate_id := "c1"; result := Val (VStr payload) |}.

End Results.

(** ** The backend store, as the client calls it *)

Module Backend.

(** A row of the [profiles] table. *)
Record Profile : Type := {
  id : string;
  name : string;
  email : string;
  role : string;
  status : string;
  assigned_test_id : option string;
  score : option Z;
  completed_date : option string
}.

(** The object handed to [update]: the columns it names, with their new
    values. *)
Record Patch : Type := {
  set_name : option string;
  set_status : option string;
  set_assigned_test_id : option (option string);
  set_completed_date : option string
}.

Definition apply_patch (p : Patch) (row : Profile) : Profile :=
  {| id := id row;
     name := default (name row) (set_name p);
     email := email row;
     role := role row;
     status := default (status row) (set_status p);
     assigned_test_id := default (assigned_test_id row) (set_assigned_test_id p);
     score := score row;
     completed_date :=
       match set_completed_date p with
       | Some d => Some d
       | None => completed_date row
       end |}.

(** What this code asks of the store and of the services next to it.  The
    [profiles] table is only ever selected from and updated. *)
Inductive Request (Body : Type) : Type :=
| SelectProfile (id : string)
| SelectTest (id : string)
| UpdateProfile (patch : Patch) (id : string)
| SignUp (email password name : string) (assigned_test_id : option string)
| PostWebhook (body : Body).
Arguments SelectProfile {Body} id.
Arguments SelectTest {Body} id.
Arguments UpdateProfile {Body} patch id.
Arguments SignUp {Body} email password name assigned_test_id.
Arguments PostWebhook {Body} body.

(** [from('profiles').update(patch).eq('id', id)] on the table, when the
    store accepts it. *)
Definition update (patch : Patch) (id : string) (db : gmap string Profile)
  : gmap string Profile :=
  alter (apply_patch patch) id db.

(** The reply [{ error }] of an [update] call: [None] when it went through. *)
Definition commit (error : option string) (patch : Patch) (id : string)
    (db : gmap string Profile) : gmap string Profile :=
  match error with
  | None => update patch id db
  | Some _ => db
  end.

End Backend.

(** ** The candidate flow *)

Module Candidate.
Import Backend.

Record QuestionOption : Type := { text : string; value : string }.

Inductive QuestionType : Type := scale | choice.
Inductive Variation : Type := single | most_least.

Record Question : Type := {
  q_id : string;
  q_text : string;
  q_category : option string;
  q_type : QuestionType;
  q_options : option (list QuestionOption);
  q_variation : option Variation
}.

Record Test : Type := {
  t_id : string;
  t_title : string;
  t_description : string;
  t_questions : list Question;
  t_active : bool
}.

(** An entry of the [answers] record: [{ text, value }] as the scale and
    single-choice handlers store it, or [{ most, least }].  The record is
    keyed by question ids, which the test builder makes of the letter q
    and a time stamp: none is a name that objects inherit. *)
Inductive Answer : Type :=
| Chosen (text value : string)
| MostLeast (most least : option QuestionOption).

Definition ans_text (a : Answer) : option string :=
  match a with
  | Chosen t _ => Some t
  | MostLeast _ _ => None
  end.

Definition ans_most (a : Answer) : option QuestionOption :=
  match a with
  | Chosen _ _ => None
  | MostLeast m _ => m
  end.

Definition ans_least (a : Answer) : option QuestionOption :=
  match a with
  | Chosen _ _ => None
  | MostLeast _ l => l
  end.

(** An element of the [body] of the payload. *)
Record Entry : Type := {
  e_id : string;
  e_text : string;
  e_category : option string;
  e_type : QuestionType;
  e_options : option (list QuestionOption);
  e_variation : option Variation;
  resposta : option Answer
}.

Record Payload : Type := {
  test_id : string;
  test_title : string;
  test_description : string;
  candidate_id : string;
  candidate_email : string;
  body : list Entry
}.

(** The state of the component: its [useState] cells and the
    [hasSubmittedRef] latch. *)
Record State : Type := {
  loading : bool;
  error : string;
  candidateName : string;
  candidateEmail : string;
  test : option Test;
  alreadyTaken : bool;
  currentStep : nat;
  answers : gmap string Answer;
  isSubmitting : bool;
  isCompleted : bool;
  hasSubmittedRef : bool
}.

Definition initial : State :=
  {| loading := true; error := ""; candidateName := ""; candidateEmail := "";
     test := None; alreadyTaken := false; currentStep := 0; answers := ∅;
     isSubmitting := false; isCompleted := false; hasSubmittedRef := false |}.

Definition setLoading (b : bool) (st : State) : State :=
  {| loading := b; error := error st; candidateName := candidateName st;
     candidateEmail := candidateEmail st; test := test st;
     alreadyTaken := alreadyTaken st; currentStep := currentStep st;
     answers := answers st; isSubmitting := isSubmitting st;
     isCompleted := isCompleted st; hasSubmittedRef := hasSubmittedRef st |}.

Definition setError (e : string) (st : State) : State :=
  {| loading := loading st; error := e; candidateName := candidateName st;
     candidateEmail := candidateEmail st; test := test st;
     alreadyTaken := alreadyTaken st; currentStep := currentStep st;
     answers := answers st; isSubmitting := isSubmitting st;
     isCompleted := isCompleted st; hasSubmittedRef := hasSubmittedRef st |}.

Definition setCandidate (n e : string) (st : State) : State :=
  {| loading := loading st; error := error st; candidateName := n;
     candidateEmail := e; test := test st;
     alreadyTaken := alreadyTaken st; currentStep := currentStep st;
     answers := answers st; isSubmitting := isSubmitting st;
     isCompleted := isCompleted st; hasSubmittedRef := hasSubmittedRef st |}.

Definition setTest (t : Test) (st : State) : State :=
  {| loading := loading st; error := error st; candidateName := candidateName st;
     candidateEmail := candidateEmail st; test := Some t;
     alreadyTaken := alreadyTaken st; currentStep := currentStep st;
     answers := answers st; isSubmitting := isSubmitting st;
     isCompleted := isCompleted st; hasSubmittedRef := hasSubmittedRef st |}.

Definition setAlreadyTaken (b : bool) (st : State) : State :=
  {| loading := loading st; error := error st; candidateName := candidateName st;
     candidateEmail := candidateEmail st; test := test st;
     alreadyTaken := b; currentStep := currentStep st;
     answers := answers st; isSubmitting := isSubmitting st;
     isCompleted := isCompleted st; hasSubmittedRef := hasSubmittedRef st |}.

Definition setCurrentStep (n : nat) (st : State) : State :=
  {| loading := loading st; error := error st; candidateName := candidateName st;
     candidateEmail := candidateEmail st; test := test st;
     alreadyTaken := alreadyTaken st; currentStep := n;
     answers := answers st; isSubmitting := isSubmitting st;
     isCompleted := isCompleted st; hasSubmittedRef := hasSubmittedRef st |}.

Definition setAnswers (f : gmap string Answer -> gmap string Answer) (st : State) : State :=
  {| loading := loading st; error := error st; candidateName := candidateName st;
     candidateEmail := candidateEmail st; test := test st;
     alreadyTaken := alreadyTaken st; currentStep := currentStep st;
     answers := f (answers st); isSubmitting := isSubmitting st;
     isCompleted := isCompleted st; hasSubmittedRef := hasSubmittedRef st |}.

Definition setIsSubmitting (b : bool) (st : State) : State :=
  {| loading := loading st; error := error st; candidateName := candidateName st;
     candidateEmail := candidateEmail st; test := test st;
     alreadyTaken := alreadyTaken st; currentStep := currentStep st;
     answers := answers st; isSubmitting := b;
     isCompleted := isCompleted st; hasSubmittedRef := hasSubmittedRef st |}.

Definition setIsCompleted (b : bool) (st : State) : State :=
  {| loading := loading st; error := error st; candidateName := candidateName st;
     candidateEmail := candidateEmail st; test := test st;
     alreadyTaken := alreadyTaken st; currentStep := currentStep st;
     answers := answers st; isSubmitting := isSubmitting st;
     isCompleted := b; hasSubmittedRef := hasSubmittedRef st |}.

(** [hasSubmittedRef.current = b] *)
Definition setLatch (b : bool) (st : State) : State :=
  {| loading := loading st; error := error st; candidateName := candidateName st;
     candidateEmail := candidateEmail st; test := test st;
     alreadyTaken := alreadyTaken st; currentStep := currentStep st;
     answers := answers st; isSubmitting := isSubmitting st;
     isCompleted := isCompleted st; hasSubmittedRef := b |}.

(** *** Loading the session *)

(** A reply [{ data, error }] of the backend client. *)
Inductive Reply (A : Type) : Type :=
| Data (data : A)
| Failed (message : string).
Arguments Data {A} data.
Arguments Failed {A} message.

(** The [questions] column of a [tests] row, which arrives either as JSON
    text or already as a list. *)
Inductive Questions : Type :=
| AsText (text : string)
| AsList (l : list Question).

Record TestRow : Type := {
  r_id : string;
  r_title : string;
  r_description : string;
  r_active : bool;
  r_questions : Questions
}.

(** [a || b] on strings: the empty string is falsy. *)
Definition or_str (a b : string) : string := if String.eqb a "" then b else a.

(** The screens of the component, in the order its [return]s test for
    them.  The question screen reads the category of
    [test.questions[currentStep]]: where there is no such question the
    render throws a [TypeError] and nothing is shown. *)
Inductive Screen : Type :=
| Spinner
| AlreadyTakenScreen
| ErrorScreen (message : string)
| CompletedScreen
| QuestionScreen (t : Test)
| RenderThrows.

Definition render (st : State) : Screen :=
  if loading st then Spinner
  else if alreadyTaken st then AlreadyTakenScreen
  else
    match test st with
    | None => ErrorScreen (or_str (error st) "Teste não encontrado.")
    | Some t =>
      if negb (String.eqb (error st) "") then ErrorScreen (error st)
      else if isCompleted st then CompletedScreen
      else
        match t_questions t !! currentStep st with
        | Some currentQuestion => QuestionScreen t
        | None => RenderThrows
        end
    end.

Section Session.
(** The unchecked cast of parsed JSON to [Question[]]. *)
Variable asQuestions : Json.value -> list Question.
(** The message of the [SyntaxError] that [JSON.parse] throws. *)
Variable syntaxErrorMessage : string.
Variable candidateId : string.

(** The replies of the backend the session is loaded against. *)
Record Replies : Type := {
  profileReply : Reply Profile;
  testReply : Reply TestRow
}.

Definition load_failed (message : string) : string :=
  "Erro ao carregar sessão: " ++ or_str message "Erro desconhecido.".

(** [loadSession], with the requests it sent, oldest first.  Every path
    ends with [setLoading(false)]. *)
Definition loadSession (env : Replies) (st : State)
  : State * list (Request Payload) :=
  let st := setLoading true st in
  match profileReply env with
  | Failed message =>
    (setLoading false (setError (load_failed message) st),
     [SelectProfile candidateId])
  | Data profile =>
    let st := setCandidate (name profile) (or_str (email profile) "") st in
    if String.eqb (status profile) "completed"
       || String.eqb (status profile) "in-progress"
    then (setLoading false (setAlreadyTaken true st), [SelectProfile candidateId])
    else
      match assigned_test_id profile with
      | None | Some "" =>
        (setLoading false
           (setError "Nenhum teste foi atribuído ao seu perfil ainda. Entre em contato com o RH." st),
         [SelectProfile candidateId])
      | Some testId =>
        let sent := [SelectProfile candidateId; SelectTest testId] in
        match testReply env with
        | Failed message => (setLoading false (setError (load_failed message) st), sent)
        | Data testData =>
          if negb (r_active testData) then
            (setLoading false (setError "Este teste não está mais ativo." st), sent)
          else
            let questions :=
              match r_questions testData with
              | AsList l => Some l
              | AsText text => option_map asQuestions (Json.JSON_parse text)
              end in
            match questions with
            | None =>
              (setLoading false (setError (load_failed syntaxErrorMessage) st), sent)
            | Some l =>
              (setLoading false
                 (setTest {| t_id := r_id testData; t_title := r_title testData;
                             t_description := r_description testData;
                             t_questions := l; t_active := r_active testData |} st),
               sent)
            end
        end
      end
  end.
End Session.

(** *** Answering *)

Definition handleScaleAnswer (questionId : string) (val : Z) (st : State) : State :=
  setAnswers
    (fun prev => <[questionId := Chosen (Json.print_Z val) (Json.print_Z val)]> prev) st.

Definition handleSingleChoice (questionId : string) (option : QuestionOption)
    (st : State) : State :=
  setAnswers (fun prev => <[questionId := Chosen (text option) (value option)]> prev) st.

(** ['most' | 'least'] *)
Inductive Side : Type := Most | Least.

(** [selected?.text === option.text] *)
Definition same_text (selected : option QuestionOption) (option : QuestionOption) : bool :=
  match selected with
  | Some o => String.eqb (text o) (text option)
  | None => false
  end.

Definition handleMostLeast (questionId : string) (type : Side) (option : QuestionOption)
    (st : State) : State :=
  setAnswers
    (fun prev =>
       let currentAnswer := prev !! questionId in
       let newMost := currentAnswer ≫= ans_most in
       let newLeast := currentAnswer ≫= ans_least in
       match type with
       | Most =>
         <[questionId := MostLeast (Some option)
                           (if same_text newLeast option then None else newLeast)]> prev
       | Least =>
         <[questionId := MostLeast (if same_text newMost option then None else newMost)
                           (Some option)]> prev
       end) st.

(** [canProceed]; its result is read for its truthiness.  [None] is the
    [TypeError] of reading [id] of a question that is not there. *)
Definition canProceed (st : State) : option bool :=
  match test st with
  | None => Some false
  | Some t =>
    match t_questions t !! currentStep st with
    | None => None
    | Some q =>
      match answers st !! q_id q with
      | None => Some false
      | Some ans =>
        Some
          match q_type q with
          | scale => true
          | choice =>
            match q_variation q with
            | Some most_least =>
              match ans_most ans, ans_least ans with
              | Some m, Some l => negb (String.eqb (text m) (text l))
              | _, _ => false
              end
            | _ =>
              match ans_text ans with
              | Some t => negb (String.eqb t "")
              | None => false
              end
            end
          end
      end
    end
  end.

(** *** Submitting *)

(** The callback of [test.questions.map]; [None] is the [TypeError] of
    reading [most] of an answer that is not there. *)
Definition entry (answers : gmap string Answer) (q : Question) : option Entry :=
  let userAnswer := answers !! q_id q in
  let qObj (r : option Answer) :=
    {| e_id := q_id q; e_text := q_text q; e_category := q_category q;
       e_type := q_type q; e_options := q_options q; e_variation := q_variation q;
       resposta := r |} in
  match q_type q, q_variation q with
  | choice, Some most_least =>
    match userAnswer with
    | Some a => Some (qObj (Some (MostLeast (ans_most a) (ans_least a))))
    | None => None
    end
  | _, _ => Some (qObj userAnswer)
  end.

(** How the [fetch] of the webhook settles: it resolves with the response,
    whatever its status, and rejects when the request could not be made. *)
Inductive FetchOutcome : Type :=
| Resolved (httpStatus : Z)
| Rejected.

(** What one run of [submitTest] meets outside the component. *)
Record World : Type := {
  fetchOutcome : FetchOutcome;
  updateError : option string;
  now : string
}.

(** [iso.split('T')[0]] *)
Fixpoint before_T (iso : string) : string :=
  match iso with
  | EmptyString => ""
  | String c r => if (c =? "T")%char then "" else String c (before_T r)
  end.

(** The result of the [try] block. *)
Inductive Attempt : Type :=
| Done
| Threw (message : string).

Section Submit.
Variable candidateId : string.
(** The message of the [TypeError] of the JavaScript engine. *)
Variable typeErrorMessage : string.

Definition completed_patch (w : World) : Patch :=
  {| set_name := None; set_status := Some "completed";
     set_assigned_test_id := None;
     set_completed_date := Some (before_T (now w)) |}.

(** The [try] block of [submitTest]: the outcome, the table, and the
    requests sent, oldest first. *)
Definition attempt (w : World) (st : State) (db : gmap string Profile)
  : Attempt * gmap string Profile * list (Request Payload) :=
  match test st with
  | None => (Threw "Teste não encontrado", db, [])
  | Some t =>
    match mapM (entry (answers st)) (t_questions t) with
    | None => (Threw typeErrorMessage, db, [])
    | Some [] => (Threw "Erro: O teste parece estar vazio. Tente recarregar.", db, [])
    | Some questionsList =>
      let finalPayload :=
        {| test_id := t_id t; test_title := t_title t;
           test_description := t_description t;
           candidate_id := candidateId; candidate_email := candidateEmail st;
           body := questionsList |} in
      match fetchOutcome w with
      | Rejected =>
        (Threw "Falha de conexão ao enviar respostas. Tente novamente.", db,
         [PostWebhook finalPayload])
      | Resolved _ =>
        let sent := [PostWebhook finalPayload;
                     UpdateProfile (completed_patch w) candidateId] in
        let db' := commit (updateError w) (completed_patch w) candidateId db in
        match updateError w with
        | Some message => (Threw message, db', sent)
        | None => (Done, db', sent)
        end
      end
    end
  end.

(** [submitTest]: the latch, then the [try] block with its [catch] and
    [finally]. *)
Definition submitTest (w : World) (st : State) (db : gmap string Profile)
  : State * gmap string Profile * list (Request Payload) :=
  if hasSubmittedRef st then (st, db, [])
  else
    let st := setIsSubmitting true (setLatch true st) in
    match attempt w st db with
    | (Done, db', sent) => (setIsSubmitting false (setIsCompleted true st), db', sent)
    | (Threw message, db', sent) =>
      (setIsSubmitting false
         (setLatch false
            (setError ("Erro ao finalizar: " ++ or_str message "Contate o suporte.") st)),
       db', sent)
    end.

Definition handleNext (w : World) (st : State) (db : gmap string Profile)
  : State * gmap string Profile * list (Request Payload) :=
  match test st with
  | None => (st, db, [])
  | Some t =>
    if (S (currentStep st) <? length (t_questions t))%nat
    then (setCurrentStep (S (currentStep st)) st, db, [])
    else submitTest w st db
  end.

(** A click on the button of the question screen, which is [disabled]
    when [!canProceed() || isSubmitting || hasSubmittedRef.current]. *)
Definition clickNext (w : World) (st : State) (db : gmap string Profile)
  : State * gmap string Profile * list (Request Payload) :=
  match render st, canProceed st with
  | QuestionScreen _, Some true =>
    if isSubmitting st || hasSubmittedRef st then (st, db, [])
    else handleNext w st db
  | _, _ => (st, db, [])
  end.
End Submit.

(** *** What the specification asks of an answer *)

(** The completion requirement of a question, in the words of the
    specification: a scale question needs a recorded answer, a
    single-choice question a selected option with a text, a most/least
    question two selections with different texts. *)
Definition satisfied (q : Question) (a : option Answer) : Prop :=
  match q_type q, q_variation q with
  | scale, _ => exists ans, a = Some ans
  | choice, Some most_least =>
    exists m l, a = Some (MostLeast (Some m) (Some l)) /\ text m <> text l
  | choice, _ => exists t v, a = Some (Chosen t v) /\ t <> ""
  end.

(** The "most" and "least" of an answer never name the same option. *)
Definition distinct (a : option Answer) : Prop :=
  match a ≫= ans_most, a ≫= ans_least with
  | Some m, Some l => text m <> text l
  | _, _ => True
  end.

(** Every question of the test has an answer that satisfies it. *)
Definition complete (t : Test) (answers : gmap string Answer) : Prop :=
  forall q, q ∈ t_questions t -> satisfied q (answers !! q_id q).

(** The payload entry the specification describes for a question: its
    fields, and the recorded answer as [resposta]. *)
Definition described_entry (answers : gmap string Answer) (q : Question) : Entry :=
  {| e_id := q_id q; e_text := q_text q; e_category := q_category q;
     e_type := q_type q; e_options := q_options q; e_variation := q_variation q;
     resposta := answers !! q_id q |}.

(** *** Sample data *)

(** A profile that started its test. *)
Definition taken_profile : Profile :=
  {| id := "c1"; name := "Ana"; email := "ana@example.com"; role := "candidate";
     status := "in-progress"; assigned_test_id := None; score := None;
     completed_date := None |}.

(** A most/least question answered with the same option on both sides. *)
Definition answering_most_least : State :=
  {| loading := false; error := ""; candidateName := "Ana"; candidateEmail := "";
     test :=
       Some {| t_id := "T2"; t_title := ""; t_description := "";
               t_questions :=
                 [ {| q_id := "q1"; q_text := "Escolha"; q_category := None;
                      q_type := choice; q_options := None;
                      q_variation := Some most_least |} ];
               t_active := true |};
     alreadyTaken := false; currentStep := 0;
     answers := {[ "q1" := MostLeast (Some {| text := "A"; value := "1" |})
                                     (Some {| text := "A"; value := "1" |}) ]};
     isSubmitting := false; isCompleted := false; hasSubmittedRef := false |}.

(** The test of the specification's example: a scale question and a
    single-choice question, answered 4 and "Option B". *)
Definition T1 : Test :=
  {| t_id := "T1"; t_title := "Perfil"; t_description := "";
     t_questions :=
       [ {| q_id := "q1"; q_text := "Gosto de liderar"; q_category := Some "Liderança";
            q_type := scale; q_options := None; q_variation := None |};
         {| q_id := "q2"; q_text := "Escolha"; q_category := None;
            q_type := choice;
            q_options := Some [ {| text := "Option A"; value := "Analítico" |};
                                {| text := "Option B"; value := "Líder" |} ];
            q_variation := Some single |} ];
     t_active := true |}.

(** The component on the last question of [T1], both questions answered. *)
Definition answering_T1 : State :=
  handleSingleChoice "q2" {| text := "Option B"; value := "Líder" |}
    (handleScaleAnswer "q1" 4
       (setCurrentStep 1 (setTest T1 (setLoading false initial)))).

(** A run in which the webhook answers and the update goes through. *)
Definition delivered : World :=
  {| fetchOutcome := Resolved 200; updateError := None; now := "2024-05-01T12:30:00.000Z" |}.

(** A run in which the webhook cannot be reached. *)
Definition unreachable : World :=
  {| fetchOutcome := Rejected; updateError := None; now := "2024-05-01T12:30:00.000Z" |}.

(** A run in which the webhook answers with an error status and the
    update goes through. *)
Definition answered_500 : World :=
  {| fetchOutcome := Resolved 500; updateError := None; now := "2024-05-01T12:30:00.000Z" |}.

(** A candidate who has not taken the test yet. *)
Definition pending_ana : Profile :=
  {| id := "c1"; name := "Ana"; email := "ana@example.com"; role := "candidate";
     status := "pending"; assigned_test_id := Some "T1"; score := None;
     completed_date := None |}.

Definition option_A : QuestionOption := {| text := "A"; value := "Líder" |}.
Definition option_B : QuestionOption := {| text := "B"; value := "Analítico" |}.

(** *** The component over time *)

(** What happens to the mounted component: its effect loads the session
    again, the candidate answers, or clicks the button. *)
Inductive Event : Type :=
| Reload (env : Replies)
| AnswerScale (questionId : string) (val : Z)
| AnswerSingle (questionId : string) (option : QuestionOption)
| AnswerMostLeast (questionId : string) (type : Side) (option : QuestionOption)
| ClickNext (w : World).

Section Run.
Variable asQuestions : Json.value -> list Question.
Variable syntaxErrorMessage : string.
Variable candidateId : string.
Variable typeErrorMessage : string.

(** One event, on the component and the table; the requests sent, by
    the loading of the session and by the submission, are collected,
    oldest first. *)
Definition step (ev : Event) (x : State * gmap string Profile * list (Request Payload))
  : State * gmap string Profile * list (Request Payload) :=
  let '(st, db, sent) := x in
  match ev with
  | Reload env =>
    let '(st', asked) := loadSession asQuestions syntaxErrorMessage candidateId env st in
    (st', db, (sent ++ asked)%list)
  | AnswerScale questionId val => (handleScaleAnswer questionId val st, db, sent)
  | AnswerSingle questionId option => (handleSingleChoice questionId option st, db, sent)
  | AnswerMostLeast questionId type option =>
    (handleMostLeast questionId type option st, db, sent)
  | ClickNext w =>
    let '(st', db', more) := clickNext candidateId typeErrorMessage w st db in
    (st', db', (sent ++ more)%list)
  end.

Definition run (evs : list Event) (st : State) (db : gmap string Profile)
  : State * gmap string Profile * list (Request Payload) :=
  fold_left (fun x ev => step ev x) evs (st, db, []).
End Run.

(** The component can no longer submit: its latch is set or it shows an
    error. *)
Definition spent (st : State) : Prop :=
  hasSubmittedRef st = true \/ error st <> "".

(** *** The question screen *)

Section Screen.
Variable asQuestions : Json.value -> list Question.
Variable syntaxErrorMessage : string.
Variable candidateId : string.
Variable typeErrorMessage : string.

(** What the question screen lets happen: its answer buttons call the
    handlers with the id of the question on screen, and reading the
    session again finds the test that is loaded. *)
Definition on_screen (st : State) (ev : Event) : Prop :=
  match ev with
  | AnswerScale questionId _ | AnswerSingle questionId _ | AnswerMostLeast questionId _ _ =>
    exists t q,
      test st = Some t /\ t_questions t !! currentStep st = Some q /\ questionId = q_id q
  | Reload env =>
    test (loadSession asQuestions syntaxErrorMessage candidateId env st).1 = test st
  | ClickNext _ => True
  end.

(** A sequence of events, each one let happen by the screen it meets. *)
Fixpoint plays (evs : list Event) (x : State * gmap string Profile * list (Request Payload))
  : Prop :=
  match evs with
  | [] => True
  | ev :: evs' =>
    on_screen x.1.1 ev
    /\ plays evs' (step asQuestions syntaxErrorMessage candidateId typeErrorMessage ev x)
  end.
End Screen.

(** The questions the candidate has passed are answered, and what was
    posted holds an answer to every question. *)
Definition passed (t : Test) (x : State * gmap string Profile * list (Request Payload))
  : Prop :=
  let '(st, _, sent) := x in
  test st = Some t
  /\ (forall i q, i < currentStep st -> t_questions t !! i = Some q ->
      satisfied q (answers st !! q_id q))
  /\ forall payload, PostWebhook payload ∈ sent ->
       test_id payload = t_id t
       /\ exists answers, complete t answers
                          /\ body payload = map (described_entry answers) (t_questions t).

(** A delivery that fails, as the specification words it: the request
    could not be made, or the endpoint answered with a status that is not
    a success (outside 200 to 299, [response.ok] false). *)
Definition delivery_failed (w : World) : Prop :=
  match fetchOutcome w with
  | Rejected => True
  | Resolved httpStatus => ~ (200 <= httpStatus <= 299)%Z
  end.

(** The requests of a submission among the requests sent: the post to
    the webhook and the update of the profile. *)
Definition submissions (sent : list (Request Payload)) : list (Request Payload) :=
  List.filter (fun r => match r with
                        | PostWebhook _ | UpdateProfile _ _ => true
                        | _ => false
                        end) sent.

(** A query that the loading of the session sends. *)
Definition is_query (candidateId : string) (r : Request Payload) : Prop :=
  r = SelectProfile candidateId \/ exists testId, r = SelectTest testId.

(** What the component has submitted and written so far: nothing, or one
    payload, or one payload and the one update of the profile; after it
    has submitted anything it is spent. *)
Definition once (candidateId : string) (db0 : gmap string Profile)
  (x : State * gmap string Profile * list (Request Payload)) : Prop :=
  let '(st, db, sent) := x in
  submissions sent = [] /\ db = db0
  \/ spent st
     /\ exists payload,
          submissions sent = [PostWebhook payload] /\ db = db0
          \/ exists w,
               submissions sent
               = [PostWebhook payload; UpdateProfile (completed_patch w) candidateId]
               /\ db = commit (updateError w) (completed_patch w) candidateId db0.

(** An active test as the [tests] table returns it. *)
Definition active_row : TestRow :=
  {| r_id := "T1"; r_title := "Perfil"; r_description := ""; r_active := true;
     r_questions := AsList (t_questions T1) |}.

End Candidate.

(** ** The candidate roster of the admin console *)

Module Roster.
Import Backend.

(** A row of the roster, as [fetchData] maps it from a profile. *)
Record Candidate : Type := {
  c_id : string;
  c_name : string;
  c_email : string;
  c_status : string;
  assignedTestId : option string;
  c_score : option Z;
  completedDate : option string
}.

Record FormData : Type := {
  f_name : string;
  f_email : string;
  f_password : string;
  testId : string
}.

Record State : Type := {
  candidates : list Candidate;
  editingId : option string;
  formData : FormData;
  showModal : bool;
  errorMsg : string;
  isSubmitting : bool
}.

(** [text.includes(part)] *)
Fixpoint includes (part text : string) : bool :=
  String.prefix part text
  || match text with
     | EmptyString => false
     | String _ rest => includes part rest
     end.

(** [s || null] *)
Definition or_null (s : string) : option string :=
  if String.eqb s "" then None else Some s.

(** The message the [catch] of [handleSave] shows. *)
Definition save_error (message : string) : string :=
  if includes "User already registered" message
  then "Este e-mail já está registrado no sistema de autenticação."
  else if includes "recursion" message
  then "Erro de Back-end (RLS): Recursão infinita detectada."
  else if String.eqb message "" then "Erro ao salvar dados." else message.

(** The object [handleSave] hands to [update] when a candidate is edited. *)
Definition edit_patch (form : FormData) : Patch :=
  {| set_name := Some (f_name form);
     set_status := None;
     set_assigned_test_id := Some (or_null (testId form));
     set_completed_date := None |}.

(** The reply of the sign-up service: the id of the new user, if the
    reply carries one. *)
Inductive SignUpReply : Type :=
| SignedUp (user : option string)
| Refused (message : string).

Definition finish (st : State) (cs : list Candidate) (show : bool) (msg : string) : State :=
  {| candidates := cs; editingId := editingId st; formData := formData st;
     showModal := show; errorMsg := msg; isSubmitting := false |}.

(** [handleSave]: the state, the [profiles] table and the requests sent.
    [if (editingId)] takes the empty id for no id, as it takes [null]. *)
Definition handleSave (updateError : option string) (signUp : SignUpReply)
    (st : State) (db : gmap string Profile)
  : State * gmap string Profile * list (Request unit) :=
  let form := formData st in
  match editingId st with
  | None | Some "" =>
    let sent := [SignUp (f_email form) (f_password form) (f_name form)
                        (or_null (testId form))] in
    match signUp with
    | Refused message => (finish st (candidates st) (showModal st) (save_error message), db, sent)
    | SignedUp (Some user) =>
      (finish st
         ({| c_id := user; c_name := f_name form; c_email := f_email form;
             c_status := "pending"; assignedTestId := Some (testId form);
             c_score := None; completedDate := None |} :: candidates st)
         false "", db, sent)
    | SignedUp None =>
      (finish st (candidates st) false
         "Usuário criado. Se a lista não atualizar, recarregue a página.", db, sent)
    end
  | Some editing =>
    let sent := [UpdateProfile (edit_patch form) editing] in
    let db' := commit updateError (edit_patch form) editing db in
    match updateError with
    | Some message => (finish st (candidates st) (showModal st) (save_error message), db', sent)
    | None =>
      (finish st
         (map (fun c =>
                 if String.eqb (c_id c) editing
                 then {| c_id := c_id c; c_name := f_name form; c_email := c_email c;
                         c_status := c_status c; assignedTestId := Some (testId form);
                         c_score := c_score c; completedDate := completedDate c |}
                 else c) (candidates st))
         false "", db', sent)
    end
  end.

(** *** Sample data *)

(** The edit form open on candidate [c1], the test left unassigned. *)
Definition editing_ana : State :=
  {| candidates := [];
     editingId := Some "c1";
     formData := {| f_name := "Ana Maria"; f_email := "ana@example.com";
                    f_password := ""; testId := "" |};
     showModal := true; errorMsg := ""; isSubmitting := true |}.

(** The same form when the id of the candidate is the empty string. *)
Definition editing_nameless_id : State :=
  {| candidates := [];
     editingId := Some "";
     formData := {| f_name := "Ana Maria"; f_email := "ana@example.com";
                    f_password := "secret"; testId := "" |};
     showModal := true; errorMsg := ""; isSubmitting := true |}.

(** A candidate who completed the test. *)
Definition ana : Profile :=
  {| id := "c1"; name := "Ana"; email := "ana@example.com"; role := "candidate";
     status := "completed"; assigned_test_id := Some "T1"; score := Some 7%Z;
     completed_date := Some "2024-05-01" |}.

(** *** Loading the roster and opening the form *)

(** The rest of the state of the list. *)
Record Listing : Type := {
  tests : list Candidate.TestRow;
  loading : bool;
  fetchError : string
}.

(** The reply [{ data, error }] of a query; [json] is the text
    [JSON.stringify(error)]. *)
Inductive Reply (A : Type) : Type :=
| Rows (data : list A)
| Failed (message json : string)
| Neither.
Arguments Rows {A} data.
Arguments Failed {A} message json.
Arguments Neither {A}.

(** The callback of [profilesData.filter(...).map]. *)
Definition to_candidate (p : Profile) : Candidate :=
  {| c_id := id p;
     c_name := Candidate.or_str (name p) "Sem Nome";
     c_email := Candidate.or_str (email p) "Sem Email";
     c_status := Candidate.or_str (status p) "pending";
     assignedTestId := assigned_test_id p;
     c_score := score p;
     completedDate := completed_date p |}.

Definition setCandidates (cs : list Candidate) (st : State) : State :=
  {| candidates := cs; editingId := editingId st; formData := formData st;
     showModal := showModal st; errorMsg := errorMsg st; isSubmitting := isSubmitting st |}.

(** The message the [catch] of [fetchData] shows. *)
Definition fetch_error (message json : string) : string :=
  let msg := Candidate.or_str message json in
  if includes "recursion" msg then "Backend: Detectada recursão infinita (RLS)."
  else "Erro ao carregar dados: " ++ msg.

(** [fetchData]: the tests on offer, then the profiles. *)
Definition fetchData (testsReply : Reply Candidate.TestRow) (profilesReply : Reply Profile)
    (view : Listing) (st : State) : Listing * State :=
  let tests' :=
    match testsReply with
    | Rows testsData => testsData
    | _ => tests view
    end in
  match profilesReply with
  | Failed message json =>
    ({| tests := tests'; loading := false; fetchError := fetch_error message json |},
     setCandidates [] st)
  | Rows profilesData =>
    ({| tests := tests'; loading := false; fetchError := "" |},
     setCandidates
       (map to_candidate
          (List.filter (fun p => negb (String.eqb (role p) "admin")) profilesData)) st)
  | Neither => ({| tests := tests'; loading := false; fetchError := "" |}, st)
  end.

(** [openModal(candidate)], and [openModal()] for a new candidate. *)
Definition openModal (view : Listing) (candidate : option Candidate) (st : State) : State :=
  {| candidates := candidates st;
     editingId := option_map c_id candidate;
     formData :=
       match candidate with
       | Some c =>
         {| f_name := c_name c; f_email := c_email c; f_password := "";
            testId := default "" (assignedTestId c) |}
       | None =>
         {| f_name := ""; f_email := ""; f_password := "";
            testId := match tests view with
                      | t :: _ => Candidate.r_id t
                      | [] => ""
                      end |}
       end;
     showModal := true; errorMsg := ""; isSubmitting := isSubmitting st |}.

(** A roster with nothing open. *)
Definition idle : State :=
  {| candidates := []; editingId := None;
     formData := {| f_name := ""; f_email := ""; f_password := ""; testId := "" |};
     showModal := false; errorMsg := ""; isSubmitting := false |}.

(** An administrator. *)
Definition root : Profile :=
  {| id := "a1"; name := "Root"; email := "root@example.com"; role := "admin";
     status := ""; assigned_test_id := None; score := None; completed_date := None |}.

(** A profile without a name. *)
Definition nameless : Profile :=
  {| id := "c2"; name := ""; email := ""; role := "candidate";
     status := ""; assigned_test_id := None; score := None; completed_date := None |}.

End Roster.

(** ** The list of results *)

Module Viewer.
Import Json Results.

(** A row of the list of the result viewer: the columns of [result_test]
    and the two joined objects. *)
Record Listed : Type := {
  row : ResultRow;
  profiles : any;
  tests : any
}.

(** The reply [{ data, error }] of a query. *)
Inductive Reply (A : Type) : Type :=
| Rows (data : list A)
| Error (code message : string).
Arguments Rows {A} data.
Arguments Error {A} code message.

Record State : Type := {
  results : list Listed;
  loading : bool;
  fetchError : string
}.

(** The callback of [data.map]. *)
Definition processed (r : Listed) : Listed :=
  {| row := processRow (row r); profiles := profiles r; tests := tests r |}.

(** The callback of [rawData.map] in the fallback. *)
Definition mapped (r : ResultRow) : Listed :=
  let parsed := Val (safeParseJSON (result r)) in
  {| row := processRow r;
     profiles :=
       Val (VObj
         [ ("name",
            match or_else (field "candidate_email" parsed)
                          (Val (VStr "Candidato (Nome indisponível)")) with
            | Val v => v
            | Undefined => VNull
            end);
           ("email",
            match or_else (field "candidate_email" parsed)
                          (Val (VStr (candidate_id r))) with
            | Val v => v
            | Undefined => VNull
            end) ]);
     tests :=
       Val (VObj
         [ ("title",
            match or_else (field "test_title" parsed)
                          (Val (VStr "Teste (Título indisponível)")) with
            | Val v => v
            | Undefined => VNull
            end) ]) |}.

(** The [catch] and [finally] of [fetchResults]. *)
Definition failed (message : string) (st : State) : State :=
  {| results := results st; loading := false;
     fetchError := if String.eqb message ""
                   then "Erro desconhecido ao carregar resultados."
                   else message |}.

Definition loaded (rows : list Listed) : State :=
  {| results := rows; loading := false; fetchError := "" |}.

(** [fetchResults]: [first] is the reply to the query with the joins,
    [second] the reply to the query without them, which is sent only
    after an error about the relationships. *)
Definition fetchResults (first : Reply Listed) (second : Reply ResultRow) (st : State)
  : State :=
  match first with
  | Error code message =>
    if String.eqb code "PGRST200" || Roster.includes "relationship" message then
      match second with
      | Error _ rawMessage => failed rawMessage st
      | Rows rawData => loaded (map mapped rawData)
      end
    else failed message st
  | Rows data => loaded (map processed data)
  end.

(** A row is ready for the charts when its [result] is no string. *)
Definition ready (r : Listed) : Prop :=
  exists v, result (row r) = Val v /\ is_string v = false.

End Viewer.

(** ** From the questionnaire to the charts

    The text [JSON.stringify(finalPayload)] that [submitTest] posts, and
    what the charts of the result viewer are to show of it. *)

Module Wire.

(** A property whose value is [undefined] is left out of the text. *)
Definition present (k : string) (v : option Json.value) : list (string * Json.value) :=
  match v with
  | Some x => [(k, x)]
  | None => []
  end.

Definition option_json (o : Candidate.QuestionOption) : Json.value :=
  Json.VObj [ ("text", Json.VStr (Candidate.text o));
              ("value", Json.VStr (Candidate.value o)) ].

Definition answer_json (a : Candidate.Answer) : Json.value :=
  match a with
  | Candidate.Chosen t v => Json.VObj [("text", Json.VStr t); ("value", Json.VStr v)]
  | Candidate.MostLeast m l =>
    Json.VObj (present "most" (option_map option_json m)
               ++ present "least" (option_map option_json l))%list
  end.

Definition type_json (t : Candidate.QuestionType) : Json.value :=
  match t with
  | Candidate.scale => Json.VStr "scale"
  | Candidate.choice => Json.VStr "choice"
  end.

Definition variation_json (v : Candidate.Variation) : Json.value :=
  match v with
  | Candidate.single => Json.VStr "single"
  | Candidate.most_least => Json.VStr "most_least"
  end.

(** [qObj], its properties in the order they are set. *)
Definition entry_json (e : Candidate.Entry) : Json.value :=
  Json.VObj
    ([ ("id", Json.VStr (Candidate.e_id e)); ("text", Json.VStr (Candidate.e_text e)) ]
     ++ present "category" (option_map Json.VStr (Candidate.e_category e))
     ++ [ ("type", type_json (Candidate.e_type e)) ]
     ++ present "options"
          (option_map (fun l => Json.VArr (map option_json l)) (Candidate.e_options e))
     ++ present "variation" (option_map variation_json (Candidate.e_variation e))
     ++ present "resposta" (option_map answer_json (Candidate.resposta e)))%list.

(** [finalPayload] *)
Definition payload_json (p : Candidate.Payload) : Json.value :=
  Json.VObj
    [ ("test_id", Json.VStr (Candidate.test_id p));
      ("test_title", Json.VStr (Candidate.test_title p));
      ("test_description", Json.VStr (Candidate.test_description p));
      ("candidate_id", Json.VStr (Candidate.candidate_id p));
      ("candidate_email", Json.VStr (Candidate.candidate_email p));
      ("body", Json.VArr (map entry_json (Candidate.body p))) ].

Section Reading.
Variable parseInt : string -> option Z -> option Z.

(** What an entry adds to the radar: the answer to a scale question
    with a category goes to the total and the count of that category. *)
Definition entry_score (e : Candidate.Entry) (scores : list (string * (option Z * Z)))
  : list (string * (option Z * Z)) :=
  match Candidate.e_type e, Candidate.e_category e, Candidate.resposta e with
  | Candidate.scale, Some category, Some (Candidate.Chosen _ v) =>
    if String.eqb category "" || String.eqb v "" then scores
    else Results.accumulate category (parseInt v (Some 10%Z)) scores
  | _, _, _ => scores
  end.

(** A value that is no number counts as a tag. *)
Definition tag (v : string) (counts : list (string * Results.Count))
  : list (string * Results.Count) :=
  if negb (String.eqb v "") && Results.isNaN (parseInt v None)
  then Results.increment v counts
  else counts.

(** What an entry adds to the bars: the value chosen in a choice
    question, or the value of the option marked "most". *)
Definition entry_tags (e : Candidate.Entry) (counts : list (string * Results.Count))
  : list (string * Results.Count) :=
  match Candidate.e_type e, Candidate.resposta e with
  | Candidate.choice, Some (Candidate.Chosen _ v) => tag v counts
  | Candidate.choice, Some (Candidate.MostLeast (Some o) _) => tag (Candidate.value o) counts
  | _, _ => counts
  end.

(** The chart of the answers of a payload. *)
Definition chart_of (p : Candidate.Payload) : Results.ChartData :=
  {| Results.radarData :=
       map (fun cs => Results.RawPoint (Results.shorten (fst cs)) (fst cs)
                                       (fst (snd cs)) (snd (snd cs)) 5)
           (fold_left (fun acc e => entry_score e acc) (Candidate.body p) []);
     Results.barData :=
       map Results.bar (fold_left (fun acc e => entry_tags e acc) (Candidate.body p) []);
     Results.isAiData := false |}.
End Reading.

(** The payload of the run [submitTest "c1" _ delivered answering_T1]. *)
Definition payload_T1 : Candidate.Payload :=
  {| Candidate.test_id := "T1"; Candidate.test_title := "Perfil";
     Candidate.test_description := ""; Candidate.candidate_id := "c1";
     Candidate.candidate_email := "";
     Candidate.body :=
       map (Candidate.described_entry (Candidate.answers Candidate.answering_T1))
           (Candidate.t_questions Candidate.T1) |}.

End Wire.

(** * Part II: properties *)

(** ** Strings *)

Module Str.

Lemma app_nil_r (s : string) : s ++ "" = s.
Proof. induction s as [|c s IH]; simpl; [reflexivity | now rewrite IH]. Qed.

Lemma app_assoc (a b c : string) : (a ++ b) ++ c = a ++ (b ++ c).
Proof. induction a as [|x a IH]; simpl; [reflexivity | now rewrite IH]. Qed.

Lemma length_app (a b : string) :
  String.length (a ++ b) = String.length a + String.length b.
Proof. induction a as [|x a IH]; simpl; [reflexivity | now rewrite IH]. Qed.

End Str.

(** ** [JSON.parse] and [JSON.stringify] *)

Module JsonFacts.
Import Json.

(** *** What a parse consumes *)

Lemma skip_ws_length (s : string) : String.length (skip_ws s) <= String.length s.
Proof.
  induction s as [|c s IH]; simpl; [lia|].
  destruct (is_ws c); simpl; lia.
Qed.

Lemma utf8_length (cp : N) : String.length (utf8 cp) <= 3.
Proof. unfold utf8. repeat case_match; simpl; lia. Qed.

Lemma push_inv p x t r :
  push p x = Some (t, r) -> exists t', x = Some (t', r) /\ t = p ++ t'.
Proof.
  destruct x as [[t' r']|]; simpl; [|discriminate].
  intros [= <- <-]. eauto.
Qed.

(** A string literal is longer than the string it denotes: the closing
    quote is consumed and no escape sequence is shorter than what it
    stands for. *)
Lemma lex_string_length_le (n : nat) :
  forall s t r, String.length s <= n -> lex_string s = Some (t, r) ->
    String.length t + String.length r + 1 <= String.length s.
Proof.
  induction n as [|n IH]; intros [|c s] t r Hn H; simpl in *; try discriminate; try lia.
  destruct (c =? dquote)%char.
  { injection H as <- <-. simpl. lia. }
  destruct (c =? backslash)%char.
  - destruct s as [|e r1]; [discriminate|].
    destruct (unescape e) as [d|].
    + apply push_inv in H as (t' & H & ->).
      apply IH in H; simpl in *; lia.
    + destruct (e =? "u")%char; [|discriminate].
      destruct r1 as [|h1 [|h2 [|h3 [|h4 r2]]]]; try discriminate.
      destruct (hex4 h1 h2 h3 h4) as [cp|]; [|discriminate].
      apply push_inv in H as (t' & H & ->).
      apply IH in H; simpl in *; [|lia].
      rewrite Str.length_app. pose proof (utf8_length cp). lia.
  - destruct (is_control c); [discriminate|].
    apply push_inv in H as (t' & H & ->).
    apply IH in H; simpl in *; lia.
Qed.

Lemma lex_string_length s t r :
  lex_string s = Some (t, r) ->
  String.length t + String.length r + 1 <= String.length s.
Proof. apply (lex_string_length_le (String.length s)). lia. Qed.

Lemma expect_not_str lit v s t r :
  (forall u, v <> VStr u) -> expect lit v s <> Some (VStr t, r).
Proof.
  revert s. induction lit as [|c lit IH]; intros s Hv; simpl.
  - intros [= E _]. now apply Hv in E.
  - destruct s as [|d s]; [discriminate|].
    destruct (c =? d)%char; [now apply IH | discriminate].
Qed.

(** Only a string literal parses to a string, and the string is at least
    two characters (the quotes) shorter than the text read. *)
Lemma value_step_str pe pm s t r :
  value_step pe pm s = Some (VStr t, r) ->
  String.length t + String.length r + 2 <= String.length s.
Proof.
  unfold value_step.
  pose proof (skip_ws_length s) as Hws.
  destruct (skip_ws s) as [|c r0]; [discriminate|].
  destruct (c =? dquote)%char.
  { destruct (lex_string r0) as [[t' r']|] eqn:E; [|discriminate].
    intros [= <- <-]. apply lex_string_length in E. simpl in Hws. lia. }
  destruct (c =? "[")%char.
  { destruct (skip_ws r0) as [|[[] [] [] [] [] [] [] []] ?];
      try discriminate; destruct (pe r0) as [[? ?]|]; discriminate. }
  destruct (c =? "{")%char.
  { destruct (skip_ws r0) as [|[[] [] [] [] [] [] [] []] ?];
      try discriminate; destruct (pm r0) as [[? ?]|]; discriminate. }
  intros H. exfalso. revert H.
  destruct (c =? "t")%char; [apply expect_not_str; discriminate|].
  destruct (c =? "f")%char; [apply expect_not_str; discriminate|].
  destruct (c =? "n")%char; [apply expect_not_str; discriminate|].
  destruct (lex_number (String c r0)) as [[[m e] r']|]; discriminate.
Qed.

Lemma parse_value_str fuel s t r :
  parse_value fuel s = Some (VStr t, r) ->
  String.length t + String.length r + 2 <= String.length s.
Proof.
  destruct fuel as [|n]; [discriminate|]. apply value_step_str.
Qed.

Lemma JSON_parse_str s t :
  JSON_parse s = Some (VStr t) -> String.length t + 2 <= String.length s.
Proof.
  unfold JSON_parse.
  destruct (parse_value _ s) as [[v r]|] eqn:E; [|discriminate].
  destruct (skip_ws r); [|discriminate].
  intros [= ->]. apply parse_value_str in E. lia.
Qed.

(** *** The fuel of the descent is enough *)

Lemma lex_digits_length (s : string) u r :
  lex_digits s = (u, r) ->
  String.length r <= String.length s /\ (u <> Nil -> String.length r < String.length s).
Proof.
  revert u r. induction s as [|c s IH]; intros u r; simpl.
  - intros [= <- <-]. simpl. split; [lia | congruence].
  - destruct (digit_of c) as [d|].
    + destruct (lex_digits s) as [u' r'] eqn:E. intros [= <- <-].
      destruct (IH _ _ eq_refl) as [H _]. split; intros; simpl; lia.
    + intros [= <- <-]. simpl. split; [lia | congruence].
Qed.

Lemma lex_int_length s u r :
  lex_int s = Some (u, r) -> String.length r < String.length s.
Proof.
  unfold lex_int. destruct s as [|c s]; [discriminate|].
  destruct (c =? "0")%char; [intros [= <- <-]; simpl; lia|].
  destruct (lex_digits (String c s)) as [u' r'] eqn:E.
  apply lex_digits_length in E as [_ E].
  destruct u'; try discriminate; intros [= <- <-]; apply E; discriminate.
Qed.

Lemma lex_frac_length s u r :
  lex_frac s = Some (u, r) -> String.length r <= String.length s.
Proof.
  unfold lex_frac. destruct s as [|c s]; [intros [= <- <-]; lia|].
  destruct (c =? ".")%char; [|intros [= <- <-]; lia].
  destruct (lex_digits s) as [u' r'] eqn:E.
  apply lex_digits_length in E as [E _].
  destruct u'; try discriminate; intros [= <- <-]; simpl; lia.
Qed.

Lemma lex_exp_digits_length neg s e r :
  lex_exp_digits neg s = Some (e, r) -> String.length r <= String.length s.
Proof.
  unfold lex_exp_digits. destruct (lex_digits s) as [u' r'] eqn:E.
  apply lex_digits_length in E as [E _].
  destruct u'; try discriminate; intros [= <- <-]; lia.
Qed.

Lemma lex_exp_length s e r :
  lex_exp s = Some (e, r) -> String.length r <= String.length s.
Proof.
  unfold lex_exp. destruct s as [|c s]; [intros [= <- <-]; lia|].
  destruct ((c =? "e") || (c =? "E"))%char; [|intros [= <- <-]; lia].
  destruct s as [|g s1]; [discriminate|].
  destruct (g =? "-")%char; [|destruct (g =? "+")%char];
    intros H; apply lex_exp_digits_length in H; simpl in *; lia.
Qed.

Lemma lex_unsigned_length s m e r :
  lex_unsigned s = Some (m, e, r) -> String.length r < String.length s.
Proof.
  unfold lex_unsigned.
  destruct (lex_int s) as [[ip s1]|] eqn:E1; [|discriminate].
  destruct (lex_frac s1) as [[fp s2]|] eqn:E2; [|discriminate].
  destruct (lex_exp s2) as [[ex s3]|] eqn:E3; [|discriminate].
  intros [= <- <- <-].
  apply lex_int_length in E1. apply lex_frac_length in E2. apply lex_exp_length in E3. lia.
Qed.

Lemma lex_number_length s m e r :
  lex_number s = Some (m, e, r) -> String.length r < String.length s.
Proof.
  unfold lex_number. destruct s as [|c s]; [discriminate|].
  destruct (c =? "-")%char.
  - destruct (lex_unsigned s) as [[[m' e'] r']|] eqn:E; [|discriminate].
    intros [= <- <- <-]. apply lex_unsigned_length in E. simpl. lia.
  - destruct (lex_unsigned (String c s)) as [[[m' e'] r']|] eqn:E; [|discriminate].
    intros [= <- <- <-]. now apply lex_unsigned_length in E.
Qed.

Lemma expect_length lit v s v' r :
  expect lit v s = Some (v', r) -> String.length r <= String.length s.
Proof.
  revert s. induction lit as [|c lit IH]; intros s; simpl.
  - intros [= <- <-]. lia.
  - destruct s as [|d s]; [discriminate|].
    destruct (c =? d)%char; [|discriminate].
    intros H. apply IH in H. simpl. lia.
Qed.

(** Replays a step with other parsers, along the equations met on the way. *)
Ltac replay step :=
  intros; unfold step;
  repeat match goal with
         | H : _ = _ |- _ => rewrite H
         end;
  reflexivity.

Lemma value_step_inv pe pm s v r :
  value_step pe pm s = Some (v, r) -> value_step_ok pe pm s v r.
Proof.
  unfold value_step. pose proof (skip_ws_length s) as Hws.
  destruct (skip_ws s) as [|c r0] eqn:Es; [discriminate|]. simpl in Hws.
  destruct (c =? dquote)%char eqn:C1.
  { destruct (lex_string r0) as [[t r']|] eqn:E; [|discriminate].
    intros [= <- <-]. pose proof (lex_string_length _ _ _ E).
    apply ok_atom; [lia | replay value_step]. }
  destruct (c =? "[")%char eqn:C2.
  { pose proof (skip_ws_length r0) as Hws0.
    destruct (skip_ws r0) as [|[[] [] [] [] [] [] [] []] r1] eqn:E0;
      try (destruct (pe r0) as [[l r']|] eqn:E; [|discriminate];
           intros [= <- <-]; apply (ok_array _ _ _ _ _ r0 l); [lia | exact E |];
           replay value_step).
    intros [= <- <-]. simpl in Hws0. apply ok_atom; [lia | replay value_step]. }
  destruct (c =? "{")%char eqn:C3.
  { pose proof (skip_ws_length r0) as Hws0.
    destruct (skip_ws r0) as [|[[] [] [] [] [] [] [] []] r1] eqn:E0;
      try (destruct (pm r0) as [[ms r']|] eqn:E; [|discriminate];
           intros [= <- <-]; apply (ok_object _ _ _ _ _ r0 ms); [lia | exact E |];
           replay value_step).
    intros [= <- <-]. simpl in Hws0. apply ok_atom; [lia | replay value_step]. }
  destruct (c =? "t")%char eqn:C4.
  { intros H. pose proof (expect_length _ _ _ _ _ H). apply ok_atom; [lia | replay value_step]. }
  destruct (c =? "f")%char eqn:C5.
  { intros H. pose proof (expect_length _ _ _ _ _ H). apply ok_atom; [lia | replay value_step]. }
  destruct (c =? "n")%char eqn:C6.
  { intros H. pose proof (expect_length _ _ _ _ _ H). apply ok_atom; [lia | replay value_step]. }
  destruct (lex_number (String c r0)) as [[[m e] r']|] eqn:E; [|discriminate].
  intros [= <- <-]. pose proof (lex_number_length _ _ _ _ E) as El. simpl in El.
  apply ok_atom; [lia | replay value_step].
Qed.

Lemma elements_step_inv pv pe s l r :
  elements_step pv pe s = Some (l, r) -> elements_step_ok pv pe s l r.
Proof.
  unfold elements_step.
  destruct (pv s) as [[v r1]|] eqn:Ev; [|discriminate].
  pose proof (skip_ws_length r1) as Hws.
  destruct (skip_ws r1) as [|[[] [] [] [] [] [] [] []] r2] eqn:E1; try discriminate;
    simpl in Hws.
  - intros [= <- <-]. apply (ok_last _ _ _ _ _ v r1); [exact Ev | lia | replay elements_step].
  - destruct (pe r2) as [[l' r']|] eqn:Ee; [|discriminate].
    intros [= <- <-].
    apply (ok_more _ _ _ _ _ v r1 r2 l'); [exact Ev | lia | exact Ee | replay elements_step].
Qed.

Lemma members_step_inv pv pm s ms r :
  members_step pv pm s = Some (ms, r) -> members_step_ok pv pm s ms r.
Proof.
  unfold members_step. pose proof (skip_ws_length s) as Hws.
  destruct (skip_ws s) as [|c r0] eqn:Es; [discriminate|]. simpl in Hws.
  destruct (c =? dquote)%char eqn:C1; [|discriminate].
  destruct (lex_string r0) as [[k r1]|] eqn:Ek; [|discriminate].
  pose proof (lex_string_length _ _ _ Ek) as Hk.
  pose proof (skip_ws_length r1) as Hws1.
  destruct (skip_ws r1) as [|[[] [] [] [] [] [] [] []] r2] eqn:E1; try discriminate.
  simpl in Hws1.
  destruct (pv r2) as [[v r3]|] eqn:Ev; [|discriminate].
  pose proof (skip_ws_length r3) as Hws3.
  destruct (skip_ws r3) as [|[[] [] [] [] [] [] [] []] r4] eqn:E3; try discriminate;
    simpl in Hws3.
  - intros [= <- <-].
    apply (okm_last _ _ _ _ _ r2 v r3); [lia | exact Ev | lia | replay members_step].
  - destruct (pm r4) as [[ms' r']|] eqn:Em; [|discriminate].
    intros [= <- <-].
    apply (okm_more _ _ _ _ _ r2 v r3 r4 ms');
      [lia | exact Ev | lia | exact Em | replay members_step].
Qed.

Lemma parse_cost (n : nat) : value_cost n /\ elements_cost n /\ members_cost n.
Proof.
  induction n as [|n (HV & HE & HM)]; [repeat split; intros ? ? ?; discriminate|].
  repeat split.
  - intros s v r H.
    change (value_step (parse_elements n) (parse_members n) s = Some (v, r)) in H.
    destruct (value_step_inv _ _ _ _ _ H) as [Hl Hall|r0 l Hl He Hall|r0 ms Hl Hm Hall].
    + exists 1. split; [lia|]. intros [|m] Hm; [lia|]. apply Hall.
    + destruct (HE _ _ _ He) as (k & Hk & Hmono).
      exists (S k). split; [lia|]. intros [|m] Hm; [lia|].
      apply Hall, Hmono. lia.
    + destruct (HM _ _ _ Hm) as (k & Hk & Hmono).
      exists (S k). split; [lia|]. intros [|m] Hm'; [lia|].
      apply Hall, Hmono. lia.
  - intros s l r H.
    change (elements_step (parse_value n) (parse_elements n) s = Some (l, r)) in H.
    destruct (elements_step_inv _ _ _ _ _ H) as [v r1 Hv Hl Hall|v r1 r2 l' Hv Hl He Hall].
    + destruct (HV _ _ _ Hv) as (k & Hk & Hmono).
      exists (S k). split; [lia|]. intros [|m] Hm; [lia|].
      apply Hall, Hmono. lia.
    + destruct (HV _ _ _ Hv) as (k1 & Hk1 & Hmono1).
      destruct (HE _ _ _ He) as (k2 & Hk2 & Hmono2).
      exists (S (Nat.max k1 k2)). split; [lia|]. intros [|m] Hm; [lia|].
      apply Hall; [apply Hmono1 | apply Hmono2]; lia.
  - intros s ms r H.
    change (members_step (parse_value n) (parse_members n) s = Some (ms, r)) in H.
    destruct (members_step_inv _ _ _ _ _ H)
      as [r2 v r3 Hl Hv Hl3 Hall|r2 v r3 r4 ms' Hl Hv Hl3 Hm Hall].
    + destruct (HV _ _ _ Hv) as (k & Hk & Hmono).
      exists (S k). split; [lia|]. intros [|m] Hm; [lia|].
      apply Hall, Hmono. lia.
    + destruct (HV _ _ _ Hv) as (k1 & Hk1 & Hmono1).
      destruct (HM _ _ _ Hm) as (k2 & Hk2 & Hmono2).
      exists (S (Nat.max k1 k2)). split; [lia|]. intros [|m] Hm'; [lia|].
      apply Hall; [apply Hmono1 | apply Hmono2]; lia.
Qed.

(** [JSON_parse] finds every derivation: its fuel is never what makes it
    fail. *)
Lemma JSON_parse_derives (text : string) (v : value) :
  JSON_parse text = Some v <-> derives text v.
Proof.
  unfold JSON_parse, derives. split.
  - destruct (parse_value _ text) as [[v' r]|] eqn:E; [|discriminate].
    destruct (skip_ws r) eqn:Er; [|discriminate].
    intros [= ->]. eauto.
  - intros (fuel & rest & H & Hr).
    destruct (parse_cost fuel) as (HV & _ & _).
    destruct (HV _ _ _ H) as (k & Hk & Hmono).
    rewrite (Hmono (S (String.length text))) by lia. now rewrite Hr.
Qed.

Lemma JSON_parse_none (text : string) :
  JSON_parse text = None <-> forall v, ~ derives text v.
Proof.
  split.
  - intros H v Hd. apply JSON_parse_derives in Hd. congruence.
  - intros H. destruct (JSON_parse text) as [v|] eqn:E; [|reflexivity].
    apply JSON_parse_derives in E. now apply H in E.
Qed.

(** *** Printing then parsing *)

Lemma push_push p q x : push p (push q x) = push (p ++ q) x.
Proof. destruct x as [[t r]|]; simpl; [|reflexivity]. now rewrite Str.app_assoc. Qed.

Lemma lex_escape_char (c : ascii) (tl : string) :
  lex_string (escape_char c ++ tl) = push (String c "") (lex_string tl).
Proof.
  destruct c as [[] [] [] [] [] [] [] []]; cbv [escape_char]; simpl;
    try reflexivity; rewrite push_push; reflexivity.
Qed.

Lemma lex_string_escape (s rest : string) :
  lex_string (escape s ++ String dquote rest) = Some (s, rest).
Proof.
  induction s as [|c s IH]; [reflexivity|].
  simpl escape. rewrite Str.app_assoc, lex_escape_char, IH. reflexivity.
Qed.

Lemma lex_string_quote (s rest : string) :
  exists body, quote s ++ rest = String dquote body /\ lex_string body = Some (s, rest).
Proof.
  exists (escape s ++ String dquote rest). split.
  - unfold quote. simpl. now rewrite Str.app_assoc.
  - apply lex_string_escape.
Qed.

Lemma stops_nondigit rest : stops_number rest = true -> nondigit rest = true.
Proof.
  destruct rest as [|c r]; simpl; [reflexivity|].
  destruct (is_digit c); simpl; [discriminate | reflexivity].
Qed.

Lemma lex_digits_nondigit rest : nondigit rest = true -> lex_digits rest = (Nil, rest).
Proof.
  destruct rest as [|c r]; simpl; [reflexivity|].
  unfold is_digit. destruct (digit_of c); [discriminate | reflexivity].
Qed.

Lemma lex_digits_print (u : uint) (rest : string) :
  nondigit rest = true ->
  lex_digits (NilEmpty.string_of_uint u ++ rest) = (u, rest).
Proof.
  intros Hr. induction u; simpl; rewrite ?IHu; try reflexivity.
  now apply lex_digits_nondigit.
Qed.

Lemma unorm_fix_shape (d : uint) : unorm d = d -> int_shape d = true.
Proof.
  intros H. destruct d as [|d'| | | | | | | | | ]; try reflexivity.
  - discriminate H.
  - destruct (uint_eq_dec (nzhead (D0 d')) Nil) as [E|E].
    + apply unorm_0 in E. rewrite H in E. injection E as ->. reflexivity.
    + apply unorm_nzhead in E. rewrite H in E. symmetry in E.
      now apply nzhead_nonzero in E.
Qed.

Lemma to_uint_shape (n : N) : int_shape (N.to_uint n) = true.
Proof.
  apply unorm_fix_shape.
  now rewrite <- (DecimalN.Unsigned.to_of (N.to_uint n)), DecimalN.Unsigned.of_to.
Qed.

Lemma lex_int_print (n : N) (rest : string) :
  nondigit rest = true ->
  lex_int (print_N n ++ rest) = Some (N.to_uint n, rest).
Proof.
  intros Hr. unfold print_N. pose proof (to_uint_shape n) as Hs.
  pose proof (lex_digits_print (N.to_uint n) rest Hr) as Hd.
  destruct (N.to_uint n) as [|d|d|d|d|d|d|d|d|d|d]; try discriminate;
    try (unfold lex_int; simpl in *; rewrite Hd; reflexivity).
  destruct d; try discriminate. reflexivity.
Qed.

Lemma print_N_head (n : N) (rest : string) :
  exists c r, print_N n ++ rest = String c r /\ is_digit c = true.
Proof.
  unfold print_N. pose proof (to_uint_shape n) as Hs.
  destruct (N.to_uint n); try discriminate; simpl; eauto.
Qed.

Lemma lex_exp_digits_print (neg : bool) (n : N) (rest : string) :
  nondigit rest = true ->
  lex_exp_digits neg (print_N n ++ rest)
  = Some (if neg then (- Z.of_N n)%Z else Z.of_N n, rest).
Proof.
  intros Hr. unfold lex_exp_digits, print_N.
  rewrite lex_digits_print by assumption.
  pose proof (to_uint_shape n) as Hs.
  destruct (N.to_uint n) eqn:E; try discriminate;
    rewrite <- E, DecimalN.Unsigned.of_to; reflexivity.
Qed.

Lemma lex_exp_print (e : Z) (rest : string) :
  stops_number rest = true ->
  lex_exp (print_exp e ++ rest) = Some (e, rest).
Proof.
  intros Hr. unfold print_exp.
  destruct (Z.eqb_spec e 0) as [->|Hne].
  - destruct rest as [|c r]; [reflexivity|]. simpl in *.
    destruct (c =? "e")%char, (c =? "E")%char; simpl in *;
      rewrite ?orb_true_r in Hr; try discriminate; reflexivity.
  - apply stops_nondigit in Hr. unfold print_Z.
    destruct (Z.ltb_spec e 0) as [Hlt|Hge].
    + simpl. rewrite (lex_exp_digits_print true) by assumption.
      do 2 f_equal. lia.
    + destruct (print_N_head (Z.abs_N e) rest) as (c & r & E & Hc).
      simpl. rewrite E.
      assert (Hm : (c =? "-")%char = false /\ (c =? "+")%char = false).
      { destruct c as [[] [] [] [] [] [] [] []]; try discriminate; split; reflexivity. }
      destruct Hm as [-> ->]. rewrite <- E.
      rewrite (lex_exp_digits_print false) by assumption.
      do 2 f_equal. lia.
Qed.

Lemma lex_frac_print (e : Z) (rest : string) :
  stops_number rest = true ->
  lex_frac (print_exp e ++ rest) = Some (Nil, print_exp e ++ rest).
Proof.
  intros Hr. unfold print_exp.
  destruct (e =? 0)%Z; [|reflexivity].
  destruct rest as [|c r]; [reflexivity|]. simpl in *.
  destruct (c =? ".")%char; [|reflexivity].
  rewrite orb_true_r in Hr. discriminate.
Qed.

Lemma nondigit_print_exp (e : Z) (rest : string) :
  stops_number rest = true -> nondigit (print_exp e ++ rest) = true.
Proof.
  intros Hr. unfold print_exp.
  destruct (e =? 0)%Z; [now apply stops_nondigit | reflexivity].
Qed.

Lemma lex_unsigned_print (n : N) (e : Z) (rest : string) :
  stops_number rest = true ->
  lex_unsigned (print_N n ++ print_exp e ++ rest) = Some (n, e, rest).
Proof.
  intros Hr. unfold lex_unsigned.
  rewrite lex_int_print by now apply nondigit_print_exp.
  rewrite lex_frac_print, lex_exp_print by assumption.
  rewrite DecimalN.Unsigned.of_to. simpl.
  do 3 f_equal; lia.
Qed.

Lemma lex_number_print (m e : Z) (rest : string) :
  stops_number rest = true ->
  lex_number (print_num m e ++ rest) = Some (m, e, rest).
Proof.
  intros Hr. unfold print_num, print_Z. rewrite Str.app_assoc.
  destruct (Z.ltb_spec m 0) as [Hlt|Hge].
  - unfold lex_number. simpl. rewrite lex_unsigned_print by assumption.
    do 3 f_equal. lia.
  - destruct (print_N_head (Z.abs_N m) (print_exp e ++ rest)) as (c & r & E & Hc).
    unfold lex_number. rewrite E.
    assert (Hm : (c =? "-")%char = false).
    { destruct c as [[] [] [] [] [] [] [] []]; try discriminate; reflexivity. }
    rewrite Hm, <- E, lex_unsigned_print by assumption.
    do 3 f_equal. lia.
Qed.

Lemma size_pos v : 1 <= size v.
Proof. destruct v; simpl; lia. Qed.

Lemma obj_set_fresh k v o :
  k ∉ map fst o -> obj_set k v o = (o ++ [(k, v)])%list.
Proof.
  induction o as [|[k' v'] o IH]; simpl; [reflexivity|].
  intros Hn. apply not_elem_of_cons in Hn as [Hne Hn].
  destruct (String.eqb_spec k k') as [->|_]; [contradiction|].
  f_equal. now apply IH.
Qed.

Lemma fold_obj_set ms : forall acc,
  NoDup (map fst (acc ++ ms)%list) ->
  fold_left (fun o kv => obj_set (fst kv) (snd kv) o) ms acc = (acc ++ ms)%list.
Proof.
  induction ms as [|[k v] ms IH]; intros acc Hnd; simpl.
  - now rewrite List.app_nil_r.
  - rewrite obj_set_fresh.
    + rewrite IH; rewrite <- List.app_assoc; [reflexivity | exact Hnd].
    + rewrite List.map_app in Hnd. apply NoDup_app in Hnd as (_ & Hd & _).
      intros Hin. apply (Hd _ Hin). simpl. left.
Qed.

Lemma obj_of_members_nodup ms : NoDup (map fst ms) -> obj_of_members ms = ms.
Proof. intros H. unfold obj_of_members. now rewrite fold_obj_set. Qed.

Lemma print_num_head m e rest :
  exists c r, print_num m e ++ rest = String c r
              /\ ((c =? "-")%char || is_digit c) = true.
Proof.
  unfold print_num, print_Z. rewrite Str.app_assoc.
  destruct (m <? 0)%Z.
  - simpl. eauto.
  - destruct (print_N_head (Z.abs_N m) (print_exp e ++ rest)) as (c & r & E & Hc).
    exists c, r. split; [assumption|]. rewrite Hc. apply orb_true_r.
Qed.

Lemma stringify_head v rest :
  exists c r, stringify v ++ rest = String c r /\ value_start c = true.
Proof.
  destruct v as [|[]|m e|s|l|l]; simpl; eauto.
  destruct (print_num_head m e rest) as (c & r & E & Hc).
  exists c, r. split; [assumption|].
  unfold value_start. apply orb_true_iff in Hc as [Hc|Hc]; rewrite Hc;
    rewrite ?orb_true_r; reflexivity.
Qed.

Section Dispatch.
Variable pe : string -> option (list value * string).
Variable pm : string -> option (list (string * value) * string).

Lemma value_step_number c r :
  ((c =? "-")%char || is_digit c) = true ->
  value_step pe pm (String c r)
  = match lex_number (String c r) with
    | Some (m, e, r') => Some (VNum m e, r')
    | None => None
    end.
Proof.
  destruct c as [[] [] [] [] [] [] [] []]; try discriminate; reflexivity.
Qed.

Lemma value_step_array c r :
  value_start c = true ->
  value_step pe pm (String "[" (String c r))
  = match pe (String c r) with
    | Some (l, r') => Some (VArr l, r')
    | None => None
    end.
Proof.
  destruct c as [[] [] [] [] [] [] [] []]; try discriminate; reflexivity.
Qed.

Lemma value_step_object r :
  value_step pe pm (String "{" (String dquote r))
  = match pm (String dquote r) with
    | Some (ms, r') => Some (VObj (obj_of_members ms), r')
    | None => None
    end.
Proof. reflexivity. Qed.
End Dispatch.

Lemma join_cons_app {A} (f : A -> string) (x : A) (l : list A) (tl : string) :
  join "," (map f (x :: l)) ++ tl
  = f x ++ match l with
           | [] => tl
           | y :: l' => String "," (join "," (map f (y :: l')) ++ tl)
           end.
Proof.
  destruct l as [|y l']; [reflexivity|].
  change (join "," (map f (x :: y :: l')))
    with (f x ++ String "," (join "," (map f (y :: l')))).
  now rewrite Str.app_assoc.
Qed.

Lemma stringify_arr_app l rest :
  stringify (VArr l) ++ rest = String "[" (join "," (map stringify l) ++ String "]" rest).
Proof. simpl. now rewrite Str.app_assoc. Qed.

Lemma stringify_obj_app l rest :
  stringify (VObj l) ++ rest = String "{" (join "," (map member l) ++ String "}" rest).
Proof. simpl. now rewrite Str.app_assoc. Qed.

Lemma member_app kv tl :
  member kv ++ tl
  = String dquote (escape (fst kv) ++ String dquote (String ":" (stringify (snd kv) ++ tl))).
Proof. unfold member, quote. simpl. now rewrite !Str.app_assoc. Qed.

Lemma join_length sep x l :
  String.length (join sep (x :: l))
  = String.length x
    + match l with
      | [] => 0
      | _ :: _ => String.length sep + String.length (join sep l)
      end.
Proof.
  destruct l as [|y l]; simpl; [lia|]. now rewrite !Str.length_app.
Qed.

#[local] Opaque join.

(** Structural induction on values, through the lists they contain. *)
Lemma value_ind (P : value -> Prop) :
  P VNull -> (forall b, P (VBool b)) -> (forall m e, P (VNum m e)) ->
  (forall s, P (VStr s)) ->
  (forall l, Forall P l -> P (VArr l)) ->
  (forall l, Forall (fun kv => P (snd kv)) l -> P (VObj l)) ->
  forall v, P v.
Proof.
  intros Hnull Hbool Hnum Hstr Harr Hobj. fix IH 1.
  intros [|b|m e|s|l|l];
    [exact Hnull | apply Hbool | apply Hnum | apply Hstr | |].
  - apply Harr. induction l as [|x l IHl]; constructor; [apply IH | exact IHl].
  - apply Hobj. induction l as [|x l IHl]; constructor; [apply IH | exact IHl].
Qed.

Lemma roundtrip_value_S n :
  roundtrip_elements n -> roundtrip_members n -> roundtrip_value (S n).
Proof.
  intros HE HM v rest Hsz Hwf Hr. change (parse_value (S n)) with
    (value_step (parse_elements n) (parse_members n)).
  destruct v as [|[]|m e|s|l|l]; try reflexivity.
  - destruct (print_num_head m e rest) as (c & r & E & Hc).
    simpl stringify. rewrite E, value_step_number, <- E by assumption.
    now rewrite lex_number_print.
  - destruct (lex_string_quote s rest) as (body & E & Hb).
    simpl stringify. rewrite E. unfold value_step. simpl. now rewrite Hb.
  - destruct l as [|x l]; [reflexivity|].
    rewrite stringify_arr_app.
    pose proof (join_cons_app stringify x l (String "]" rest)) as Et.
    destruct (stringify_head x
      match l with
      | [] => String "]" rest
      | y :: l' => String "," (join "," (map stringify (y :: l')) ++ String "]" rest)
      end) as (c & r & E & Hc).
    rewrite E in Et. rewrite Et, value_step_array, <- Et by assumption.
    change (size (VArr (x :: l))) with (S (sizes (x :: l))) in Hsz.
    rewrite HE; [reflexivity | lia | exact Hwf].
  - destruct l as [|kv l]; [reflexivity|].
    rewrite stringify_obj_app.
    simpl in Hwf. apply andb_prop in Hwf as [Hnd Hwf].
    apply bool_decide_eq_true in Hnd.
    pose proof (join_cons_app member kv l (String "}" rest)) as Et.
    rewrite member_app in Et.
    rewrite Et, value_step_object, <- Et.
    change (size (VObj (kv :: l))) with (S (msizes (kv :: l))) in Hsz.
    rewrite HM; [| lia | exact Hwf].
    now rewrite obj_of_members_nodup.
Qed.

Lemma roundtrip_elements_S n :
  roundtrip_value n -> roundtrip_elements n -> roundtrip_elements (S n).
Proof.
  intros HV HE x l rest Hsz Hwf.
  change (parse_elements (S n)) with (elements_step (parse_value n) (parse_elements n)).
  simpl in Hwf. apply andb_prop in Hwf as [Hx Hl].
  change (sizes (x :: l)) with (S (size x + sizes l)) in Hsz.
  rewrite join_cons_app. unfold elements_step.
  destruct l as [|y l'].
  - rewrite HV by (trivial; lia). reflexivity.
  - rewrite HV by (trivial; lia). simpl skip_ws. cbv iota beta.
    change (stringify y :: map stringify l') with (map stringify (y :: l')).
    rewrite HE by (trivial; lia). reflexivity.
Qed.

Lemma roundtrip_members_S n :
  roundtrip_value n -> roundtrip_members n -> roundtrip_members (S n).
Proof.
  intros HV HM [k v] l rest Hsz Hwf.
  change (parse_members (S n)) with (members_step (parse_value n) (parse_members n)).
  simpl in Hwf. apply andb_prop in Hwf as [Hx Hl].
  change (msizes ((k, v) :: l)) with (S (size v + msizes l)) in Hsz.
  rewrite join_cons_app, member_app. unfold members_step, fst, snd.
  simpl skip_ws. cbv iota beta.
  change (dquote =? dquote)%char with true. cbv iota.
  rewrite lex_string_escape. simpl skip_ws. cbv iota beta.
  destruct l as [|kv' l'].
  - rewrite HV by (trivial; lia). reflexivity.
  - rewrite HV by (trivial; lia). simpl skip_ws. cbv iota beta.
    change (member kv' :: map member l') with (map member (kv' :: l')).
    rewrite HM by (trivial; lia). reflexivity.
Qed.

Lemma roundtrip_fuel n :
  roundtrip_value n /\ roundtrip_elements n /\ roundtrip_members n.
Proof.
  induction n as [|n (HV & HE & HM)].
  - repeat split.
    + intros v rest Hsz. pose proof (size_pos v). lia.
    + intros x l rest Hsz. change (sizes (x :: l)) with (S (size x + sizes l)) in Hsz. lia.
    + intros kv l rest Hsz.
      change (msizes (kv :: l)) with (S (size (snd kv) + msizes l)) in Hsz. lia.
  - repeat split.
    + now apply roundtrip_value_S.
    + now apply roundtrip_elements_S.
    + now apply roundtrip_members_S.
Qed.

(** The printed text is at least as long as the value is large. *)
Lemma size_le_length v : size v <= String.length (stringify v).
Proof.
  induction v as [|[]|m e|s|l IH|l IH] using value_ind; try (simpl; lia).
  - destruct (print_num_head m e "") as (c & r & E & _).
    rewrite Str.app_nil_r in E. simpl. rewrite E. simpl. lia.
  - change (stringify (VArr l)) with (String "[" (join "," (map stringify l) ++ "]")).
    change (size (VArr l)) with (S (sizes l)).
    cbn [String.length]. rewrite Str.length_app. cbn [String.length].
    enough (sizes l <= String.length (join "," (map stringify l)) + 1) by lia.
    induction IH as [|x l Hx _ IHl]; [simpl; lia|].
    change (sizes (x :: l)) with (S (size x + sizes l)).
    rewrite map_cons, join_length. destruct l; simpl in *; lia.
  - change (stringify (VObj l)) with (String "{" (join "," (map member l) ++ "}")).
    change (size (VObj l)) with (S (msizes l)).
    cbn [String.length]. rewrite Str.length_app. cbn [String.length].
    enough (msizes l <= String.length (join "," (map member l)) + 1) by lia.
    induction IH as [|x l Hx _ IHl]; [simpl; lia|].
    change (msizes (x :: l)) with (S (size (snd x) + msizes l)).
    rewrite map_cons, join_length. unfold member at 1.
    rewrite Str.length_app. cbn [String.length].
    destruct l; simpl in *; lia.
Qed.

(** [JSON.parse(JSON.stringify(v))] gives [v] back. *)
Lemma JSON_parse_stringify v : wf v = true -> JSON_parse (stringify v) = Some v.
Proof.
  intros Hwf. unfold JSON_parse.
  destruct (roundtrip_fuel (S (String.length (stringify v)))) as (HV & _ & _).
  specialize (HV v "").
  rewrite Str.app_nil_r in HV. rewrite HV; trivial.
  pose proof (size_le_length v). lia.
Qed.

End JsonFacts.

(** ** The result viewer *)

Module ResultsFacts.
Import Json JsonFacts Results.

#[global] Arguments number_text : simpl never.
#[global] Arguments is_zero : simpl never.

(** *** The recursion of [safeParseJSON] *)

(** What is no object has a text. *)
Lemma ToString_returns (input : any) :
  is_object input = false -> exists text, ToString input = Returns text.
Proof. destruct input as [|[|[]| | | |]]; try discriminate; simpl; eauto. Qed.

Lemma safeParseJSON_fuel_indep (n : nat) : forall m input,
  text_length input < n -> text_length input < m ->
  safeParseJSON_fuel n input = safeParseJSON_fuel m input.
Proof.
  induction n as [|n IH]; intros [|m] input Hn Hm; try lia.
  unfold text_length in *. cbn [safeParseJSON_fuel].
  destruct input as [|[|b|k e|s|l|l]]; try reflexivity;
    (destruct (ToString _) as [text|]; [|reflexivity];
     destruct (JSON_parse text) as [[| | |t| |]|] eqn:E; try reflexivity;
     apply JSON_parse_str in E; apply IH; simpl in *; lia).
Qed.

Lemma safeParseJSON_fuel_total (n : nat) : forall input,
  text_length input < n ->
  exists r, safeParseJSON_fuel n input = Some r /\ is_string r = false.
Proof.
  induction n as [|n IH]; intros input Hn; [lia|].
  unfold text_length in *. cbn [safeParseJSON_fuel].
  destruct input as [|[|b|k e|s|l|l]]; eauto;
    (destruct (ToString _) as [text|]; [|eauto];
     destruct (JSON_parse text) as [[| | |t| |]|] eqn:E; eauto;
     apply JSON_parse_str in E; apply IH; simpl in *; lia).
Qed.

(** The defining equation of [safeParseJSON], as the source has it. *)
Lemma safeParseJSON_eq (input : any) :
  safeParseJSON input
  = match input with
    | Val (VArr _ as o) | Val (VObj _ as o) => o
    | _ =>
      match ToString input with
      | TypeError => VObj []
      | Returns text =>
        match JSON_parse text with
        | Some (VStr parsed) => safeParseJSON (Val (VStr parsed))
        | Some parsed => parsed
        | None => VObj []
        end
      end
    end.
Proof.
  unfold safeParseJSON at 1. unfold text_length. cbn [safeParseJSON_fuel].
  destruct input as [|[|b|k e|s|l|l]]; try reflexivity;
    (destruct (ToString _) as [text|]; [|reflexivity];
     destruct (JSON_parse text) as [[| | |t| |]|] eqn:E; try reflexivity;
     apply JSON_parse_str in E; unfold safeParseJSON; f_equal;
     apply safeParseJSON_fuel_indep; unfold text_length; simpl in *; lia).
Qed.

Lemma safeParseJSON_not_string (input : any) : is_string (safeParseJSON input) = false.
Proof.
  unfold safeParseJSON.
  destruct (safeParseJSON_fuel_total (S (text_length input)) input)
    as (r & -> & Hr); [lia | exact Hr].
Qed.

Lemma safeParseJSON_fuel_origin (n : nat) : forall input r,
  safeParseJSON_fuel n input = Some r -> origin input r.
Proof.
  induction n as [|n IH]; intros input r H; [discriminate|].
  cbn [safeParseJSON_fuel] in H.
  destruct input as [|[|b|k e|s|l|l]];
    try (injection H as <-; now apply FromInput).
  all: match type of H with
       | context [ToString ?a] =>
         destruct (ToString_returns a eq_refl) as (text & Ht); rewrite Ht in H
       end.
  all: destruct (JSON_parse text) as [p|] eqn:E;
    [ destruct p as [| | |t| |];
      try (injection H as <-; now apply (FromParse _ text))
    | injection H as <-; now apply (FromFailure _ text) ].
  all: apply IH in H; now apply (FromString _ text t).
Qed.

(** [origin] names one value for an input. *)
Lemma origin_unique (input : any) (r : value) :
  origin input r -> forall r', origin input r' -> r' = r.
Proof.
  induction 1 as [v Hv|input text Ho Ht Hp|input text parsed r Ho Ht Hp Hr IH
                  |input text r Ho Ht Hp Hs];
    intros r' H'; inversion H'; subst; simpl in *; try congruence.
  - assert (text0 = text) as -> by congruence.
    assert (parsed0 = parsed) as -> by congruence. now apply IH.
  - assert (text0 = text) as -> by congruence.
    assert (r' = VStr parsed) as -> by congruence. discriminate.
  - assert (text0 = text) as -> by congruence.
    assert (r = VStr parsed) as -> by congruence. discriminate.
Qed.

Lemma safeParseJSON_origin (input : any) : origin input (safeParseJSON input).
Proof.
  unfold safeParseJSON.
  destruct (safeParseJSON_fuel_total (S (text_length input)) input)
    as (r & Hr & _); [lia|].
  rewrite Hr. now apply (safeParseJSON_fuel_origin _ _ _ Hr).
Qed.

Lemma safeParseJSON_encode (n : nat) (v : value) :
  wf v = true -> is_string v = false ->
  safeParseJSON (Val (VStr (encode n v))) = v.
Proof.
  intros Hwf Hv. induction n as [|n IH]; rewrite safeParseJSON_eq; simpl.
  - rewrite JSON_parse_stringify by assumption. now destruct v.
  - change (quote (encode n v)) with (stringify (VStr (encode n v))).
    rewrite JSON_parse_stringify by reflexivity. exact IH.
Qed.

(** *** Claims about the result viewer *)

(** C3.  For every JSON object [v], [safeParseJSON] applied to the string
    encoding of the string encoding of [v] yields the same object as
    applied to the string encoding of [v]: the object [v] itself, and so
    for every depth of string encoding. *)
Theorem safeParseJSON_unwraps (l : list (string * value)) :
  wf (VObj l) = true ->
  safeParseJSON (Val (VStr (stringify (VStr (stringify (VObj l))))))
  = safeParseJSON (Val (VStr (stringify (VObj l))))
  /\ safeParseJSON (Val (VStr (stringify (VObj l)))) = VObj l
  /\ forall n, safeParseJSON (Val (VStr (encode n (VObj l)))) = VObj l.
Proof.
  intros Hwf.
  assert (H : forall n, safeParseJSON (Val (VStr (encode n (VObj l)))) = VObj l)
    by (intros n; now apply safeParseJSON_encode).
  split; [|split].
  - exact (eq_trans (H 1) (eq_sym (H 0))).
  - exact (H 0).
  - exact H.
Qed.

Lemma safeParseJSON_unwraps_witness :
  wf (VObj sample_object) = true
  /\ safeParseJSON (Val (VStr (stringify (VStr (stringify (VObj sample_object))))))
     = VObj sample_object.
Proof.
  split; [reflexivity|].
  destruct (safeParseJSON_unwraps sample_object eq_refl) as (H2 & H1 & _).
  now rewrite H2.
Defined.

(** C4.  For every input string that is not valid JSON, [safeParseJSON]
    returns the empty object instead of raising, and [calculateChartData]
    applied to a result row whose payload is that text returns, without
    throwing, a radar series with no entry: both for the row as
    [fetchResults] stores it and for the row as it was fetched. *)
Theorem malformed_payload_empty_chart
    (parseInt : string -> option Z -> option Z) (row : ResultRow) (text : string) :
  result row = Val (VStr text) ->
  JSON_parse text = None ->
  safeParseJSON (result row) = VObj []
  /\ calculateChartData parseInt (processRow row)
     = Returns {| radarData := []; barData := []; isAiData := false |}
  /\ calculateChartData parseInt row
     = Returns {| radarData := []; barData := []; isAiData := false |}.
Proof.
  intros Hrow Hbad.
  assert (Hs : safeParseJSON (result row) = VObj []).
  { rewrite Hrow, safeParseJSON_eq. simpl. now rewrite Hbad. }
  split; [exact Hs|]. split.
  - unfold calculateChartData, processRow. simpl. now rewrite Hs.
  - unfold calculateChartData. rewrite Hrow.
    destruct text as [|c text]; reflexivity.
Qed.

Lemma malformed_payload_witness :
  result malformed_row = Val (VStr "{body: [")
  /\ JSON_parse "{body: [" = None
  /\ calculateChartData (fun _ _ => None) (processRow malformed_row)
     = Returns {| radarData := []; barData := []; isAiData := false |}.
Proof.
  split; [reflexivity|]. split; [reflexivity|].
  exact (proj1 (proj2 (malformed_payload_empty_chart (fun _ _ => None) malformed_row
                         "{body: [" eq_refl eq_refl))).
Defined.

(** C10.  [safeParseJSON] is total: it calls itself only on a string that
    [JSON.parse] produced from a strictly longer string, so the length of
    the text it reads bounds its recursion on every input.  Its result is
    never a string, and it is the one value that the input determines:
    the input itself when that is an object, else the empty object when
    the text of the input (or of the string it unwraps to) does not
    parse, else the value parsed, which is not a string. *)
Theorem safeParseJSON_total :
  (forall s t, JSON_parse s = Some (VStr t) -> String.length t < String.length s)
  /\ forall input,
       (forall fuel, text_length input < fuel ->
                     safeParseJSON_fuel fuel input = Some (safeParseJSON input))
       /\ is_string (safeParseJSON input) = false
       /\ origin input (safeParseJSON input)
       /\ (forall r, origin input r -> r = safeParseJSON input)
       /\ (forall v, input = Val v -> is_object input = true -> safeParseJSON input = v)
       /\ (is_object input = false ->
           exists text,
             ToString input = Returns text
             /\ match JSON_parse text with
                | None => safeParseJSON input = VObj []
                | Some (VStr parsed) =>
                  String.length parsed < String.length text
                  /\ safeParseJSON input = safeParseJSON (Val (VStr parsed))
                | Some r => safeParseJSON input = r
                end).
Proof.
  split.
  - intros s t H. apply JSON_parse_str in H. lia.
  - intros input. split; [|split; [|split; [|split; [|split]]]].
    + intros fuel Hf.
      destruct (safeParseJSON_fuel_total (S (text_length input)) input)
        as (r & Hr & _); [lia|].
      unfold safeParseJSON. rewrite Hr. simpl. rewrite <- Hr.
      apply safeParseJSON_fuel_indep; lia.
    + apply safeParseJSON_not_string.
    + apply safeParseJSON_origin.
    + intros r Hr. exact (origin_unique _ _ (safeParseJSON_origin input) r Hr).
    + intros v -> Hv. rewrite safeParseJSON_eq. now destruct v.
    + intros Ho. destruct (ToString_returns input Ho) as (text & Ht).
      exists text. split; [exact Ht|]. rewrite (safeParseJSON_eq input), Ht.
      destruct input as [|[|b|k e|s|l|l]]; try discriminate;
        (destruct (JSON_parse text) as [[| | |t| |]|] eqn:E; try reflexivity;
         split; [apply JSON_parse_str in E; lia|reflexivity]).
Qed.

(** *** What makes [calculateChartData] throw *)

Lemma get_field (k : string) (a : any) : truthy a = true -> get k a = Returns (field k a).
Proof. destruct a as [|[]]; try discriminate; reflexivity. Qed.

Lemma get_opt_field (k : string) (a : any) : get_opt k a = Returns (field k a).
Proof. destruct a as [|[]]; reflexivity. Qed.

Lemma get_item (k : string) (q : value) : q <> VNull -> get k (Val q) = Returns (field k (Val q)).
Proof. destruct q; try reflexivity. contradiction. Qed.

Lemma data_truthy (a : any) : truthy (or_else a (Val (VObj []))) = true.
Proof. unfold or_else. now destruct (truthy a) eqn:E. Qed.

Lemma truthy_or_else (a b : any) : truthy (or_else a b) = truthy a || truthy b.
Proof. unfold or_else. now destruct (truthy a) eqn:E. Qed.

Lemma entries_truthy (a : any) : truthy a = true -> exists es, entries a = Returns es.
Proof. destruct a as [|[]]; try discriminate; simpl; eauto. Qed.

Section ChartFacts.
Variable parseInt : string -> option Z -> option Z.

Lemma all_section_points_returns (data : any) (keys : list string) :
  truthy data = true -> exists ps, all_section_points data keys = Returns ps.
Proof.
  intros Hd. induction keys as [|k keys (rest & IH)]; simpl; [eauto|].
  unfold section_points. rewrite (get_field _ _ Hd). simpl.
  destruct (truthy (field k data)) eqn:E.
  - destruct (entries_truthy _ E) as (es & ->). simpl. rewrite IH. simpl. eauto.
  - simpl. rewrite IH. simpl. eauto.
Qed.

Lemma score_question_null (st : State) : score_question parseInt VNull st = TypeError.
Proof. now destruct st. Qed.

(** The loop fails on a question that is not [null] exactly when one of
    the values it converts has no text. *)
Lemma score_question_throws (q : value) (st : State) :
  q <> VNull ->
  score_question parseInt q st = TypeError
  <-> exists a, In a (converted q) /\ stringable a = false.
Proof.
  intros Hq. destruct st as [cs pc].
  unfold score_question, converted, tally, stringable.
  rewrite !(get_item _ _ Hq). cbn [bind]. rewrite get_opt_field. cbn [bind].
  set (c := field "category" (Val q)). set (ty := field "type" (Val q)).
  set (r := field "resposta" (Val q)). set (a := field "value" r).
  destruct (is_str "choice" ty && truthy r) eqn:E2.
  - apply andb_true_iff in E2 as [_ Hr].
    rewrite (get_field _ _ Hr). cbn [bind]. rewrite get_opt_field. cbn [bind].
    set (mv := field "value" (field "most" r)).
    destruct (truthy c && is_str "scale" ty && truthy a);
      destruct (truthy a); destruct (truthy mv);
      destruct (ToString c) eqn:Ec; destruct (ToString a) eqn:Ea;
      destruct (ToString mv) eqn:Em; cbn [bind app];
      (split;
       [ intros H; try discriminate H;
         first [ exists c; split; [simpl; tauto|now rewrite Ec]
               | exists a; split; [simpl; tauto|now rewrite Ea]
               | exists mv; split; [simpl; tauto|now rewrite Em] ]
       | intros (x & Hin & Hx); simpl in Hin;
         repeat match goal with
                | H : _ \/ _ |- _ => destruct H as [<-|H]
                | H : False |- _ => destruct H
                end;
         rewrite ?Ec, ?Ea, ?Em in Hx; try discriminate Hx; reflexivity ]).
  - destruct (truthy c && is_str "scale" ty && truthy a);
      destruct (ToString c) eqn:Ec; destruct (ToString a) eqn:Ea; cbn [bind app];
      (split;
       [ intros H; try discriminate H;
         first [ exists c; split; [simpl; tauto|now rewrite Ec]
               | exists a; split; [simpl; tauto|now rewrite Ea] ]
       | intros (x & Hin & Hx); simpl in Hin;
         repeat match goal with
                | H : _ \/ _ |- _ => destruct H as [<-|H]
                | H : False |- _ => destruct H
                end;
         rewrite ?Ec, ?Ea in Hx; try discriminate Hx; reflexivity ]).
Qed.

Lemma forEach_throws (l : list value) : forall st,
  forEach parseInt l st = TypeError <-> exists q, In q l /\ unreadable q.
Proof.
  induction l as [|q l IH]; intros st; cbn [forEach].
  - split; [discriminate|]. intros (q & [] & _).
  - assert (Hq : q = VNull \/ q <> VNull) by (destruct q; auto; right; discriminate).
    destruct Hq as [->|Hq].
    + rewrite score_question_null. cbn [bind]. split; [|reflexivity].
      intros _. exists VNull. split; [now left|now left].
    + pose proof (score_question_throws q st Hq) as Hs.
      destruct (score_question parseInt q st) as [st'|]; cbn [bind].
      * rewrite IH. split.
        -- intros (q' & Hin & Hu). exists q'. split; [now right|exact Hu].
        -- intros (q' & [<-|Hin] & Hu); [|eauto].
           destruct Hu as [->|Hu]; [contradiction|]. apply Hs in Hu. discriminate.
      * split; [|reflexivity]. intros _. exists q. split; [now left|].
        right. now apply Hs.
Qed.
End ChartFacts.

Section ChartTheorems.
Variable parseInt : string -> option Z -> option Z.

(** [calculateChartData] throws exactly on a result that is not analysed
    data and whose question list is not an array, or has among its
    elements [null] or a question of which the loop converts a value
    that has no text; on analysed data it never throws. *)
Theorem calculateChartData_throws (row : ResultRow) :
  calculateChartData parseInt row = TypeError
  <-> analysed (or_else (result row) (Val (VObj []))) = false
      /\ match questions_of (or_else (result row) (Val (VObj []))) with
         | Val (VArr l) => exists q, In q l /\ unreadable q
         | _ => True
         end.
Proof.
  unfold calculateChartData, analysed, questions_of.
  pose proof (data_truthy (result row)) as Hd.
  generalize dependent (or_else (result row) (Val (VObj []))). intros data Hd.
  rewrite !(get_field _ _ Hd). cbn [bind]. rewrite get_opt_field. cbn [bind].
  rewrite truthy_or_else.
  destruct (truthy (field "caracteirsta-de-personalidade-lideranca" data)
            || truthy (field "metadados_calculo" data)) eqn:Ha.
  - destruct (all_section_points_returns data sections Hd) as (ps & ->). cbn [bind].
    split; [|intros [[=] _]].
    destruct (truthy (field "metadados_calculo" data)) eqn:Hm; [|discriminate].
    rewrite (get_field _ _ Hm). cbn [bind].
    destruct (truthy (field "escala_0_100" (field "metadados_calculo" data))) eqn:He;
      [|discriminate].
    destruct (entries_truthy _ He) as (es & ->). discriminate.
  - match goal with |- context [or_else ?a (Val (VArr []))] =>
      destruct (or_else a (Val (VArr []))) as [|[| | | |l|]] end;
      try (split; [auto|reflexivity]).
    pose proof (forEach_throws parseInt l ([], [])) as Hf.
    destruct (forEach parseInt l ([], [])) as [st|]; cbn [bind].
    + split; [discriminate|]. intros [_ H]. apply Hf in H. discriminate.
    + split; [intros _; split; [reflexivity|now apply Hf]|reflexivity].
Qed.
End ChartTheorems.

(** *** Own properties *)

Lemma assoc_None {A} (k : string) (l : list (string * A)) :
  assoc k l = None -> k ∉ map fst l.
Proof.
  induction l as [|[k' a] l IH]; simpl; [intros _; apply not_elem_of_nil|].
  destruct (String.eqb_spec k k') as [->|Hne]; [discriminate|].
  intros H. apply not_elem_of_cons. auto.
Qed.

Lemma assoc_Some {A} (k : string) (a : A) (l : list (string * A)) :
  assoc k l = Some a -> (k, a) ∈ l.
Proof.
  induction l as [|[k' a'] l IH]; simpl; [discriminate|].
  destruct (String.eqb_spec k k') as [->|Hne]; [intros [= ->]; now left|].
  intros H. right. auto.
Qed.

Lemma store_keys {A} (k : string) (a : A) (l : list (string * A)) :
  map fst (store k a l) = map fst l.
Proof.
  induction l as [|[k' a'] l IH]; simpl; [reflexivity|].
  destruct (String.eqb k k'); simpl; congruence.
Qed.

Lemma store_Forall {A} (P : string * A -> Prop) (k : string) (a : A) (l : list (string * A)) :
  P (k, a) -> Forall P l -> Forall P (store k a l).
Proof.
  intros Hk. induction 1 as [|[k' a'] l Hx H IH]; simpl; [constructor|].
  destruct (String.eqb_spec k k') as [->|Hne]; constructor; auto.
Qed.

Lemma create_keys {A} (k : string) (a : A) (l : list (string * A)) (k' : string) :
  k' ∈ map fst (create k a l) <-> k' = k \/ k' ∈ map fst l.
Proof.
  induction l as [|[k0 a0] l IH]; simpl.
  - rewrite list_elem_of_singleton, elem_of_nil. tauto.
  - destruct (precedes k k0); simpl; rewrite !elem_of_cons; [tauto|].
    rewrite IH. tauto.
Qed.

Lemma create_NoDup {A} (k : string) (a : A) (l : list (string * A)) :
  k ∉ map fst l -> NoDup (map fst l) -> NoDup (map fst (create k a l)).
Proof.
  induction l as [|[k0 a0] l IH]; simpl; intros Hk H.
  - apply NoDup_singleton.
  - apply not_elem_of_cons in Hk as [Hne Hk]. apply NoDup_cons in H as [Hin H].
    destruct (precedes k k0); simpl.
    + apply NoDup_cons. split; [|apply NoDup_cons; auto].
      apply not_elem_of_cons. auto.
    + apply NoDup_cons. split; [|auto].
      rewrite create_keys. intros [->|Hk0]; [congruence|contradiction].
Qed.

Lemma create_Forall {A} (P : string * A -> Prop) (k : string) (a : A) (l : list (string * A)) :
  P (k, a) -> Forall P l -> Forall P (create k a l).
Proof.
  intros Hk. induction 1 as [|[k' a'] l Hx H IH]; simpl; [repeat constructor; exact Hk|].
  destruct (precedes k k'); repeat constructor; auto.
Qed.

(** *** What the raw-answers chart holds *)

Lemma accumulate_tidy (cat : string) (n : option Z) (scores : list (string * (option Z * Z))) :
  NoDup (map fst scores)
  /\ Forall (fun cs => (1 <= snd (snd cs))%Z /\ inherited (fst cs) = false) scores ->
  NoDup (map fst (accumulate cat n scores))
  /\ Forall (fun cs => (1 <= snd (snd cs))%Z /\ inherited (fst cs) = false)
            (accumulate cat n scores).
Proof.
  intros [H1 H2]. unfold accumulate.
  destruct (assoc cat scores) as [[total count]|] eqn:E.
  - rewrite store_keys. split; [exact H1|]. apply store_Forall; [|exact H2].
    apply assoc_Some in E. rewrite Forall_forall in H2.
    destruct (H2 _ E) as [Hc Hi]. simpl in *. split; [lia|exact Hi].
  - destruct (inherited cat) eqn:Hi; [auto|]. split.
    + apply create_NoDup; [now apply assoc_None|exact H1].
    + apply create_Forall; [|exact H2]. simpl. split; [lia|exact Hi].
Qed.

Lemma increment_tidy (tag : string) (counts : list (string * Count)) :
  NoDup (map fst counts)
  /\ Forall (fun tn => match snd tn with
                       | Times n => (1 <= n)%Z
                       | Appended k => 1 <= k /\ inherited (fst tn) = true
                       end) counts ->
  NoDup (map fst (increment tag counts))
  /\ Forall (fun tn => match snd tn with
                       | Times n => (1 <= n)%Z
                       | Appended k => 1 <= k /\ inherited (fst tn) = true
                       end) (increment tag counts).
Proof.
  intros [H1 H2]. unfold increment.
  destruct (assoc tag counts) as [[n|k]|] eqn:E.
  - rewrite store_keys. split; [exact H1|]. apply store_Forall; [|exact H2].
    apply assoc_Some in E. rewrite Forall_forall in H2. specialize (H2 _ E).
    simpl in *. lia.
  - rewrite store_keys. split; [exact H1|]. apply store_Forall; [|exact H2].
    apply assoc_Some in E. rewrite Forall_forall in H2. specialize (H2 _ E).
    simpl in *. split; [lia|tauto].
  - destruct (String.eqb tag "__proto__"); [auto|].
    destruct (inherited tag) eqn:Hi;
      (split; [apply create_NoDup; [now apply assoc_None|exact H1]
              |apply create_Forall; [|exact H2]]); simpl; auto; lia.
Qed.

Section RawFacts.
Variable parseInt : string -> option Z -> option Z.

Lemma tally_tidy (v : any) (counts counts' : list (string * Count)) :
  tally parseInt v counts = Returns counts' ->
  NoDup (map fst counts)
  /\ Forall (fun tn => match snd tn with
                       | Times n => (1 <= n)%Z
                       | Appended k => 1 <= k /\ inherited (fst tn) = true
                       end) counts ->
  NoDup (map fst counts')
  /\ Forall (fun tn => match snd tn with
                       | Times n => (1 <= n)%Z
                       | Appended k => 1 <= k /\ inherited (fst tn) = true
                       end) counts'.
Proof.
  unfold tally. destruct (truthy v); [|now intros [= <-]].
  destruct (ToString v) as [text|]; [|discriminate]. cbn [bind].
  destruct (isNaN _); intros [= <-]; [apply increment_tidy|auto].
Qed.

Lemma score_question_tidy (q : value) (st st' : State) :
  score_question parseInt q st = Returns st' -> tidy st -> tidy st'.
Proof.
  destruct st as [cs pc]. intros H (H1 & H2 & H3 & H4).
  assert (Hq : q <> VNull) by (intros ->; discriminate).
  unfold score_question in H.
  rewrite !(get_item _ _ Hq) in H. cbn [bind] in H. rewrite get_opt_field in H.
  cbn [bind] in H.
  match type of H with
  | bind ?x _ = _ => destruct x as [cs'|] eqn:Ecs; [|discriminate]
  end.
  cbn [bind] in H.
  assert (Hcs : NoDup (map fst cs')
                /\ Forall (fun cs => (1 <= snd (snd cs))%Z /\ inherited (fst cs) = false) cs').
  { destruct (_ && _) in Ecs; [|injection Ecs as <-; auto].
    destruct (ToString _) in Ecs; [|discriminate]. cbn [bind] in Ecs.
    destruct (ToString _) in Ecs; [|discriminate]. cbn [bind] in Ecs.
    injection Ecs as <-. now apply accumulate_tidy. }
  destruct Hcs as [Hc1 Hc2].
  destruct (is_str "choice" _ && truthy _) eqn:E2 in H.
  - apply andb_true_iff in E2 as [_ Hr].
    destruct (tally parseInt _ pc) as [pc1|] eqn:E1 in H; [|discriminate].
    cbn [bind] in H. rewrite (get_field _ _ Hr) in H. cbn [bind] in H.
    rewrite get_opt_field in H. cbn [bind] in H.
    destruct (tally parseInt _ pc1) as [pc2|] eqn:E3 in H; [|discriminate].
    cbn [bind] in H. injection H as <-.
    apply tally_tidy in E1; [|auto]. apply tally_tidy in E3; [|exact E1].
    destruct E3. now repeat split.
  - injection H as <-. now repeat split.
Qed.

Lemma forEach_tidy (l : list value) : forall st st',
  forEach parseInt l st = Returns st' -> tidy st -> tidy st'.
Proof.
  induction l as [|q l IH]; intros st st' H Hst; cbn [forEach] in H.
  - now injection H as <-.
  - destruct (score_question parseInt q st) as [st1|] eqn:E; [|discriminate].
    cbn [bind] in H. eauto using score_question_tidy.
Qed.

(** In the chart of raw answers no category and no tag is listed twice.
    Every point of the radar has the short label of its category, which
    is no name that objects inherit, and divides by a count of at least
    one.  Every bar counts at least one answer, or, for a tag that
    objects inherit, holds the text of the inherited function with a
    digit for each answer. *)
Theorem raw_chart_tidy (row : ResultRow) (chart : ChartData) :
  calculateChartData parseInt row = Returns chart ->
  isAiData chart = false ->
  NoDup (map fullSubject (radarData chart))
  /\ Forall (fun p => exists category total count,
                 p = RawPoint (shorten category) category total count 5
                 /\ (1 <= count)%Z /\ inherited category = false) (radarData chart)
  /\ NoDup (map barName (barData chart))
  /\ Forall (fun b => (exists n, barValue b = Number n 0 /\ (1 <= n)%Z)
                      \/ (exists k, barValue b = NativeText (barName b) k
                                    /\ 1 <= k /\ inherited (barName b) = true))
            (barData chart).
Proof.
  unfold calculateChartData.
  pose proof (data_truthy (result row)) as Hd.
  generalize dependent (or_else (result row) (Val (VObj []))). intros data Hd.
  rewrite !(get_field _ _ Hd). cbn [bind]. rewrite get_opt_field. cbn [bind].
  clear Hd. destruct (truthy (or_else _ _)).
  { destruct (all_section_points data sections); [|discriminate]. cbn [bind].
    match goal with |- context [bind ?x] => destruct x end; [|discriminate].
    cbn [bind]. intros [= <-]. discriminate. }
  match goal with |- context [or_else ?a (Val (VArr []))] =>
    destruct (or_else a (Val (VArr []))) as [|[| | | |l|]] end; try discriminate.
  destruct (forEach parseInt l ([], [])) as [[cs pc]|] eqn:E; [|discriminate].
  cbn [bind fst snd]. intros [= <-] _. cbn [radarData barData].
  apply forEach_tidy in E as (H1 & H2 & H3 & H4);
    [|repeat split; cbn; auto using NoDup_nil_2].
  cbn [fst snd] in *. rewrite !map_map. cbn [fullSubject barName bar].
  split; [exact H1|]. split; [|split; [exact H3|]].
  - apply Forall_map. eapply Forall_impl; [exact H2|].
    intros [c [t n]] [Hn Hi]. cbn in *. eauto 6.
  - apply Forall_map. eapply Forall_impl; [exact H4|].
    intros [t [n|k]] Hn; cbn in *; eauto 6.
Qed.
End RawFacts.

Lemma raw_chart_tidy_witness :
  NoDup (map fullSubject [RawPoint "Foco" "Foco" (Some 9%Z) 2 5]).
Proof.
  exact (proj1 (raw_chart_tidy parseInt_digits
    (processRow (row_of (sq
       "{'body': [{'category': 'Foco', 'type': 'scale', 'resposta': {'value': '4'}},
                  {'category': 'Foco', 'type': 'scale', 'resposta': {'value': '5'}},
                  {'type': 'choice', 'resposta': {'text': 'B', 'value': 'Lider'}}]}")))
    {| radarData := [RawPoint "Foco" "Foco" (Some 9%Z) 2 5];
       barData := [{| barName := "Lider"; barValue := Number 1 0 |}];
       isAiData := false |} eq_refl eq_refl)).
Defined.

(** Applied to its own result, [safeParseJSON] returns that result
    again, with one exception: a number too large for a double, which is
    read as an infinity, has the text [Infinity], which is no JSON, and
    becomes the empty object.  So processing a fetched row a second time
    changes nothing unless its result is such a number. *)
Theorem processRow_idempotent (row : ResultRow) :
  (forall input,
     safeParseJSON (Val (safeParseJSON input))
     = match safeParseJSON input with
       | VNum m e => if is_infinite m e then VObj [] else VNum m e
       | r => r
       end)
  /\ ((forall m e, safeParseJSON (result row) = VNum m e -> is_infinite m e = false) ->
      processRow (processRow row) = processRow row).
Proof.
  assert (H : forall input,
     safeParseJSON (Val (safeParseJSON input))
     = match safeParseJSON input with
       | VNum m e => if is_infinite m e then VObj [] else VNum m e
       | r => r
       end).
  { intros input. pose proof (safeParseJSON_not_string input) as Hs.
    destruct (safeParseJSON input) as [|[]|m e|s|l|l]; try discriminate;
      rewrite safeParseJSON_eq; try reflexivity.
    cbn [ToString to_string]. unfold number_text.
    destruct (is_infinite m e).
    - now destruct (m <? 0)%Z.
    - change (print_num m e) with (stringify (VNum m e)).
      now rewrite JSON_parse_stringify. }
  split; [exact H|]. intros Hfin. unfold processRow.
  cbn [id created_at test_id candidate_id result]. f_equal. f_equal.
  rewrite H.
  destruct (safeParseJSON (result row)) as [|b|m e|s|l|l]; try reflexivity.
  now rewrite (Hfin m e eq_refl).
Qed.

Lemma processRow_idempotent_witness :
  processRow (processRow (row_of "12.5e2")) = processRow (row_of "12.5e2")
  /\ safeParseJSON (Val (safeParseJSON (Val (VStr "1e400")))) = VObj [].
Proof.
  split.
  - apply (processRow_idempotent (row_of "12.5e2")). intros m e [= <- <-]. reflexivity.
  - exact (proj1 (processRow_idempotent (row_of "")) (Val (VStr "1e400"))).
Defined.

(** *** Worked examples *)

Example parse_object :
  JSON_parse (sq "{'a': [1, -2.50e3, true, null], 'b': {'c': 'x\ty\u00e9'}}")
  = Some (VObj [ ("a", VArr [VNum 1 0; VNum (-250) 1; VBool true; VNull]);
                 ("b", VObj [("c", VStr (String "x" (String "009" (String "y"
                                     (String "195" (String "169" ""))))))]) ]).
Proof. reflexivity. Qed.

Example parse_repeated_name :
  JSON_parse (sq "{'a': 1, 'b': 2, 'a': 3}") = Some (VObj [("a", VNum 3 0); ("b", VNum 2 0)]).
Proof. reflexivity. Qed.

Example parse_rejects :
  map JSON_parse [ "[01]"; "[1,]"; "{a: 1}"; "tru"; "1."; "[1] x"; ""; sq "'abc" ]
  = [None; None; None; None; None; None; None; None].
Proof. reflexivity. Qed.

Example stringify_object :
  stringify (VObj [("a", VArr [VNum 1 0; VNum (-25) (-1)]); ("b", VStr (sq "say 'hi'"))])
  = sq "{'a':[1,-25e-1],'b':'say \'hi\''}".
Proof. reflexivity. Qed.

Example safeParseJSON_double_encoded :
  safeParseJSON (Val (VStr (sq "'{\'test_title\':\'T1\'}'")))
  = VObj [("test_title", VStr "T1")].
Proof. reflexivity. Qed.

Example safeParseJSON_string_of_garbage :
  safeParseJSON (Val (VStr (sq "'not json'"))) = VObj [].
Proof. reflexivity. Qed.

Example safeParseJSON_primitives :
  map safeParseJSON [Undefined; Val VNull; Val (VBool true); Val (VNum 42 0); Val (VStr "7")]
  = [VObj []; VNull; VBool true; VNum 42 0; VNum 7 0].
Proof. reflexivity. Qed.

Example numbers_as_doubles :
  map truthy [Val (VNum 5 (-324)); Val (VNum 2 (-324)); Val (VNum 0 3)] = [true; false; false]
  /\ map ToString [Val (VNum 17976931348623157 292); Val (VNum 1 400); Val (VNum (-1) 400)]
     = [Returns "17976931348623157e292"; Returns "Infinity"; Returns "-Infinity"].
Proof. split; reflexivity. Qed.

Example shorten_counts_code_units :
  map shorten ["Organização e Ação"; "Organização e Comunicação"; "Planejamento e Controle"]
  = ["Organização e Ação"; "Organização e Comuni..."; "Planejamento e Contr..."].
Proof. reflexivity. Qed.

Example chart_of_raw_answers :
  calculateChartData parseInt_digits
    (processRow (row_of (sq
       "{'body': [{'category': 'Foco', 'type': 'scale', 'resposta': {'value': '4'}},
                  {'category': 'Foco', 'type': 'scale', 'resposta': {'value': '5'}},
                  {'type': 'choice', 'resposta': {'text': 'B', 'value': 'Lider'}},
                  {'type': 'choice', 'resposta': {'most': {'text': 'A', 'value': 'Lider'},
                                                  'least': {'text': 'C', 'value': '3'}}}]}")))
  = Returns {| radarData := [RawPoint "Foco" "Foco" (Some 9%Z) 2 5];
               barData := [{| barName := "Lider"; barValue := Number 2 0 |}];
               isAiData := false |}.
Proof. reflexivity. Qed.

Example chart_lists_indices_first :
  calculateChartData parseInt_digits
    (processRow (row_of (sq
       "{'body': [{'category': 'b', 'type': 'scale', 'resposta': {'value': '1'}},
                  {'category': '2', 'type': 'scale', 'resposta': {'value': '2'}},
                  {'category': '1', 'type': 'scale', 'resposta': {'value': '3'}},
                  {'category': 'constructor', 'type': 'scale', 'resposta': {'value': '4'}},
                  {'type': 'choice', 'resposta': {'value': 'toString'}},
                  {'type': 'choice', 'resposta': {'value': '__proto__'}}]}")))
  = Returns {| radarData := [RawPoint "1" "1" (Some 3%Z) 1 5; RawPoint "2" "2" (Some 2%Z) 1 5;
                             RawPoint "b" "b" (Some 1%Z) 1 5];
               barData := [{| barName := "toString"; barValue := NativeText "toString" 1 |}];
               isAiData := false |}.
Proof. reflexivity. Qed.

Example chart_of_analysis :
  calculateChartData parseInt_digits
    (processRow (row_of (sq
       "{'caracteirsta-de-personalidade-lideranca': {'tomada_de_decisao': 80, 'nota': 'alta'},
         'metadados_calculo': {'escala_0_100': {'Lider': 72}}}")))
  = Returns {| radarData := [AiPoint "tomada de decisao" (80%Z, 0%Z) 100;
                             AiPoint "nota" (0%Z, 0%Z) 100];
               barData := [{| barName := "Lider"; barValue := Number 72 0 |}];
               isAiData := true |}.
Proof. reflexivity. Qed.

Example chart_throws :
  map (fun text => calculateChartData parseInt_digits (processRow (row_of (sq text))))
    [ "{'body': 'oops'}"; "{'body': [null]}";
      "{'body': [{'category': {'toString': 1}, 'type': 'scale', 'resposta': {'value': '4'}}]}" ]
  = [TypeError; TypeError; TypeError].
Proof. reflexivity. Qed.

End ResultsFacts.

(** ** The list of results *)

Module ViewerFacts.
Import Json Results ResultsFacts Viewer.

Lemma processed_ready (r : Listed) : ready (processed r).
Proof. eexists. split; [reflexivity|]. apply safeParseJSON_not_string. Qed.

Lemma mapped_ready (r : ResultRow) : ready (mapped r).
Proof. eexists. split; [reflexivity|]. apply safeParseJSON_not_string. Qed.

(** After [fetchResults] the spinner is off; rows that were ready for the
    charts stay so, and when no error is shown the list holds one row per
    fetched row, in the order of the reply and with the same ids, each
    with a [result] that is no string. *)
Theorem fetchResults_ready (first : Reply Listed) (second : Reply ResultRow) (st : State) :
  let st' := fetchResults first second st in
  loading st' = false
  /\ (Forall ready (results st) -> Forall ready (results st'))
  /\ (fetchError st' = "" ->
      Forall ready (results st')
      /\ map (fun r => id (row r)) (results st')
         = match first with
           | Rows data => map (fun r => id (row r)) data
           | Error _ _ =>
             match second with
             | Rows rawData => map id rawData
             | Error _ _ => []
             end
           end).
Proof.
  assert (Hp : forall data, Forall ready (map processed data)).
  { intros data. apply Forall_map, Forall_forall. intros r _. apply processed_ready. }
  assert (Hm : forall data, Forall ready (map mapped data)).
  { intros data. apply Forall_map, Forall_forall. intros r _. apply mapped_ready. }
  assert (Hf : forall message st0, fetchError (failed message st0) <> "").
  { intros message st0. unfold failed. cbn.
    destruct (String.eqb_spec message ""); [discriminate|assumption]. }
  unfold fetchResults.
  destruct first as [data|code message].
  - cbn. repeat split; auto. now rewrite map_map.
  - destruct (_ || _).
    + destruct second as [rawData|code' rawMessage].
      * cbn. repeat split; auto. now rewrite map_map.
      * split; [reflexivity|]. split; [auto|]. intros H. now apply Hf in H.
    + split; [reflexivity|]. split; [auto|]. intros H. now apply Hf in H.
Qed.

(** [fetchResults] shows an error exactly when the first query failed
    and either the error is not about the relationships or the second
    query failed too; the list is then left as it was, and the error
    shown is the message of the failure, or a fixed text when that is
    empty.  Any other run clears the error. *)
Theorem fetchResults_error (first : Reply Listed) (second : Reply ResultRow) (st : State) :
  let st' := fetchResults first second st in
  (fetchError st' <> ""
   <-> exists code message,
         first = Error code message
         /\ (code <> "PGRST200" /\ Roster.includes "relationship" message = false
             \/ exists code' message', second = Error code' message'))
  /\ (fetchError st' <> "" ->
      results st' = results st
      /\ exists code message,
           (first = Error code message \/ second = Error code message)
           /\ fetchError st' = if String.eqb message ""
                               then "Erro desconhecido ao carregar resultados."
                               else message).
Proof.
  assert (Hf : forall message st0, fetchError (failed message st0) <> "").
  { intros message st0. unfold failed. cbn.
    destruct (String.eqb_spec message ""); [discriminate|assumption]. }
  unfold fetchResults.
  destruct first as [data|code message].
  { cbn. split; [split; [congruence|intros (? & ? & [=] & _)]|congruence]. }
  destruct (String.eqb_spec code "PGRST200") as [Hc|Hc]; cbn [orb].
  - destruct second as [rawData|code' rawMessage].
    + cbn. split; [split; [congruence|]|congruence].
      intros (? & ? & [= <- <-] & [[? _]|(? & ? & [=])]). contradiction.
    + split; [split; [eauto 10|intros _; apply Hf]|]. intros _. split; [reflexivity|eauto].
  - destruct (Roster.includes "relationship" message) eqn:Hi.
    + destruct second as [rawData|code' rawMessage].
      * cbn. split; [split; [congruence|]|congruence].
        intros (? & ? & [= <- <-] & [[_ ?]|(? & ? & [=])]). congruence.
      * split; [split; [eauto 10|intros _; apply Hf]|]. intros _. split; [reflexivity|eauto].
    + split; [split; [eauto 10|intros _; apply Hf]|]. intros _. split; [reflexivity|eauto].
Qed.

End ViewerFacts.

(** ** From the questionnaire to the charts *)

Module WireFacts.
Import Json JsonFacts Results ResultsFacts Wire.

Lemma wf_options (l : list Candidate.QuestionOption) :
  forallb wf (map option_json l) = true.
Proof. induction l as [|o l IH]; [reflexivity|]. simpl. exact IH. Qed.

Lemma wf_answer_json (a : Candidate.Answer) : wf (answer_json a) = true.
Proof. destruct a as [t v|[o|] [o'|]]; reflexivity. Qed.

Lemma wf_entry_json (e : Candidate.Entry) : wf (entry_json e) = true.
Proof.
  destruct e as [i t [c|] ty [l|] [v|] [a|]]; unfold entry_json;
    cbn [Candidate.e_id Candidate.e_text Candidate.e_category Candidate.e_type
         Candidate.e_options Candidate.e_variation Candidate.resposta
         option_map present app];
    cbn [wf forallb map fst snd];
    rewrite ?wf_options, ?wf_answer_json; try destruct v; try destruct ty; reflexivity.
Qed.

Lemma wf_payload_json (p : Candidate.Payload) : wf (payload_json p) = true.
Proof.
  unfold payload_json. cbn [wf forallb map fst snd].
  assert (H : forallb wf (map entry_json (Candidate.body p)) = true).
  { induction (Candidate.body p) as [|e l IH]; [reflexivity|].
    cbn [map forallb]. now rewrite wf_entry_json. }
  rewrite H. reflexivity.
Qed.

Section ReadingFacts.
Variable parseInt : string -> option Z -> option Z.

(** What the loop of the viewer makes of an entry of the payload. *)
Lemma score_question_entry (e : Candidate.Entry) scores counts :
  score_question parseInt (entry_json e) (scores, counts)
  = Returns (entry_score parseInt e scores, entry_tags parseInt e counts).
Proof.
  destruct e as [i t [c|] ty [l|] [v|] [[tx vl|[m|] [l'|]]|]];
    destruct ty; try destruct v;
    unfold score_question, entry_score, entry_tags, tag, tally; cbn;
    repeat match goal with
           | |- context [String.eqb ?x ""] => destruct (String.eqb x "")
           end; cbn;
    repeat match goal with
           | |- context [isNaN ?x] => destruct (isNaN x)
           end; reflexivity.
Qed.

Lemma forEach_entries (es : list Candidate.Entry) : forall scores counts,
  forEach parseInt (map entry_json es) (scores, counts)
  = Returns (fold_left (fun acc e => entry_score parseInt e acc) es scores,
             fold_left (fun acc e => entry_tags parseInt e acc) es counts).
Proof.
  induction es as [|e es IH]; intros scores counts; [reflexivity|].
  cbn [map forEach fold_left]. rewrite score_question_entry. cbn [bind]. apply IH.
Qed.

Lemma chart_of_payload (row : ResultRow) (p : Candidate.Payload) :
  result row = Val (payload_json p) ->
  calculateChartData parseInt row = Returns (chart_of parseInt p).
Proof.
  intros Hrow. unfold calculateChartData. rewrite Hrow.
  change (or_else (Val (payload_json p)) (Val (VObj []))) with (Val (payload_json p)).
  rewrite !(get_field _ (Val (payload_json p)) eq_refl).
  change (field "caracteirsta-de-personalidade-lideranca" (Val (payload_json p)))
    with Undefined.
  change (field "metadados_calculo" (Val (payload_json p))) with Undefined.
  change (field "body" (Val (payload_json p)))
    with (Val (VArr (map entry_json (Candidate.body p)))).
  change (field "questions" (Val (payload_json p))) with Undefined.
  change (field "payload" (Val (payload_json p))) with Undefined.
  cbn [bind or_else truthy get_opt].
  rewrite forEach_entries. reflexivity.
Qed.

(** The charts of a posted payload.  When the [result] of a row is the
    payload that [submitTest] posts, as an object or as its JSON text
    encoded as a string any number of times, the viewer computes
    without failing the chart of its answers: for each category the sum
    and the number of the answers to its scale questions, and for each
    tag the number of choice questions answered with it. *)
Theorem posted_payload_chart (row : ResultRow) (p : Candidate.Payload) (n : nat) :
  result row = Val (payload_json p)
  \/ result row = Val (VStr (encode n (payload_json p))) ->
  result (processRow row) = Val (payload_json p)
  /\ calculateChartData parseInt (processRow row) = Returns (chart_of parseInt p).
Proof.
  intros H.
  assert (Hr : result (processRow row) = Val (payload_json p)).
  { unfold processRow. cbn [result]. f_equal. destruct H as [-> | ->].
    - now rewrite safeParseJSON_eq.
    - apply safeParseJSON_encode; [apply wf_payload_json|reflexivity]. }
  split; [exact Hr|]. now apply chart_of_payload.
Qed.
End ReadingFacts.

Lemma posted_payload_chart_witness :
  calculateChartData parseInt_digits
    (processRow (row_of (encode 1 (payload_json payload_T1))))
  = Returns {| radarData := [RawPoint "Liderança" "Liderança" (Some 4%Z) 1 5];
               barData := [{| barName := "Líder"; barValue := Number 1 0 |}];
               isAiData := false |}.
Proof.
  exact (proj2 (posted_payload_chart parseInt_digits
                  (row_of (encode 1 (payload_json payload_T1))) payload_T1 1
                  (or_intror eq_refl))).
Defined.

End WireFacts.

(** ** The candidate flow *)

Module CandidateFacts.
Import Backend Candidate.

(** *** Claims about the candidate flow *)

Lemma entry_satisfied answers q :
  satisfied q (answers !! q_id q) -> entry answers q = Some (described_entry answers q).
Proof.
  unfold satisfied, entry, described_entry.
  destruct (q_type q); [reflexivity|].
  destruct (q_variation q) as [[]|]; try reflexivity.
  intros (m & l & -> & _). reflexivity.
Qed.

Lemma mapM_entry_complete answers (qs : list Question) :
  (forall q, q ∈ qs -> satisfied q (answers !! q_id q)) ->
  mapM (entry answers) qs = Some (map (described_entry answers) qs).
Proof.
  induction qs as [|q qs IH]; intros H; [reflexivity|].
  simpl. rewrite entry_satisfied by (apply H; left). simpl.
  rewrite IH by (intros q' Hq'; apply H; now right). reflexivity.
Qed.

(** C5.  For every profile whose status is [completed] or [in-progress],
    [loadSession] sets [alreadyTaken] and the component shows the
    "already taken" screen, never the questions, whatever test is assigned
    to the profile and whatever the [tests] table would reply: the only
    request sent is the one for the profile, no test is stored and no
    error is set. *)
Theorem loadSession_already_taken
    (asQuestions : Json.value -> list Question) (syntaxErrorMessage candidateId : string)
    (env : Replies) (st : State) (profile : Profile) :
  profileReply env = Data profile ->
  status profile = "completed" \/ status profile = "in-progress" ->
  let '(st', sent) := loadSession asQuestions syntaxErrorMessage candidateId env st in
  alreadyTaken st' = true
  /\ render st' = AlreadyTakenScreen
  /\ sent = [SelectProfile candidateId]
  /\ test st' = test st
  /\ error st' = error st.
Proof.
  intros Hp Hs. unfold loadSession. rewrite Hp.
  destruct Hs as [-> | ->]; simpl; repeat split.
Qed.

Lemma loadSession_already_taken_witness :
  render
    (loadSession (fun _ => []) "SyntaxError" "c1"
       {| profileReply := Data taken_profile; testReply := Failed "unreachable" |}
       initial).1
  = AlreadyTakenScreen.
Proof.
  pose proof (loadSession_already_taken (fun _ => []) "SyntaxError" "c1"
                {| profileReply := Data taken_profile; testReply := Failed "unreachable" |}
                initial taken_profile eq_refl (or_intror eq_refl)) as H.
  destruct (loadSession _ _ _ _ _) as [st' sent]. exact (proj1 (proj2 H)).
Defined.

(** Decides one case of [canProceed_value]. *)
Ltac decide_answer :=
  eexists; split; [reflexivity|];
  split;
  [ first [discriminate | intros _; eauto 8]
  | first [ intros _; reflexivity
          | intros H;
            repeat match goal with
                   | H : ex _ |- _ => destruct H
                   | H : _ /\ _ |- _ => destruct H
                   end;
            congruence ] ].

(** The value of [canProceed] on a question that is there. *)
Lemma canProceed_value (st : State) (t : Test) (q : Question) :
  test st = Some t ->
  t_questions t !! currentStep st = Some q ->
  exists b, canProceed st = Some b /\ (b = true <-> satisfied q (answers st !! q_id q)).
Proof.
  intros Ht Hq. unfold canProceed, satisfied. rewrite Ht, Hq.
  destruct (q_type q).
  { destruct (answers st !! q_id q) as [ans|].
    all: decide_answer. }
  destruct (q_variation q) as [[]|];
    destruct (answers st !! q_id q) as [[tx v|[m|] [l|]]|]; cbn [ans_text ans_most ans_least];
    try decide_answer.
  - destruct (String.eqb_spec tx "") as [->|Hne]; decide_answer.
  - destruct (String.eqb_spec (text m) (text l)) as [He|Hne]; decide_answer.
  - destruct (String.eqb_spec tx "") as [->|Hne]; decide_answer.
Qed.

(** C6.  For the current question [q], [canProceed] returns true exactly
    when the recorded answer satisfies the requirement of the question's
    type, and false otherwise; and unless it returns true a click on the
    button changes nothing and sends nothing, so that the submission
    cannot start. *)
Theorem canProceed_satisfied (st : State) (t : Test) (q : Question) :
  test st = Some t ->
  t_questions t !! currentStep st = Some q ->
  (canProceed st = Some true <-> satisfied q (answers st !! q_id q))
  /\ (~ satisfied q (answers st !! q_id q) -> canProceed st = Some false)
  /\ forall candidateId typeErrorMessage w db,
       canProceed st <> Some true ->
       clickNext candidateId typeErrorMessage w st db = (st, db, []).
Proof.
  intros Ht Hq.
  destruct (canProceed_value st t q Ht Hq) as (b & Hb & Hiff).
  rewrite Hb. split; [|split].
  - rewrite <- Hiff. split; [now intros [= ->] | now intros ->].
  - intros Hn. destruct b; [|reflexivity]. exfalso. now apply Hn, Hiff.
  - intros cid msg w db Hn. unfold clickNext. rewrite Hb.
    destruct (render st); try reflexivity.
    destruct b; [congruence | reflexivity].
Qed.

Lemma canProceed_satisfied_witness :
  canProceed answering_most_least = Some false
  /\ forall w db, clickNext "c1" "TypeError" w answering_most_least db
                  = (answering_most_least, db, []).
Proof.
  destruct (canProceed_satisfied answering_most_least _ _ eq_refl eq_refl)
    as (_ & _ & H).
  split; [reflexivity|]. intros w db. apply H. discriminate.
Defined.

(** C7.  After [handleMostLeast], whatever the answers were before, the
    "most" and "least" of the question do not name the same option:
    choosing as "most" the option that is the current "least" clears the
    "least", choosing as "least" the current "most" clears the "most", and
    the answers to the other questions are as they were. *)
Theorem handleMostLeast_distinct
    (questionId : string) (type : Side) (option : QuestionOption) (st : State) :
  let before := answers st !! questionId in
  let after := answers (handleMostLeast questionId type option st) in
  distinct (after !! questionId)
  /\ (forall other, other <> questionId -> after !! other = answers st !! other)
  /\ (type = Most -> same_text (before ≫= ans_least) option = true ->
      after !! questionId = Some (MostLeast (Some option) None))
  /\ (type = Least -> same_text (before ≫= ans_most) option = true ->
      after !! questionId = Some (MostLeast None (Some option))).
Proof.
  unfold handleMostLeast, distinct. cbn [answers setAnswers].
  split; [|split; [|split]].
  - destruct type; rewrite lookup_insert_eq; simpl.
    + destruct (answers st !! questionId ≫= ans_least) as [l|]; [|exact I].
      simpl. destruct (String.eqb_spec (text l) (text option)); [exact I | congruence].
    + destruct (answers st !! questionId ≫= ans_most) as [m|]; [|exact I].
      simpl. destruct (String.eqb_spec (text m) (text option)); [exact I | congruence].
  - intros other Hne. destruct type; now rewrite lookup_insert_ne.
  - intros -> H. now rewrite lookup_insert_eq, H.
  - intros -> H. now rewrite lookup_insert_eq, H.
Qed.

(** The invariant holds of all the answers once it holds before. *)
Corollary handleMostLeast_invariant questionId type option st :
  (forall q, distinct (answers st !! q)) ->
  forall q, distinct (answers (handleMostLeast questionId type option st) !! q).
Proof.
  intros Hinv q. unfold handleMostLeast. cbn [answers setAnswers].
  destruct (decide (q = questionId)) as [->|Hne].
  - unfold distinct. destruct type; rewrite lookup_insert_eq; simpl.
    + destruct (answers st !! questionId ≫= ans_least) as [l|]; [|exact I].
      simpl. destruct (String.eqb_spec (text l) (text option)); [exact I | congruence].
    + destruct (answers st !! questionId ≫= ans_most) as [m|]; [|exact I].
      simpl. destruct (String.eqb_spec (text m) (text option)); [exact I | congruence].
  - destruct type; rewrite lookup_insert_ne by congruence; apply Hinv.
Qed.

Section SubmitFacts.
Variable candidateId : string.
Variable typeErrorMessage : string.

#[local] Abbreviation submitTest := (submitTest candidateId typeErrorMessage).
#[local] Abbreviation attempt := (attempt candidateId typeErrorMessage).

(** The status of the response plays no part. *)
Lemma submitTest_any_status (a b : Z) (e : option string) (d : string) st db :
  submitTest {| fetchOutcome := Resolved a; updateError := e; now := d |} st db
  = submitTest {| fetchOutcome := Resolved b; updateError := e; now := d |} st db.
Proof. reflexivity. Qed.

#[local] Ltac nothing_sent :=
  repeat split; try discriminate;
  try (intros; apply not_elem_of_nil);
  try (intros ? ? H; now apply elem_of_nil in H).

(** C1.  [submitTest] builds the payload from all the questions, one
    entry for each in their order, and posts it to the webhook; only when
    the [fetch] of that request resolved, whatever the status of the
    response, does it send the update of the profile, after the post, to
    status [completed] with the date of the day.  In every run in which
    the request could not be made ([fetch] rejects) the payload is the
    only request sent, no update is sent and the [profiles] table is as it
    was.  Nothing is sent when the latch is set, when there is no test,
    when building an entry throws or when the test has no question. *)
Theorem submitTest_order (w : World) (st : State) (db : gmap string Profile) :
  let '(st', db', sent) := submitTest w st db in
  (hasSubmittedRef st = true -> sent = [] /\ db' = db)
  /\ (hasSubmittedRef st = false ->
      match test st with
      | None => sent = [] /\ db' = db
      | Some t =>
        match mapM (entry (answers st)) (t_questions t) with
        | None | Some [] => sent = [] /\ db' = db
        | Some questionsList =>
          let finalPayload :=
            {| test_id := t_id t; test_title := t_title t;
               test_description := t_description t;
               candidate_id := candidateId; candidate_email := candidateEmail st;
               body := questionsList |} in
          Forall2 (fun q e => entry (answers st) q = Some e) (t_questions t) questionsList
          /\ match fetchOutcome w with
             | Rejected => sent = [PostWebhook finalPayload] /\ db' = db
             | Resolved httpStatus =>
               sent = [PostWebhook finalPayload;
                       UpdateProfile
                         {| set_name := None; set_status := Some "completed";
                            set_assigned_test_id := None;
                            set_completed_date := Some (before_T (now w)) |}
                         candidateId]
               /\ db' = commit (updateError w) (completed_patch w) candidateId db
               /\ (updateError w = None ->
                   forall row, db !! candidateId = Some row ->
                     db' !! candidateId
                     = Some {| id := id row; name := name row; email := email row;
                               role := role row; status := "completed";
                               assigned_test_id := assigned_test_id row;
                               score := score row;
                               completed_date := Some (before_T (now w)) |})
             end
        end
      end)
  /\ (fetchOutcome w = Rejected ->
      db' = db /\ forall patch id, UpdateProfile patch id ∉ sent)
  /\ (forall patch id,
        UpdateProfile patch id ∈ sent ->
        exists payload httpStatus,
          fetchOutcome w = Resolved httpStatus
          /\ sent = [PostWebhook payload; UpdateProfile patch id]).
Proof.
  unfold submitTest, Candidate.submitTest, Candidate.attempt.
  destruct (hasSubmittedRef st).
  { nothing_sent. }
  cbn [test answers setIsSubmitting setLatch candidateEmail].
  destruct (test st) as [t|].
  2:{ nothing_sent. }
  destruct (mapM (entry (answers st)) (t_questions t)) as [[|e es]|] eqn:Hm.
  1,3: nothing_sent.
  apply mapM_Some in Hm.
  destruct (fetchOutcome w) as [httpStatus|] eqn:Hf.
  - assert (Hrow : updateError w = None -> forall row, db !! candidateId = Some row ->
              commit (updateError w) (completed_patch w) candidateId db !! candidateId
              = Some (apply_patch (completed_patch w) row)).
    { intros -> row Hrow. cbn [commit]. unfold update. now rewrite lookup_alter_eq, Hrow. }
    assert (Hin : forall (payload : Payload) patch0 patch id,
              UpdateProfile patch id ∈ [PostWebhook payload; UpdateProfile patch0 candidateId] ->
              exists payload' httpStatus',
                Resolved httpStatus = Resolved httpStatus'
                /\ [PostWebhook payload; UpdateProfile patch0 candidateId]
                   = [PostWebhook payload'; UpdateProfile patch id]).
    { intros payload patch0 patch id H.
      apply elem_of_cons in H as [H|H]; [discriminate|].
      apply list_elem_of_singleton in H. injection H as -> ->. eauto. }
    destruct (updateError w) as [message|] eqn:Hu;
      (split; [discriminate|]); (split; [|split; [discriminate|apply Hin]]);
      intros _; (split; [exact Hm|]); (split; [reflexivity|]); (split; [reflexivity|]);
      exact Hrow.
  - split; [discriminate|]. split; [|split].
    + intros _. split; [exact Hm|]. split; reflexivity.
    + intros _. split; [reflexivity|]. intros patch id Hin.
      apply list_elem_of_singleton in Hin. discriminate.
    + intros patch id Hin. apply list_elem_of_singleton in Hin. discriminate.
Qed.

(** C2.  When the latch is set, [submitTest] returns at once: the state
    and the table are as they were and nothing is sent.  A run that
    starts with the latch open leaves it open exactly when its [try]
    block threw, and a further invocation then sends again what the block
    sends; after a run that went through the latch stays set and every
    later invocation does nothing. *)
Theorem submitTest_latch (w : World) (st : State) (db : gmap string Profile) :
  (hasSubmittedRef st = true -> submitTest w st db = (st, db, []))
  /\ (hasSubmittedRef st = false ->
      let '(st', db', sent) := submitTest w st db in
      let outcome := (attempt w (setIsSubmitting true (setLatch true st)) db).1.1 in
      (hasSubmittedRef st' = false <-> exists message, outcome = Threw message)
      /\ (hasSubmittedRef st' = false ->
          forall w2,
            (submitTest w2 st' db').2
            = (attempt w2 (setIsSubmitting true (setLatch true st')) db').2)
      /\ (outcome = Done ->
          hasSubmittedRef st' = true /\ isCompleted st' = true
          /\ forall w2, submitTest w2 st' db' = (st', db', []))).
Proof.
  split; intros Hl; unfold submitTest, Candidate.submitTest; rewrite Hl; [reflexivity|].
  destruct (attempt w (setIsSubmitting true (setLatch true st)) db)
    as [[[|message] db'] sent]; cbn [fst snd hasSubmittedRef setIsSubmitting setLatch
                                      setError setIsCompleted isCompleted].
  - split; [split; [discriminate | now intros [? ?]]|].
    split; [discriminate|]. intros _. repeat split.
  - split; [split; [eauto | reflexivity]|].
    split; [|discriminate]. intros _ w2.
    cbn [hasSubmittedRef]. now destruct (attempt w2 _ db') as [[[|?] ?] ?].
Qed.
(** After a run that threw, the component shows the error screen, on
    which no button invokes [submitTest]. *)
Lemma submitTest_failed_screen (w : World) (st : State) (db : gmap string Profile) :
  hasSubmittedRef st = false -> loading st = false -> alreadyTaken st = false ->
  forall message,
    (attempt w (setIsSubmitting true (setLatch true st)) db).1.1 = Threw message ->
    let st' := (submitTest w st db).1.1 in
    (exists shown, render st' = ErrorScreen shown)
    /\ forall w2 db2, clickNext candidateId typeErrorMessage w2 st' db2 = (st', db2, []).
Proof.
  intros Hl Hload Htaken message. unfold submitTest, Candidate.submitTest. rewrite Hl.
  destruct (attempt w (setIsSubmitting true (setLatch true st)) db) as [[[|m] db'] sent];
    cbn [fst snd]; [discriminate|]. intros _.
  assert (Hr : exists shown,
             render (setIsSubmitting false (setLatch false
                       (setError ("Erro ao finalizar: " ++ or_str m "Contate o suporte.")
                          (setIsSubmitting true (setLatch true st))))) = ErrorScreen shown).
  { unfold render. cbn [loading alreadyTaken test error isCompleted setIsSubmitting
                          setLatch setError].
    rewrite Hload, Htaken. destruct (test st); simpl; eauto. }
  split; [exact Hr|]. intros w2 db2. unfold clickNext.
  destruct Hr as [shown ->]. reflexivity.
Qed.

(** C8.  For a test with questions and a complete answer map, the
    payload posted by [submitTest] has in its [body] one entry per
    question, in the order of the test, carrying the question's id,
    text, category, type, options and variation and, as [resposta], the
    recorded answer; for a test without questions [submitTest] raises
    its error and sends nothing. *)
Theorem submitTest_payload (w : World) (st : State) (db : gmap string Profile) (t : Test) :
  hasSubmittedRef st = false ->
  test st = Some t ->
  let '(st', _, sent) := submitTest w st db in
  (t_questions t <> [] -> complete t (answers st) ->
   exists payload rest,
     sent = PostWebhook payload :: rest
     /\ body payload = map (described_entry (answers st)) (t_questions t)
     /\ test_id payload = t_id t /\ candidate_id payload = candidateId)
  /\ (t_questions t = [] ->
      sent = []
      /\ error st' = "Erro ao finalizar: Erro: O teste parece estar vazio. Tente recarregar."
      /\ isCompleted st' = isCompleted st).
Proof.
  intros Hl Ht. unfold submitTest, Candidate.submitTest, Candidate.attempt.
  rewrite Hl. cbn [test answers setIsSubmitting setLatch candidateEmail]. rewrite Ht.
  destruct (t_questions t) as [|q qs] eqn:Hq.
  { simpl. split; [intros H; now elim H | done]. }
  destruct (mapM (entry (answers st)) (q :: qs)) as [[|e es]|] eqn:Hm.
  - apply length_mapM in Hm. discriminate.
  - destruct (fetchOutcome w); [destruct (updateError w)|];
      (split; [|discriminate]); intros _ Hc;
      unfold complete in Hc; rewrite Hq in Hc;
      rewrite (mapM_entry_complete _ _ Hc) in Hm; simplify_eq;
      eexists _, _; (split; [reflexivity|]); done.
  - split; [|discriminate]. intros _ Hc.
    unfold complete in Hc. rewrite Hq in Hc.
    now rewrite (mapM_entry_complete _ _ Hc) in Hm.
Qed.
End SubmitFacts.

Lemma complete_T1 : complete T1 (answers answering_T1).
Proof.
  intros q Hq. unfold T1 in Hq. cbn [t_questions] in Hq.
  apply elem_of_cons in Hq as [->|Hq]; [|apply list_elem_of_singleton in Hq as ->].
  - cbn. eauto.
  - cbn. eexists _, _. split; [reflexivity | discriminate].
Qed.

Lemma submitTest_order_witness :
  fetchOutcome unreachable = Rejected
  /\ let '(st', db', sent) :=
       submitTest "c1" "TypeError" unreachable answering_T1 {[ "c1" := pending_ana ]} in
     db' = {[ "c1" := pending_ana ]} /\ forall patch id, UpdateProfile patch id ∉ sent.
Proof.
  split; [reflexivity|].
  pose proof (submitTest_order "c1" "TypeError" unreachable answering_T1
                {[ "c1" := pending_ana ]}) as H.
  destruct (submitTest "c1" "TypeError" unreachable answering_T1 {[ "c1" := pending_ana ]})
    as [[st' db'] sent].
  exact (proj1 (proj2 (proj2 H)) eq_refl).
Defined.

(** The claim as the specification words it does not hold when the
    endpoint answers with an error status: the delivery has failed, and
    yet the update is sent and the row of the candidate is marked
    [completed]. *)
Lemma submitTest_http_error :
  delivery_failed answered_500
  /\ ~ (let '(st', db', sent) :=
          submitTest "c1" "TypeError" answered_500 answering_T1 {[ "c1" := pending_ana ]} in
        db' = {[ "c1" := pending_ana ]}
        /\ forall patch id, UpdateProfile patch id ∉ sent)
  /\ (let '(st', db', sent) :=
        submitTest "c1" "TypeError" answered_500 answering_T1 {[ "c1" := pending_ana ]} in
      UpdateProfile (completed_patch answered_500) "c1" ∈ sent
      /\ status <$> db' !! "c1" = Some "completed").
Proof.
  split; [cbn; lia|].
  destruct (submitTest "c1" "TypeError" answered_500 answering_T1 {[ "c1" := pending_ana ]})
    as [[st' db'] sent] eqn:E.
  vm_compute in E. injection E as _ <- <-.
  split.
  - intros [_ H]. eapply H. right. left.
  - split; [right; left|]. vm_compute. reflexivity.
Defined.

Example submitTest_delivered :
  submitTest "c1" "TypeError" delivered answering_T1 {[ "c1" := pending_ana ]}
  = (setIsCompleted true (setLatch true answering_T1),
     {[ "c1" := {| id := "c1"; name := "Ana"; email := "ana@example.com";
                   role := "candidate"; status := "completed";
                   assigned_test_id := Some "T1"; score := None;
                   completed_date := Some "2024-05-01" |} ]},
     [ PostWebhook
         {| test_id := "T1"; test_title := "Perfil"; test_description := "";
            candidate_id := "c1"; candidate_email := "";
            body := map (described_entry (answers answering_T1)) (t_questions T1) |};
       UpdateProfile (completed_patch delivered) "c1" ]).
Proof.
  unfold submitTest, attempt. simpl. unfold update.
  now rewrite alter_singleton_eq.
Qed.

Lemma submitTest_latch_witness :
  hasSubmittedRef (setLatch true answering_T1) = true
  /\ submitTest "c1" "TypeError" delivered (setLatch true answering_T1) {[ "c1" := pending_ana ]}
     = (setLatch true answering_T1, {[ "c1" := pending_ana ]}, []).
Proof.
  split; [reflexivity|].
  exact (proj1 (submitTest_latch "c1" "TypeError" delivered (setLatch true answering_T1)
                  {[ "c1" := pending_ana ]}) eq_refl).
Defined.

Lemma handleMostLeast_distinct_witness :
  answers (handleMostLeast "q1" Most option_A
             (handleMostLeast "q1" Least option_A
                (handleMostLeast "q1" Most option_B initial))) !! "q1"
  = Some (MostLeast (Some option_A) None).
Proof.
  exact (proj1 (proj2 (proj2 (handleMostLeast_distinct "q1" Most option_A
                                (handleMostLeast "q1" Least option_A
                                   (handleMostLeast "q1" Most option_B initial)))))
           eq_refl eq_refl).
Defined.

Lemma submitTest_payload_witness :
  hasSubmittedRef answering_T1 = false
  /\ test answering_T1 = Some T1
  /\ exists payload rest,
       (submitTest "c1" "TypeError" delivered answering_T1 ∅).2 = PostWebhook payload :: rest
       /\ map resposta (body payload)
          = [Some (Chosen "4" "4"); Some (Chosen "Option B" "Líder")].
Proof.
  split; [reflexivity|]. split; [reflexivity|].
  pose proof (submitTest_payload "c1" "TypeError" delivered answering_T1 ∅ T1
                eq_refl eq_refl) as H.
  destruct (submitTest "c1" "TypeError" delivered answering_T1 ∅) as [[st' db'] sent].
  destruct H as [H _].
  destruct (H ltac:(discriminate) complete_T1) as (payload & rest & E & Hb & _).
  exists payload, rest. split; [exact E|]. rewrite Hb. reflexivity.
Defined.

(** *** Further properties of the candidate flow *)

(** Recording a scale answer for the current scale question enables the
    button: [canProceed] is then true, whatever was recorded before. *)
Theorem handleScaleAnswer_canProceed (st : State) (t : Test) (q : Question) (val : Z) :
  test st = Some t ->
  t_questions t !! currentStep st = Some q ->
  q_type q = scale ->
  canProceed (handleScaleAnswer (q_id q) val st) = Some true
  /\ forall other, other <> q_id q ->
       answers (handleScaleAnswer (q_id q) val st) !! other = answers st !! other.
Proof.
  intros Ht Hq Hty. split.
  - unfold canProceed, handleScaleAnswer. cbn [test currentStep answers setAnswers].
    now rewrite Ht, Hq, lookup_insert_eq, Hty.
  - intros other Hne. unfold handleScaleAnswer. cbn [answers setAnswers].
    now rewrite lookup_insert_ne.
Qed.

Lemma handleScaleAnswer_canProceed_witness :
  canProceed (handleScaleAnswer "q1" 3 (setCurrentStep 0 (setTest T1 (setLoading false initial))))
  = Some true.
Proof.
  exact (proj1 (handleScaleAnswer_canProceed
                  (setCurrentStep 0 (setTest T1 (setLoading false initial))) T1
                  {| q_id := "q1"; q_text := "Gosto de liderar"; q_category := Some "Liderança";
                     q_type := scale; q_options := None; q_variation := None |}
                  3 eq_refl eq_refl eq_refl)).
Defined.

(** Selecting an option of the current single-choice question enables the
    button exactly when the option has a text: an option whose text is
    empty is recorded but does not let the candidate proceed. *)
Theorem handleSingleChoice_canProceed
    (st : State) (t : Test) (q : Question) (option : QuestionOption) :
  test st = Some t ->
  t_questions t !! currentStep st = Some q ->
  q_type q = choice ->
  q_variation q <> Some most_least ->
  canProceed (handleSingleChoice (q_id q) option st)
  = Some (negb (String.eqb (text option) ""))
  /\ answers (handleSingleChoice (q_id q) option st) !! q_id q
     = Some (Chosen (text option) (value option)).
Proof.
  intros Ht Hq Hty Hv. split.
  - unfold canProceed, handleSingleChoice. cbn [test currentStep answers setAnswers].
    rewrite Ht, Hq, lookup_insert_eq, Hty.
    destruct (q_variation q) as [[]|]; try reflexivity. congruence.
  - unfold handleSingleChoice. cbn [answers setAnswers]. apply lookup_insert_eq.
Qed.

Lemma handleSingleChoice_canProceed_witness :
  canProceed (handleSingleChoice "q2" {| text := ""; value := "Líder" |}
                (setCurrentStep 1 (setTest T1 (setLoading false initial))))
  = Some false.
Proof.
  exact (proj1 (handleSingleChoice_canProceed
                  (setCurrentStep 1 (setTest T1 (setLoading false initial))) T1
                  {| q_id := "q2"; q_text := "Escolha"; q_category := None;
                     q_type := choice;
                     q_options := Some [ {| text := "Option A"; value := "Analítico" |};
                                         {| text := "Option B"; value := "Líder" |} ];
                     q_variation := Some single |}
                  {| text := ""; value := "Líder" |}
                  eq_refl eq_refl eq_refl ltac:(discriminate))).
Defined.

(** Choosing a "most" and then a "least" on the current most/least
    question enables the button exactly when the two options have
    different texts; choosing the same option twice leaves only the
    "least" and the button disabled.  The same holds in the other order. *)
Theorem handleMostLeast_canProceed
    (st : State) (t : Test) (q : Question) (a b : QuestionOption) :
  test st = Some t ->
  t_questions t !! currentStep st = Some q ->
  q_type q = choice ->
  q_variation q = Some most_least ->
  canProceed (handleMostLeast (q_id q) Least b (handleMostLeast (q_id q) Most a st))
  = Some (negb (String.eqb (text a) (text b)))
  /\ canProceed (handleMostLeast (q_id q) Most b (handleMostLeast (q_id q) Least a st))
     = Some (negb (String.eqb (text b) (text a)))
  /\ (text a = text b ->
      answers (handleMostLeast (q_id q) Least b (handleMostLeast (q_id q) Most a st)) !! q_id q
      = Some (MostLeast None (Some b))).
Proof.
  intros Ht Hq Hty Hv.
  unfold canProceed, handleMostLeast.
  cbn [test currentStep answers setAnswers].
  rewrite Ht, Hq, Hty, Hv, !lookup_insert_eq. cbn.
  rewrite (String.eqb_sym (text b) (text a)).
  destruct (String.eqb_spec (text a) (text b)) as [E|E]; cbn.
  - repeat split.
  - rewrite (String.eqb_sym (text b) (text a)).
    destruct (String.eqb_spec (text a) (text b)); [contradiction|].
    repeat split. intros E2. contradiction.
Qed.

Lemma handleMostLeast_canProceed_witness :
  canProceed (handleMostLeast "q1" Least option_B
                (handleMostLeast "q1" Most option_A
                   (setAnswers (fun _ => ∅) answering_most_least)))
  = Some true.
Proof.
  exact (proj1 (handleMostLeast_canProceed
                  (setAnswers (fun _ => ∅) answering_most_least) _ _ option_A option_B
                  eq_refl eq_refl eq_refl eq_refl)).
Defined.

(** While the current step is a question of the test, [handleNext] keeps
    it so: before the last question it moves one step forward, sends
    nothing and leaves the table alone, and on the last question it is
    [submitTest]; in both cases the answers and the test are untouched,
    and [canProceed] does not throw afterwards. *)
Theorem handleNext_in_range (candidateId typeErrorMessage : string) (w : World)
    (st : State) (db : gmap string Profile) (t : Test) :
  test st = Some t ->
  currentStep st < length (t_questions t) ->
  let '(st', db', sent) := handleNext candidateId typeErrorMessage w st db in
  test st' = Some t
  /\ currentStep st' < length (t_questions t)
  /\ answers st' = answers st
  /\ canProceed st' <> None
  /\ (S (currentStep st) < length (t_questions t) ->
      currentStep st' = S (currentStep st) /\ db' = db /\ sent = [])
  /\ (S (currentStep st) = length (t_questions t) ->
      (st', db', sent) = submitTest candidateId typeErrorMessage w st db).
Proof.
  intros Ht Hlt.
  assert (Hcan : forall st', test st' = Some t -> currentStep st' < length (t_questions t) ->
                             canProceed st' <> None).
  { intros st' Ht' Hlt'. unfold canProceed. rewrite Ht'.
    destruct (lookup_lt_is_Some_2 _ _ Hlt') as [q ->].
    now destruct (answers st' !! q_id q). }
  unfold handleNext. rewrite Ht.
  destruct (Nat.ltb_spec (S (currentStep st)) (length (t_questions t))) as [Hs|Hs].
  - cbn [test currentStep answers setCurrentStep].
    split; [exact Ht|]. split; [exact Hs|]. split; [reflexivity|].
    split; [now apply Hcan|]. split; [now intros _|]. intros E. exfalso. lia.
  - assert (Hframe : forall x : State * gmap string Profile * list (Request Payload),
              test x.1.1 = Some t -> currentStep x.1.1 = currentStep st ->
              answers x.1.1 = answers st ->
              x = submitTest candidateId typeErrorMessage w st db ->
              let '(st', db', sent) := x in
              test st' = Some t
              /\ currentStep st' < length (t_questions t)
              /\ answers st' = answers st
              /\ canProceed st' <> None
              /\ (S (currentStep st) < length (t_questions t) ->
                  currentStep st' = S (currentStep st) /\ db' = db /\ sent = [])
              /\ (S (currentStep st) = length (t_questions t) ->
                  (st', db', sent) = submitTest candidateId typeErrorMessage w st db)).
    { intros [[st' db'] sent] Ht' Hc' Ha' Hx. cbn [fst] in *.
      split; [exact Ht'|]. split; [now rewrite Hc'|]. split; [exact Ha'|].
      split; [apply Hcan; [exact Ht' | now rewrite Hc']|].
      split; [intros; exfalso; lia | now intros _]. }
    apply Hframe; try reflexivity;
      unfold submitTest; destruct (hasSubmittedRef st); try assumption; try reflexivity;
      destruct (attempt _ _ _ _ _) as [[[|m] db'] sent]; assumption || reflexivity.
Qed.

Lemma handleNext_in_range_witness :
  test (setCurrentStep 0 answering_T1) = Some T1
  /\ currentStep (handleNext "c1" "TypeError" delivered (setCurrentStep 0 answering_T1) ∅).1.1
     = 1.
Proof.
  split; [reflexivity|].
  pose proof (handleNext_in_range "c1" "TypeError" delivered (setCurrentStep 0 answering_T1)
                ∅ T1 eq_refl ltac:(simpl; lia)) as H.
  destruct (handleNext "c1" "TypeError" delivered (setCurrentStep 0 answering_T1) ∅)
    as [[st' db'] sent].
  destruct H as (_ & _ & _ & _ & H & _).
  exact (proj1 (H ltac:(simpl; lia))).
Defined.

(** A test without questions cannot be taken: [canProceed], which the
    question screen calls to draw its button, throws on it, so no click
    on the button gets through, and the error that [submitTest] keeps
    for an empty test is never reached from the button. *)
Theorem empty_test_stuck (candidateId typeErrorMessage : string) (w : World)
    (st : State) (db : gmap string Profile) (t : Test) :
  test st = Some t ->
  t_questions t = [] ->
  canProceed st = None
  /\ clickNext candidateId typeErrorMessage w st db = (st, db, []).
Proof.
  intros Ht Hq.
  assert (H : canProceed st = None) by (unfold canProceed; now rewrite Ht, Hq).
  split; [exact H|]. unfold clickNext. rewrite H. now destruct (render st).
Qed.

Lemma empty_test_stuck_witness :
  canProceed
    (setTest {| t_id := "T0"; t_title := ""; t_description := ""; t_questions := [];
                t_active := true |} (setLoading false initial))
  = None.
Proof.
  exact (proj1 (empty_test_stuck "c1" "TypeError" delivered
                  (setTest {| t_id := "T0"; t_title := ""; t_description := "";
                              t_questions := []; t_active := true |}
                     (setLoading false initial))
                  ∅ _ eq_refl eq_refl)).
Defined.

Lemma entry_plain (answers : gmap string Answer) (q : Question) :
  q_variation q <> Some most_least ->
  entry answers q = Some (described_entry answers q).
Proof.
  intros Hv. unfold entry, described_entry.
  destruct (q_type q); [reflexivity|].
  destruct (q_variation q) as [[]|]; try reflexivity. congruence.
Qed.

(** Building the payload throws exactly when a most/least question has no
    recorded answer; in that case [submitTest] sends nothing and reports
    the [TypeError]. *)
Theorem payload_fails_iff (candidateId typeErrorMessage : string) (w : World)
    (st : State) (db : gmap string Profile) (t : Test) :
  hasSubmittedRef st = false ->
  test st = Some t ->
  (mapM (entry (answers st)) (t_questions t) = None
   <-> exists q, q ∈ t_questions t /\ q_type q = choice
                 /\ q_variation q = Some most_least /\ answers st !! q_id q = None)
  /\ (mapM (entry (answers st)) (t_questions t) = None ->
      let '(st', db', sent) := submitTest candidateId typeErrorMessage w st db in
      sent = [] /\ db' = db /\ isCompleted st' = isCompleted st
      /\ error st' = "Erro ao finalizar: " ++ or_str typeErrorMessage "Contate o suporte.").
Proof.
  intros Hl Ht. split.
  - rewrite mapM_None, Exists_exists. split.
    + intros (q & Hin & He). exists q. split; [exact Hin|].
      unfold entry in He.
      destruct (q_type q); [discriminate|].
      destruct (q_variation q) as [[]|]; try discriminate.
      destruct (answers st !! q_id q); [discriminate | auto].
    + intros (q & Hin & Hty & Hv & Ha). exists q. split; [exact Hin|].
      unfold entry. now rewrite Hty, Hv, Ha.
  - intros Hm. unfold submitTest, attempt. rewrite Hl.
    cbn [test answers setIsSubmitting setLatch]. rewrite Ht, Hm. now cbn.
Qed.

Lemma payload_fails_iff_witness :
  (submitTest "c1" "Cannot read properties of undefined" delivered
     (setAnswers (fun _ => ∅) answering_most_least) ∅).2 = [].
Proof.
  pose proof (payload_fails_iff "c1" "Cannot read properties of undefined" delivered
                (setAnswers (fun _ => ∅) answering_most_least) ∅ _ eq_refl eq_refl) as [_ H].
  specialize (H eq_refl).
  destruct (submitTest _ _ _ _ _) as [[st' db'] sent]. exact (proj1 H).
Defined.

(** So a test whose questions are all scale or single-choice is posted
    whatever was answered, even with no answer at all. *)
Theorem submitTest_posts_unanswered (candidateId typeErrorMessage : string) (w : World)
    (st : State) (db : gmap string Profile) (t : Test) :
  hasSubmittedRef st = false ->
  test st = Some t ->
  t_questions t <> [] ->
  (forall q, q ∈ t_questions t -> q_variation q <> Some most_least) ->
  exists payload rest,
    (submitTest candidateId typeErrorMessage w st db).2 = PostWebhook payload :: rest
    /\ body payload = map (described_entry (answers st)) (t_questions t).
Proof.
  intros Hl Ht Hne Hv.
  assert (Hm : mapM (entry (answers st)) (t_questions t)
               = Some (map (described_entry (answers st)) (t_questions t))).
  { clear Hne. induction (t_questions t) as [|q qs IH]; [reflexivity|].
    cbn [mapM map].
    rewrite entry_plain by (apply Hv; left).
    cbn. rewrite IH by (intros q' Hq'; apply Hv; now right). reflexivity. }
  unfold submitTest, attempt. rewrite Hl.
  cbn [test answers setIsSubmitting setLatch candidateEmail]. rewrite Ht, Hm.
  destruct (t_questions t) as [|q qs]; [contradiction|]. cbn [map].
  destruct (fetchOutcome w); [destruct (updateError w)|]; cbn [snd];
    eexists _, _; split; reflexivity.
Qed.

Lemma submitTest_posts_unanswered_witness :
  exists payload rest,
    (submitTest "c1" "TypeError" delivered
       (setCurrentStep 1 (setTest T1 (setLoading false initial))) ∅).2
    = PostWebhook payload :: rest
    /\ map resposta (body payload) = [None; None].
Proof.
  destruct (submitTest_posts_unanswered "c1" "TypeError" delivered
              (setCurrentStep 1 (setTest T1 (setLoading false initial))) ∅ T1
              eq_refl eq_refl ltac:(discriminate)) as (payload & rest & E & Hb).
  - intros q Hq. unfold T1 in Hq. cbn [t_questions] in Hq.
    apply elem_of_cons in Hq as [->|Hq]; [|apply list_elem_of_singleton in Hq as ->];
      discriminate.
  - exists payload, rest. split; [exact E|]. now rewrite Hb.
Defined.

(** The paths of [loadSession]. *)
Ltac load_cases env :=
  destruct (profileReply env) as [?profile|?message];
  [match goal with
   | |- context [String.eqb (status ?p) "completed" || String.eqb (status ?p) "in-progress"] =>
     destruct (String.eqb (status p) "completed" || String.eqb (status p) "in-progress");
     [|destruct (assigned_test_id p) as [[|? ?]|];
       [| destruct (testReply env) as [?row|?message];
          [match goal with
           | |- context [r_active ?r] =>
             destruct (r_active r);
             [destruct (r_questions r) as [?text|?l];
              [match goal with
               | |- context [Json.JSON_parse ?t] => destruct (Json.JSON_parse t)
               end|]|]
           end|]|]]
   end|].

Section LoadFacts.
Variable asQuestions : Json.value -> list Question.
Variable syntaxErrorMessage : string.
Variable candidateId : string.

#[local] Abbreviation loadSession := (loadSession asQuestions syntaxErrorMessage candidateId).

Lemma load_failed_nonempty (message : string) : load_failed message <> "".
Proof. discriminate. Qed.

(** Loading the session again, as the effect does at every step, ends
    with [loading] off and keeps the answers, the step, the submission
    flags and the latch; it never clears an error or the already-taken
    flag; and it asks for the profile first and for at most one test. *)
Theorem loadSession_frame (env : Replies) (st : State) :
  let '(st', sent) := loadSession env st in
  loading st' = false
  /\ answers st' = answers st /\ currentStep st' = currentStep st
  /\ isSubmitting st' = isSubmitting st /\ isCompleted st' = isCompleted st
  /\ hasSubmittedRef st' = hasSubmittedRef st
  /\ (error st <> "" -> error st' <> "")
  /\ (alreadyTaken st = true -> alreadyTaken st' = true)
  /\ (sent = [SelectProfile candidateId]
      \/ exists testId, sent = [SelectProfile candidateId; SelectTest testId]).
Proof.
  unfold loadSession, Candidate.loadSession.
  load_cases env; cbn; repeat split; eauto; intros _; discriminate.
Qed.

Lemma loadSession_spent (env : Replies) (st : State) :
  spent st -> spent (loadSession env st).1.
Proof.
  unfold spent, loadSession, Candidate.loadSession.
  intros [H|H]; load_cases env; cbn; auto; right; discriminate.
Qed.

(** From a component that shows no error and is not marked as taken or
    completed, [loadSession] leads to the question screen exactly when
    the profile was read, its status is neither [completed] nor
    [in-progress], a test is assigned, that test was read and is active,
    its questions could be read, and there is a question at the current
    step; the screen then shows that test.  With no question at the
    current step, as in a test without questions, the render throws. *)
Theorem loadSession_question_screen (env : Replies) (st : State) (t : Test) :
  alreadyTaken st = false -> error st = "" -> isCompleted st = false ->
  (render (loadSession env st).1 = QuestionScreen t
   <-> exists profile testId row l,
         profileReply env = Data profile
         /\ status profile <> "completed" /\ status profile <> "in-progress"
         /\ assigned_test_id profile = Some testId /\ testId <> ""
         /\ testReply env = Data row /\ r_active row = true
         /\ match r_questions row with
            | AsList l' => Some l'
            | AsText text => option_map asQuestions (Json.JSON_parse text)
            end = Some l
         /\ is_Some (l !! currentStep st)
         /\ t = {| t_id := r_id row; t_title := r_title row;
                   t_description := r_description row;
                   t_questions := l; t_active := r_active row |})
  /\ (forall profile testId row l,
        profileReply env = Data profile ->
        status profile <> "completed" -> status profile <> "in-progress" ->
        assigned_test_id profile = Some testId -> testId <> "" ->
        testReply env = Data row -> r_active row = true ->
        match r_questions row with
        | AsList l' => Some l'
        | AsText text => option_map asQuestions (Json.JSON_parse text)
        end = Some l ->
        l !! currentStep st = None ->
        render (loadSession env st).1 = RenderThrows).
Proof.
  intros Htaken Herr Hdone. split.
  2:{ intros profile testId row l Hp Hc Hi Ha Hid Hr Hact Hq Hcur.
      unfold loadSession, Candidate.loadSession, render. rewrite Hp.
      destruct (String.eqb_spec (status profile) "completed"); [contradiction|].
      destruct (String.eqb_spec (status profile) "in-progress"); [contradiction|].
      cbn [orb]. rewrite Ha. destruct testId as [|c tid]; [contradiction|].
      rewrite Hr, Hact. cbn [negb]. rewrite Hq. cbn.
      now rewrite Htaken, Herr, Hdone, Hcur. }
  unfold loadSession, Candidate.loadSession, render.
  destruct (profileReply env) as [profile|message] eqn:Hp.
  2:{ cbn. rewrite Htaken. split; [destruct (test st); discriminate|].
      intros (? & ? & ? & ? & [=] & _). }
  destruct (String.eqb_spec (status profile) "completed") as [Hc|Hc].
  { cbn. split; [discriminate|]. intros (? & ? & ? & ? & [= <-] & ? & _). contradiction. }
  destruct (String.eqb_spec (status profile) "in-progress") as [Hi|Hi].
  { cbn. split; [discriminate|]. intros (? & ? & ? & ? & [= <-] & _ & ? & _). contradiction. }
  cbn [orb].
  destruct (assigned_test_id profile) as [[|c tid]|] eqn:Ha.
  1,3: cbn; rewrite Htaken; (split; [destruct (test st); discriminate|]);
    intros (? & ? & ? & ? & [= <-] & _ & _ & Hx & Hy & _); congruence.
  destruct (testReply env) as [row|message] eqn:Hr.
  2:{ cbn. rewrite Htaken. split; [destruct (test st); discriminate|].
      intros (? & ? & ? & ? & _ & _ & _ & _ & _ & [=] & _). }
  destruct (r_active row) eqn:Hact; cbn [negb].
  2:{ cbn. rewrite Htaken. split; [destruct (test st); discriminate|].
      intros (? & ? & ? & ? & _ & _ & _ & _ & _ & [= <-] & ? & _). congruence. }
  destruct (match r_questions row with
            | AsText text => option_map asQuestions (Json.JSON_parse text)
            | AsList l => Some l
            end) as [l|] eqn:Hq.
  - cbn. rewrite Htaken, Herr, Hdone. cbn.
    destruct (l !! currentStep st) as [q|] eqn:Hcur; split.
    + intros [= <-]. exists profile, (String c tid), row, l.
      rewrite Hact, Hcur. repeat split; eauto; discriminate.
    + intros (? & ? & ? & l' & _ & _ & _ & _ & _ & [= <-] & _ & Hl & _ & ->).
      rewrite Hact. now simplify_eq.
    + discriminate.
    + intros (? & ? & ? & l' & _ & _ & _ & _ & _ & [= <-] & _ & Hl & [q Hs] & _).
      simplify_eq.
  - cbn. rewrite Htaken. split; [destruct (test st); discriminate|].
    intros (? & ? & ? & l' & _ & _ & _ & _ & _ & [= <-] & _ & Hl & _). congruence.
Qed.
End LoadFacts.

Lemma loadSession_question_screen_witness :
  render (loadSession (fun _ => []) "SyntaxError" "c1"
            {| profileReply := Data pending_ana; testReply := Data active_row |} initial).1
  = QuestionScreen T1.
Proof.
  apply (proj1 (loadSession_question_screen (fun _ => []) "SyntaxError" "c1"
                  {| profileReply := Data pending_ana; testReply := Data active_row |}
                  initial T1 eq_refl eq_refl eq_refl)).
  exists pending_ana, "T1", active_row, (t_questions T1).
  repeat split; try discriminate. cbn. eauto.
Defined.

Section RunFacts.
Variable asQuestions : Json.value -> list Question.
Variable syntaxErrorMessage : string.
Variable candidateId : string.
Variable typeErrorMessage : string.

#[local] Abbreviation step := (step asQuestions syntaxErrorMessage candidateId typeErrorMessage).
#[local] Abbreviation run := (run asQuestions syntaxErrorMessage candidateId typeErrorMessage).
#[local] Abbreviation once := (once candidateId).

Lemma submissions_app (a b : list (Request Payload)) :
  submissions (a ++ b) = (submissions a ++ submissions b)%list.
Proof. unfold submissions. apply List.filter_app. Qed.

Lemma submissions_queries (l : list (Request Payload)) :
  Forall (is_query candidateId) l -> submissions l = [].
Proof.
  induction 1 as [|r l [->|[testId ->]] H IH]; [reflexivity| |]; exact IH.
Qed.

Lemma loadSession_queries (env : Replies) (st : State) :
  Forall (is_query candidateId)
         (loadSession asQuestions syntaxErrorMessage candidateId env st).2.
Proof.
  unfold loadSession, is_query.
  load_cases env; cbn;
    repeat match goal with
           | |- Forall _ (_ :: _) =>
             constructor; [first [left; reflexivity | right; eexists; reflexivity]|]
           | |- Forall _ [] => constructor
           end.
Qed.

Lemma spent_render (st : State) (t : Test) :
  spent st -> render st = QuestionScreen t -> hasSubmittedRef st = true.
Proof.
  unfold spent, render. intros [H|H]; [auto|].
  destruct (loading st); [discriminate|]. destruct (alreadyTaken st); [discriminate|].
  destruct (test st); [|discriminate].
  destruct (String.eqb_spec (error st) ""); [contradiction|discriminate].
Qed.

Lemma clickNext_spent (w : World) (st : State) (db : gmap string Profile) :
  spent st -> clickNext candidateId typeErrorMessage w st db = (st, db, []).
Proof.
  intros H. unfold clickNext.
  destruct (render st) as [| | | |t|] eqn:Hr; try reflexivity.
  rewrite (spent_render st t H Hr), orb_true_r.
  now destruct (canProceed st) as [[]|].
Qed.

Lemma step_spent (ev : Event) st db sent :
  spent st ->
  exists st' asked,
    step ev (st, db, sent) = (st', db, (sent ++ asked)%list)
    /\ spent st' /\ Forall (is_query candidateId) asked.
Proof.
  intros H. destruct ev; cbn [Candidate.step].
  - pose proof (loadSession_spent asQuestions syntaxErrorMessage candidateId env st H) as Hs.
    pose proof (loadSession_queries env st) as Hq.
    destruct (loadSession _ _ _ env st) as [st' asked]. eauto.
  - exists (handleScaleAnswer questionId val st), []. now rewrite app_nil_r.
  - exists (handleSingleChoice questionId option st), []. now rewrite app_nil_r.
  - exists (handleMostLeast questionId type option st), []. now rewrite app_nil_r.
  - rewrite (clickNext_spent w st db H). exists st, []. auto.
Qed.

Lemma submitTest_once (w : World) (st : State) (db : gmap string Profile) :
  once db (submitTest candidateId typeErrorMessage w st db).
Proof.
  unfold once, Candidate.once, submitTest, attempt, spent.
  destruct (hasSubmittedRef st); [now left|].
  cbn [test answers setIsSubmitting setLatch candidateEmail].
  destruct (test st) as [t|]; [|now left].
  destruct (mapM (entry (answers st)) (t_questions t)) as [[|e es]|]; [now left| |now left].
  destruct (fetchOutcome w).
  - destruct (updateError w) eqn:Hu; right; (split; [cbn; auto; right; discriminate|]);
      eexists; right; exists w; rewrite Hu; split; reflexivity.
  - right. split; [right; discriminate|]. eexists. left. split; reflexivity.
Qed.

Lemma clickNext_once (w : World) (st : State) (db : gmap string Profile) :
  once db (clickNext candidateId typeErrorMessage w st db).
Proof.
  unfold clickNext.
  destruct (render st); try (left; split; reflexivity).
  destruct (canProceed st) as [[]|]; try (left; split; reflexivity).
  destruct (isSubmitting st || hasSubmittedRef st); [left; split; reflexivity|].
  unfold handleNext. destruct (test st) as [t'|]; [|left; split; reflexivity].
  destruct (S (currentStep st) <? length (t_questions t'))%nat; [left; split; reflexivity|].
  apply submitTest_once.
Qed.

Lemma once_app (db0 : gmap string Profile) st db (sent more : list (Request Payload)) :
  submissions sent = [] -> once db0 (st, db, more) -> once db0 (st, db, (sent ++ more)%list).
Proof.
  intros Hs. unfold once, Candidate.once. now rewrite submissions_app, Hs.
Qed.

Lemma step_once (db0 : gmap string Profile) (ev : Event) x :
  once db0 x -> once db0 (step ev x).
Proof.
  destruct x as [[st db] sent]. intros [[Hs ->]|[Hs H]].
  - destruct ev; cbn [Candidate.step]; try (left; split; [exact Hs|reflexivity]).
    + pose proof (loadSession_queries env st) as Hq.
      destruct (loadSession _ _ _ env st) as [st' asked]. left.
      split; [|reflexivity]. rewrite submissions_app, Hs. now apply submissions_queries.
    + pose proof (clickNext_once w st db0) as H.
      destruct (clickNext candidateId typeErrorMessage w st db0) as [[st' db'] more].
      now apply once_app.
  - destruct (step_spent ev st db sent Hs) as (st' & asked & -> & Hs' & Hq). right.
    split; [exact Hs'|]. rewrite submissions_app, (submissions_queries asked Hq), app_nil_r.
    exact H.
Qed.

Lemma submitTest_submits (w : World) (st : State) (db : gmap string Profile) :
  submissions (submitTest candidateId typeErrorMessage w st db).2
  = (submitTest candidateId typeErrorMessage w st db).2.
Proof.
  unfold submitTest, attempt.
  destruct (hasSubmittedRef st); [reflexivity|].
  cbn [test answers setIsSubmitting setLatch candidateEmail].
  destruct (test st) as [t|]; [|reflexivity].
  destruct (mapM (entry (answers st)) (t_questions t)) as [[|e es]|]; try reflexivity.
  destruct (fetchOutcome w); [destruct (updateError w)|]; reflexivity.
Qed.

Lemma clickNext_submits (w : World) (st : State) (db : gmap string Profile) :
  submissions (clickNext candidateId typeErrorMessage w st db).2
  = (clickNext candidateId typeErrorMessage w st db).2.
Proof.
  unfold clickNext.
  destruct (render st); try reflexivity.
  destruct (canProceed st) as [[]|]; try reflexivity.
  destruct (isSubmitting st || hasSubmittedRef st); [reflexivity|].
  unfold handleNext. destruct (test st) as [t'|]; [|reflexivity].
  destruct (S (currentStep st) <? length (t_questions t'))%nat; [reflexivity|].
  apply submitTest_submits.
Qed.

(** Every request sent is a request of a submission or a query of a
    reload. *)
Lemma step_requests (ev : Event) x :
  (forall r, r ∈ x.2 -> r ∈ submissions x.2 \/ is_query candidateId r) ->
  forall r, r ∈ (step ev x).2 -> r ∈ submissions (step ev x).2 \/ is_query candidateId r.
Proof.
  destruct x as [[st db] sent]. cbn [snd]. intros H.
  destruct ev; cbn [Candidate.step snd]; try exact H.
  - pose proof (loadSession_queries env st) as Hq.
    destruct (loadSession _ _ _ env st) as [st' asked]. cbn [snd] in *.
    intros r Hr. rewrite submissions_app. apply elem_of_app in Hr as [Hr|Hr].
    + destruct (H r Hr) as [Hs|Hs]; [left; apply elem_of_app; now left|now right].
    + right. rewrite Forall_forall in Hq. now apply Hq.
  - pose proof (clickNext_submits w st db) as Hc.
    destruct (clickNext candidateId typeErrorMessage w st db) as [[st' db'] more].
    cbn [snd] in *.
    intros r Hr. rewrite submissions_app. apply elem_of_app in Hr as [Hr|Hr].
    + destruct (H r Hr) as [Hs|Hs]; [left; apply elem_of_app; now left|now right].
    + left. apply elem_of_app. right. now rewrite Hc.
Qed.

(** Whatever the candidate does and however often the session is
    reloaded, the component posts at most one payload to the webhook and
    sends at most one update of the profile, the update after the
    payload; the [profiles] table is changed by that update only.  Every
    other request sent is a query with which a reload reads the profile
    or the test. *)
Theorem run_submits_once (evs : list Event) (st : State) (db : gmap string Profile) :
  let '(st', db', sent) := run evs st db in
  (submissions sent = [] /\ db' = db
   \/ exists payload,
        submissions sent = [PostWebhook payload] /\ db' = db
        \/ exists w,
             submissions sent
             = [PostWebhook payload; UpdateProfile (completed_patch w) candidateId]
             /\ db' = commit (updateError w) (completed_patch w) candidateId db)
  /\ forall r, r ∈ sent -> r ∈ submissions sent \/ is_query candidateId r.
Proof.
  assert (H : once db (run evs st db)
              /\ forall r, r ∈ (run evs st db).2 ->
                           r ∈ submissions (run evs st db).2 \/ is_query candidateId r).
  { unfold run, Candidate.run.
    assert (H0 : once db (st, db, [])) by (left; split; reflexivity).
    assert (H1 : forall r : Request Payload,
               r ∈ (st, db, @nil (Request Payload)).2 ->
               r ∈ submissions (st, db, @nil (Request Payload)).2
               \/ is_query candidateId r)
      by (intros r Hr; now apply elem_of_nil in Hr).
    revert H0 H1. generalize (st, db, @nil (Request Payload)).
    induction evs as [|ev evs IH]; intros x Hx Hr; [now split|].
    cbn [fold_left]. apply IH; [apply step_once, Hx|apply step_requests, Hr]. }
  destruct (run evs st db) as [[st' db'] sent]. cbn [snd] in H.
  destruct H as [[H|[_ H]] Hr]; auto.
Qed.

(** Once the component has failed or submitted, nothing the candidate
    does and no reload submits again or changes the table: the only
    requests sent are the queries with which each reload reads the
    profile and the test.  A failed submission is not retried from the
    same component. *)
Theorem run_spent (evs : list Event) (st : State) (db : gmap string Profile) :
  spent st ->
  exists st' asked,
    run evs st db = (st', db, asked)
    /\ spent st'
    /\ Forall (is_query candidateId) asked
    /\ submissions asked = [].
Proof.
  intros H.
  assert (Hgen : forall sent, Forall (is_query candidateId) sent ->
            exists st' asked,
              fold_left (fun x ev => step ev x) evs (st, db, sent) = (st', db, asked)
              /\ spent st' /\ Forall (is_query candidateId) asked).
  { revert st H. induction evs as [|ev evs IH]; intros st H sent Hsent; [eauto|].
    cbn [fold_left].
    destruct (step_spent ev st db sent H) as (st' & asked & -> & H' & Hq).
    apply IH; [exact H'|]. apply Forall_app. split; assumption. }
  destruct (Hgen [] ltac:(constructor)) as (st' & asked & E & Hs & Hq).
  exists st', asked. repeat split; auto. now apply submissions_queries.
Qed.
End RunFacts.

Lemma run_spent_witness :
  exists st' asked,
    run (fun _ => []) "SyntaxError" "c1" "TypeError"
      [ ClickNext unreachable;
        Reload {| profileReply := Data pending_ana; testReply := Data active_row |};
        AnswerScale "q1" 3; ClickNext delivered ]
      (submitTest "c1" "TypeError" unreachable answering_T1 ∅).1.1 ∅
    = (st', ∅, asked)
    /\ spent st' /\ submissions asked = [].
Proof.
  destruct (run_spent (fun _ => []) "SyntaxError" "c1" "TypeError"
              [ ClickNext unreachable;
                Reload {| profileReply := Data pending_ana; testReply := Data active_row |};
                AnswerScale "q1" 3; ClickNext delivered ]
              (submitTest "c1" "TypeError" unreachable answering_T1 ∅).1.1 ∅)
    as (st' & asked & E & Hs & _ & Hq).
  - right. vm_compute. discriminate.
  - exists st', asked. auto.
Defined.

(** After a submission that went through, the candidate's row has the
    status [completed] and the date of the day; the effect then loads
    the session again (its dependencies include [isCompleted]), reads
    that row, and the component shows the already-taken screen in place
    of the thank-you screen. *)
Theorem submitTest_then_reload
    (asQuestions : Json.value -> list Question)
    (syntaxErrorMessage candidateId typeErrorMessage : string)
    (w : World) (st : State) (db : gmap string Profile)
    (t : Test) (e : Entry) (es : list Entry) (httpStatus : Z) (profile : Profile)
    (env : Replies) :
  hasSubmittedRef st = false ->
  test st = Some t ->
  mapM (entry (answers st)) (t_questions t) = Some (e :: es) ->
  fetchOutcome w = Resolved httpStatus ->
  updateError w = None ->
  db !! candidateId = Some profile ->
  let '(st', db', _) := submitTest candidateId typeErrorMessage w st db in
  exists row,
    db' !! candidateId = Some row
    /\ status row = "completed"
    /\ completed_date row = Some (before_T (now w))
    /\ (loading st' = false -> alreadyTaken st' = false -> error st' = "" ->
        render st' = CompletedScreen)
    /\ (profileReply env = Data row ->
        render (loadSession asQuestions syntaxErrorMessage candidateId env st').1
        = AlreadyTakenScreen).
Proof.
  intros Hlatch Htest Hm Hf Hu Hdb.
  unfold submitTest, attempt. rewrite Hlatch.
  cbn [test answers setIsSubmitting setLatch candidateEmail].
  rewrite Htest, Hm, Hf, Hu. cbn [commit].
  exists (apply_patch (completed_patch w) profile).
  split; [unfold update; rewrite lookup_alter_eq, Hdb; reflexivity|].
  split; [reflexivity|]. split; [reflexivity|]. split.
  - unfold render. cbn. intros -> -> ->. now rewrite Htest.
  - intros Hp. unfold loadSession. rewrite Hp. reflexivity.
Qed.

Lemma submitTest_then_reload_witness :
  render
    (loadSession (fun _ => []) "SyntaxError" "c1"
       {| profileReply := Data (apply_patch (completed_patch delivered) pending_ana);
          testReply := Data active_row |}
       (submitTest "c1" "TypeError" delivered answering_T1 {[ "c1" := pending_ana ]}).1.1).1
  = AlreadyTakenScreen.
Proof.
  pose proof (submitTest_then_reload (fun _ => []) "SyntaxError" "c1" "TypeError"
                delivered answering_T1 {[ "c1" := pending_ana ]} T1
                (described_entry (answers answering_T1)
                   {| q_id := "q1"; q_text := "Gosto de liderar";
                      q_category := Some "Liderança"; q_type := scale;
                      q_options := None; q_variation := None |})
                [described_entry (answers answering_T1)
                   {| q_id := "q2"; q_text := "Escolha"; q_category := None;
                      q_type := choice;
                      q_options := Some [ {| text := "Option A"; value := "Analítico" |};
                                          {| text := "Option B"; value := "Líder" |} ];
                      q_variation := Some single |}]
                200%Z pending_ana
                {| profileReply := Data (apply_patch (completed_patch delivered) pending_ana);
                   testReply := Data active_row |}
                eq_refl eq_refl eq_refl eq_refl eq_refl eq_refl) as H.
  destruct (submitTest "c1" "TypeError" delivered answering_T1 {[ "c1" := pending_ana ]})
    as [[st' db'] sent] eqn:E.
  destruct H as (row & Hrow & _ & _ & _ & H).
  apply H. cbn [profileReply]. f_equal.
  assert (Hdb : db' = {[ "c1" := apply_patch (completed_patch delivered) pending_ana ]}).
  { vm_compute in E. injection E as _ <- _. vm_compute. reflexivity. }
  rewrite Hdb, lookup_singleton_eq in Hrow. congruence.
Defined.

Section ScreenFacts.
Variable asQuestions : Json.value -> list Question.
Variable syntaxErrorMessage : string.
Variable candidateId : string.
Variable typeErrorMessage : string.

#[local] Abbreviation load := (loadSession asQuestions syntaxErrorMessage candidateId).
#[local] Abbreviation submit := (submitTest candidateId typeErrorMessage).
#[local] Abbreviation play := (plays asQuestions syntaxErrorMessage candidateId typeErrorMessage).
#[local] Abbreviation steps := (step asQuestions syntaxErrorMessage candidateId typeErrorMessage).

Lemma loadSession_answers (env : Replies) (st : State) :
  answers (load env st).1 = answers st /\ currentStep (load env st).1 = currentStep st.
Proof.
  unfold loadSession. load_cases env; cbn; auto.
Qed.

Lemma submitTest_keeps (w : World) (st : State) (db : gmap string Profile) :
  test (submit w st db).1.1 = test st
  /\ answers (submit w st db).1.1 = answers st
  /\ currentStep (submit w st db).1.1 = currentStep st.
Proof.
  unfold submitTest. destruct (hasSubmittedRef st); [auto|].
  destruct (attempt _ _ _ _ _) as [[[|message] db'] sent]; cbn; auto.
Qed.

(** What [submitTest] posts of a test whose questions are all answered. *)
Lemma submitTest_posts_complete (w : World) (st : State) (db : gmap string Profile)
    (t : Test) (payload : Payload) :
  test st = Some t ->
  complete t (answers st) ->
  PostWebhook payload ∈ (submit w st db).2 ->
  test_id payload = t_id t
  /\ body payload = map (described_entry (answers st)) (t_questions t).
Proof.
  intros Ht Hc. unfold submitTest, attempt.
  destruct (hasSubmittedRef st); [intros H; now apply elem_of_nil in H|].
  cbn [test answers setIsSubmitting setLatch candidateEmail].
  rewrite Ht, (mapM_entry_complete _ _ Hc).
  destruct (map _ _) as [|e es] eqn:Hm; [intros H; now apply elem_of_nil in H|].
  destruct (fetchOutcome w); [destruct (updateError w)|]; cbn [snd];
    rewrite ?elem_of_cons, ?elem_of_nil; intros H;
    repeat match goal with
           | H : _ \/ _ |- _ => destruct H
           | H : False |- _ => destruct H
           | H : PostWebhook _ = PostWebhook _ |- _ => injection H as ->
           | H : PostWebhook _ = UpdateProfile _ _ |- _ => discriminate H
           end; split; reflexivity.
Qed.

Lemma passed_id_differs (t : Test) (st : State) (questionId : string) :
  NoDup (map q_id (t_questions t)) ->
  (exists t' q, test st = Some t' /\ t_questions t' !! currentStep st = Some q
                /\ questionId = q_id q) ->
  test st = Some t ->
  forall i q, i < currentStep st -> t_questions t !! i = Some q -> questionId <> q_id q.
Proof.
  intros Hnd (t' & q0 & Ht' & Hq0 & ->) Ht i q Hi Hq E.
  assert (t' = t) as -> by congruence.
  assert (Hi' : map q_id (t_questions t) !! i = Some (q_id q))
    by (now rewrite list_lookup_fmap, Hq).
  assert (Hc' : map q_id (t_questions t) !! currentStep st = Some (q_id q0))
    by (now rewrite list_lookup_fmap, Hq0).
  rewrite <- E in Hi'.
  pose proof (NoDup_lookup _ _ _ _ Hnd Hi' Hc'). lia.
Qed.

Lemma step_passed (t : Test) (ev : Event) x :
  NoDup (map q_id (t_questions t)) ->
  on_screen asQuestions syntaxErrorMessage candidateId x.1.1 ev ->
  passed t x -> passed t (steps ev x).
Proof.
  intros Hnd Hev. destruct x as [[st db] sent]. cbn [fst] in Hev.
  intros (Ht & Hpast & Hsent).
  destruct ev as [env|questionId val|questionId option|questionId type option|w];
    cbn [Candidate.step on_screen] in *.
  - destruct (loadSession_answers env st) as [Ha Hc].
    pose proof (loadSession_queries asQuestions syntaxErrorMessage candidateId env st) as Hq.
    destruct (loadSession _ _ _ env st) as [st' asked]. cbn [fst snd] in *.
    split; [now rewrite Hev|]. split.
    + intros i q Hi Hl. rewrite Ha. rewrite Hc in Hi. now apply (Hpast i).
    + intros payload Hin. apply elem_of_app in Hin as [Hin|Hin]; [now apply Hsent|].
      rewrite Forall_forall in Hq. destruct (Hq _ Hin) as [E|[testId E]]; discriminate E.
  - split; [exact Ht|]. split; [|exact Hsent].
    intros i q Hi Hq. unfold handleScaleAnswer in *. cbn [answers setAnswers currentStep] in *.
    rewrite lookup_insert_ne by exact (passed_id_differs t st questionId Hnd Hev Ht i q Hi Hq).
    now apply (Hpast i).
  - split; [exact Ht|]. split; [|exact Hsent].
    intros i q Hi Hq. unfold handleSingleChoice in *. cbn [answers setAnswers currentStep] in *.
    rewrite lookup_insert_ne by exact (passed_id_differs t st questionId Hnd Hev Ht i q Hi Hq).
    now apply (Hpast i).
  - split; [exact Ht|]. split; [|exact Hsent].
    intros i q Hi Hq. unfold handleMostLeast in *. cbn [answers setAnswers currentStep] in *.
    destruct type;
      rewrite lookup_insert_ne by exact (passed_id_differs t st questionId Hnd Hev Ht i q Hi Hq);
      now apply (Hpast i).
  - assert (Hsame : passed t (st, db, (sent ++ [])%list))
      by (rewrite app_nil_r; exact (conj Ht (conj Hpast Hsent))).
    unfold clickNext.
    destruct (render st) eqn:Hr; try exact Hsame.
    destruct (canProceed st) as [[]|] eqn:Hcan; try exact Hsame.
    destruct (isSubmitting st || hasSubmittedRef st); [exact Hsame|].
    assert (Hq : exists q, t_questions t !! currentStep st = Some q
                           /\ satisfied q (answers st !! q_id q)).
    { unfold canProceed in Hcan. rewrite Ht in Hcan.
      destruct (t_questions t !! currentStep st) as [q|] eqn:Hq; [|discriminate].
      exists q. split; [reflexivity|].
      destruct (canProceed_value st t q Ht Hq) as (b & Hb & Hiff).
      apply Hiff. unfold canProceed in Hb. rewrite Ht, Hq in Hb. congruence. }
    destruct Hq as (q0 & Hq0 & Hsat).
    unfold handleNext. rewrite Ht.
    destruct (Nat.ltb_spec (S (currentStep st)) (length (t_questions t))) as [Hlt|Hge].
    + rewrite app_nil_r. unfold passed. cbn [test answers currentStep setCurrentStep].
      split; [exact Ht|]. split; [|exact Hsent].
      intros i q Hi Hq. destruct (decide (i = currentStep st)) as [->|Hne].
      * assert (q = q0) as -> by congruence. exact Hsat.
      * apply (Hpast i); [lia|exact Hq].
    + assert (Hc : complete t (answers st)).
      { intros q Hq. apply list_elem_of_lookup in Hq as [i Hi].
        pose proof (lookup_lt_Some _ _ _ Hi) as Hlen.
        destruct (decide (i = currentStep st)) as [->|Hne].
        - assert (q = q0) as -> by congruence. exact Hsat.
        - apply (Hpast i); [lia|exact Hi]. }
      pose proof (submitTest_keeps w st db) as (Kt & Ka & Kc).
      pose proof (submitTest_posts_complete w st db t) as Hp.
      destruct (submit w st db) as [[st' db'] more]. cbn [fst snd] in *.
      split; [congruence|]. split.
      * intros i q Hi Hq. rewrite Ka. rewrite Kc in Hi. now apply (Hpast i).
      * intros payload Hin. apply elem_of_app in Hin as [Hin|Hin]; [now apply Hsent|].
        destruct (Hp payload Ht Hc Hin) as [H1 H2]. split; [exact H1|]. eauto.
Qed.

(** Through the question screen no questionnaire is posted before it is
    complete.  From the first question of a test whose questions have
    different ids, whatever the candidate answers and clicks on the
    screen, every payload that reaches the webhook names the test and
    has one entry per question with an answer that satisfies it. *)
Theorem run_posts_complete (evs : list Event) (st : State) (db : gmap string Profile)
    (t : Test) :
  test st = Some t ->
  currentStep st = 0 ->
  NoDup (map q_id (t_questions t)) ->
  play evs (st, db, []) ->
  forall payload,
    PostWebhook payload
    ∈ (run asQuestions syntaxErrorMessage candidateId typeErrorMessage evs st db).2 ->
    test_id payload = t_id t
    /\ exists answers,
         complete t answers
         /\ body payload = map (described_entry answers) (t_questions t).
Proof.
  intros Ht H0 Hnd Hplay.
  assert (H : passed t (run asQuestions syntaxErrorMessage candidateId typeErrorMessage
                          evs st db)).
  { unfold run.
    assert (Hx : passed t (st, db, [])).
    { split; [exact Ht|]. split; [intros i q Hi; lia|].
      intros payload Hin. now apply elem_of_nil in Hin. }
    revert Hplay Hx. generalize (st, db, @nil (Request Payload)). clear Ht H0.
    induction evs as [|ev evs IH]; intros x Hplay Hx; [exact Hx|].
    destruct Hplay as [Hev Hplay]. cbn [fold_left].
    apply IH; [exact Hplay|]. now apply step_passed. }
  destruct (run _ _ _ _ evs st db) as [[st' db'] sent]. exact (proj2 (proj2 H)).
Qed.
End ScreenFacts.


Lemma run_posts_complete_witness :
  exists payload rest,
    (run (fun _ => []) "SyntaxError" "c1" "TypeError"
       [ Reload {| profileReply := Data pending_ana; testReply := Data active_row |};
         AnswerScale "q1" 4; ClickNext delivered;
         AnswerSingle "q2" {| text := "Option B"; value := "Líder" |};
         ClickNext delivered ]
       (setTest T1 (setLoading false initial)) {[ "c1" := pending_ana ]}).2
    = SelectProfile "c1" :: SelectTest "T1" :: PostWebhook payload :: rest
    /\ test_id payload = "T1"
    /\ map resposta (body payload)
       = [Some (Chosen "4" "4"); Some (Chosen "Option B" "Líder")].
Proof.
  pose proof (run_posts_complete (fun _ => []) "SyntaxError" "c1" "TypeError"
                [ Reload {| profileReply := Data pending_ana; testReply := Data active_row |};
                  AnswerScale "q1" 4; ClickNext delivered;
                  AnswerSingle "q2" {| text := "Option B"; value := "Líder" |};
                  ClickNext delivered ]
                (setTest T1 (setLoading false initial)) {[ "c1" := pending_ana ]} T1
                eq_refl eq_refl) as H.
  destruct (run _ _ _ _ _ _ _) as [[st' db'] sent] eqn:E.
  vm_compute in E. injection E as _ _ <-.
  eexists _, _. split; [reflexivity|].
  split; [|reflexivity]. apply H.
  - apply (bool_decide_unpack _). vm_compute. exact I.
  - repeat split; eexists _, _; repeat split; reflexivity.
  - do 2 right. left.
Defined.

End CandidateFacts.

(** ** The candidate roster *)

Module RosterFacts.
Import Backend Roster.

(** *** Claims about the roster *)

Lemma update_lookup (patch : Patch) (id other : string) (db : gmap string Profile) :
  update patch id db !! other
  = if decide (id = other) then apply_patch patch <$> db !! other else db !! other.
Proof. unfold update. rewrite lookup_alter. case_decide; subst; reflexivity. Qed.

Lemma commit_dom (e : option string) (patch : Patch) (id : string) (db : gmap string Profile) :
  dom (commit e patch id db) = dom db.
Proof.
  destruct e; simpl; [reflexivity|]. unfold update.
  apply set_eq. intros k. rewrite !elem_of_dom, lookup_alter.
  case_decide; [subst|reflexivity]. now rewrite fmap_is_Some.
Qed.

(** With an id that is not empty [handleSave] takes the branch of the
    update. *)
Lemma handleSave_editing
    (updateError : option string) (signUp : SignUpReply) (st : State)
    (db : gmap string Profile) (editing : string) :
  editingId st = Some editing -> editing <> "" ->
  handleSave updateError signUp st db
  = let form := formData st in
    let sent := [UpdateProfile (edit_patch form) editing] in
    let db' := commit updateError (edit_patch form) editing db in
    match updateError with
    | Some message => (finish st (candidates st) (showModal st) (save_error message), db', sent)
    | None =>
      (finish st
         (map (fun c =>
                 if String.eqb (c_id c) editing
                 then {| c_id := c_id c; c_name := f_name form; c_email := c_email c;
                         c_status := c_status c; assignedTestId := Some (testId form);
                         c_score := c_score c; completedDate := completedDate c |}
                 else c) (candidates st))
         false "", db', sent)
    end.
Proof.
  intros He Hne. unfold handleSave. rewrite He.
  destruct editing; [contradiction|reflexivity].
Qed.

(** Without an id, or with the empty id, it takes the branch of the
    sign-up, which does not touch the table. *)
Lemma handleSave_signing
    (updateError : option string) (signUp : SignUpReply) (st : State)
    (db : gmap string Profile) :
  editingId st = None \/ editingId st = Some "" ->
  let '(st', db', sent) := handleSave updateError signUp st db in
  db' = db
  /\ sent = [SignUp (f_email (formData st)) (f_password (formData st)) (f_name (formData st))
                    (or_null (testId (formData st)))].
Proof.
  unfold handleSave. intros [->| ->]; destruct signUp as [[user|]|message]; now split.
Qed.

(** C9.  Editing a candidate, [handleSave] with an id that is not
    empty, sends one [update] that names only [name] and
    [assigned_test_id]; the row of the candidate gets the name and the
    test of the form, and the profile's email, role, status, score and
    completion date are not in the update and stay as they were, like
    every other row.  With no id or the empty id nothing is updated.  In
    every case the table has the same rows afterwards: no profile is
    deleted, here or by the [update] of the candidate flow. *)
Theorem handleSave_edit
    (updateError : option string) (signUp : SignUpReply) (st : State)
    (db : gmap string Profile) :
  let '(st', db', sent) := handleSave updateError signUp st db in
  (forall editing,
     editingId st = Some editing -> editing <> "" ->
     sent = [UpdateProfile {| set_name := Some (f_name (formData st));
                              set_status := None;
                              set_assigned_test_id := Some (or_null (testId (formData st)));
                              set_completed_date := None |} editing]
     /\ (forall row, updateError = None -> db !! editing = Some row ->
         db' !! editing
         = Some {| id := id row; name := f_name (formData st); email := email row;
                   role := role row; status := status row;
                   assigned_test_id := or_null (testId (formData st));
                   score := score row; completed_date := completed_date row |})
     /\ (forall message, updateError = Some message -> db' = db))
  /\ (editingId st = None \/ editingId st = Some "" ->
      db' = db /\ forall patch k, UpdateProfile patch k ∉ sent)
  /\ (forall k row, db !! k = Some row ->
      exists row', db' !! k = Some row'
                   /\ id row' = id row /\ email row' = email row /\ role row' = role row
                   /\ status row' = status row /\ score row' = score row
                   /\ completed_date row' = completed_date row
                   /\ (editingId st <> Some k -> row' = row))
  /\ dom db' = dom db
  /\ forall e patch k, dom (commit e patch k db) = dom db.
Proof.
  assert (Hsign : editingId st = None \/ editingId st = Some "" ->
            let '(st', db', sent) := handleSave updateError signUp st db in
            (forall editing, editingId st = Some editing -> editing <> "" -> False)
            /\ db' = db /\ forall patch k, UpdateProfile patch k ∉ sent).
  { intros H. pose proof (handleSave_signing updateError signUp st db H) as Hs.
    destruct (handleSave updateError signUp st db) as [[st' db'] sent].
    destruct Hs as [-> ->]. split; [|split; [reflexivity|]].
    - intros editing He Hne. destruct H as [H|H]; congruence.
    - intros patch k Hin. apply list_elem_of_singleton in Hin. discriminate. }
  destruct (editingId st) as [editing|] eqn:He.
  2:{ specialize (Hsign (or_introl eq_refl)).
      destruct (handleSave updateError signUp st db) as [[st' db'] sent].
      destruct Hsign as (_ & -> & Hno).
      split; [discriminate|]. split; [auto|]. split; [|split; [reflexivity|]].
      - intros k row Hk. exists row. now repeat split.
      - intros; apply commit_dom. }
  destruct (String.eqb_spec editing "") as [->|Hne].
  { specialize (Hsign (or_intror eq_refl)).
    destruct (handleSave updateError signUp st db) as [[st' db'] sent].
    destruct Hsign as (_ & -> & Hno).
    split; [intros ? [= <-] H; contradiction|]. split; [auto|].
    split; [|split; [reflexivity|]].
    - intros k row Hk. exists row. now repeat split.
    - intros; apply commit_dom. }
  clear Hsign. rewrite (handleSave_editing updateError signUp st db editing He Hne).
  assert (Hrows : forall k row, db !! k = Some row ->
            exists row', commit updateError (edit_patch (formData st)) editing db !! k = Some row'
                         /\ id row' = id row /\ email row' = email row /\ role row' = role row
                         /\ status row' = status row /\ score row' = score row
                         /\ completed_date row' = completed_date row
                         /\ (Some editing <> Some k -> row' = row)).
  { intros k row Hk. destruct updateError; simpl.
    - exists row. now rewrite Hk.
    - rewrite update_lookup. case_decide.
      + subst. rewrite Hk. simpl. eexists. split; [reflexivity|]. now repeat split.
      + exists row. rewrite Hk. now repeat split. }
  pose proof (commit_dom updateError (edit_patch (formData st)) editing db) as Hdom.
  assert (Hnew : forall row, updateError = None -> db !! editing = Some row ->
            commit updateError (edit_patch (formData st)) editing db !! editing
            = Some {| id := id row; name := f_name (formData st); email := email row;
                      role := role row; status := status row;
                      assigned_test_id := or_null (testId (formData st));
                      score := score row; completed_date := completed_date row |}).
  { intros row -> Hrow. cbn [commit]. rewrite update_lookup. case_decide; [|congruence].
    now rewrite Hrow. }
  assert (Hkept : forall message, updateError = Some message ->
            commit updateError (edit_patch (formData st)) editing db = db).
  { now intros message ->. }
  cbn zeta.
  destruct updateError;
    (split; [intros ? [= <-] _; split; [reflexivity|split; [exact Hnew|exact Hkept]]|]);
    (split; [intros [H|H]; congruence|]);
    (split; [exact Hrows|]); (split; [exact Hdom|]); intros; apply commit_dom.
Qed.

Lemma handleSave_edit_witness :
  editingId editing_ana = Some "c1"
  /\ exists row',
       (handleSave None (Refused "") editing_ana {[ "c1" := ana ]}).1.2 !! "c1" = Some row'
       /\ name row' = "Ana Maria" /\ assigned_test_id row' = None
       /\ email row' = "ana@example.com" /\ status row' = "completed"
       /\ score row' = Some 7%Z /\ completed_date row' = Some "2024-05-01".
Proof.
  split; [reflexivity|].
  pose proof (handleSave_edit None (Refused "") editing_ana {[ "c1" := ana ]}) as H.
  destruct (handleSave None (Refused "") editing_ana {[ "c1" := ana ]}) as [[st' db'] sent].
  destruct H as (H & _).
  destruct (H "c1" eq_refl ltac:(discriminate)) as (_ & Hrow & _).
  eexists. split; [exact (Hrow ana eq_refl (lookup_singleton_eq _ _))|].
  now repeat split.
Defined.

(** *** Loading the roster *)

Lemma or_str_nonempty (a b : string) : b <> "" -> Candidate.or_str a b <> "".
Proof. unfold Candidate.or_str. now destruct (String.eqb_spec a ""). Qed.

Lemma fetch_error_nonempty (message json : string) : fetch_error message json <> "".
Proof. unfold fetch_error. destruct (includes _ _); discriminate. Qed.

Lemma save_error_nonempty (message : string) : save_error message <> "".
Proof.
  unfold save_error. destruct (includes _ _); [discriminate|].
  destruct (includes _ _); [discriminate|].
  now destruct (String.eqb_spec message "").
Qed.

(** [fetchData] ends with the spinner off.  It shows an error exactly
    when the query of the profiles failed, and then lists nobody.  When
    the profiles were read, the roster lists the profiles that are not
    administrators and no one else, and every listed candidate has a
    name, an email and a status to show. *)
Theorem fetchData_roster
    (testsReply : Reply Candidate.TestRow) (profilesReply : Reply Profile)
    (view : Listing) (st : State) :
  let '(view', st') := fetchData testsReply profilesReply view st in
  loading view' = false
  /\ (fetchError view' <> "" <-> exists message json, profilesReply = Failed message json)
  /\ (fetchError view' <> "" -> candidates st' = [])
  /\ (forall profilesData, profilesReply = Rows profilesData ->
      (forall c, In c (candidates st')
                 <-> exists p, In p profilesData /\ role p <> "admin" /\ c = to_candidate p)
      /\ Forall (fun c => c_name c <> "" /\ c_email c <> "" /\ c_status c <> "")
                (candidates st')).
Proof.
  unfold fetchData. destruct profilesReply as [data|message json|]; cbn.
  - split; [reflexivity|]. split; [split; [congruence|intros (? & ? & [=])]|].
    split; [congruence|]. intros ? [= <-]. split.
    + intros c. rewrite in_map_iff. split.
      * intros (p & <- & Hp). apply filter_In in Hp as [Hp Hr]. exists p.
        repeat split; [exact Hp|]. intros E. rewrite E in Hr. discriminate.
      * intros (p & Hp & Hr & ->). exists p. split; [reflexivity|].
        apply filter_In. split; [exact Hp|]. now destruct (String.eqb_spec (role p) "admin").
    + apply Forall_map, Forall_forall. intros p _. cbn.
      repeat split; apply or_str_nonempty; discriminate.
  - split; [reflexivity|]. split; [split; [eauto|intros _; apply fetch_error_nonempty]|].
    split; [reflexivity|]. intros ? [=].
  - split; [reflexivity|]. split; [split; [congruence|intros (? & ? & [=])]|].
    split; [congruence|]. intros ? [=].
Qed.

(** *** The form *)



(** Creating a candidate sends one sign-up with the email, the password
    and the name of the form and with the test chosen, [null] when none
    is; the [profiles] table is not written.  When the service returns
    the new user, the roster lists the user first, as pending, before
    the candidates it listed, and the form closes. *)
Theorem handleSave_create
    (updateError : option string) (signUp : SignUpReply) (st : State)
    (db : gmap string Profile) :
  editingId st = None ->
  let '(st', db', sent) := handleSave updateError signUp st db in
  sent = [SignUp (f_email (formData st)) (f_password (formData st)) (f_name (formData st))
                 (or_null (testId (formData st)))]
  /\ db' = db
  /\ isSubmitting st' = false
  /\ (forall user, signUp = SignedUp (Some user) ->
      candidates st'
      = {| c_id := user; c_name := f_name (formData st); c_email := f_email (formData st);
           c_status := "pending"; assignedTestId := Some (testId (formData st));
           c_score := None; completedDate := None |} :: candidates st
      /\ showModal st' = false /\ errorMsg st' = "")
  /\ (signUp = SignedUp None ->
      candidates st' = candidates st /\ showModal st' = false /\ errorMsg st' <> "").
Proof.
  intros He. unfold handleSave. rewrite He.
  destruct signUp as [[user|]|message]; cbn;
    repeat split; try congruence; try discriminate.
Qed.

Lemma handleSave_create_witness :
  (handleSave None (SignedUp (Some "c9"))
     (openModal {| tests := []; loading := false; fetchError := "" |} None idle) ∅).1.2 = ∅.
Proof.
  pose proof (handleSave_create None (SignedUp (Some "c9"))
                (openModal {| tests := []; loading := false; fetchError := "" |} None idle)
                ∅ eq_refl) as H.
  destruct (handleSave None (SignedUp (Some "c9")) _ ∅) as [[st' db'] sent].
  exact (proj1 (proj2 H)).
Defined.

(** A save that fails leaves the roster, the form and the [profiles]
    table as they were, keeps the form open if it was, shows a message
    that is not empty, and ends the submission: the update that fails
    when the form edits a candidate whose id is not empty, the sign-up
    that fails when the form has no id or the empty id. *)
Theorem handleSave_failure
    (updateError : option string) (signUp : SignUpReply) (st : State)
    (db : gmap string Profile) (message : string) :
  (exists editing, editingId st = Some editing /\ editing <> ""
                   /\ updateError = Some message)
  \/ ((editingId st = None \/ editingId st = Some "") /\ signUp = Refused message) ->
  let '(st', db', sent) := handleSave updateError signUp st db in
  candidates st' = candidates st /\ formData st' = formData st
  /\ editingId st' = editingId st /\ showModal st' = showModal st
  /\ db' = db
  /\ errorMsg st' = save_error message /\ errorMsg st' <> ""
  /\ isSubmitting st' = false.
Proof.
  intros [(editing & He & Hne & ->)|[He ->]].
  - rewrite (handleSave_editing _ signUp st db editing He Hne).
    cbn. repeat split; auto using save_error_nonempty.
  - unfold handleSave. destruct He as [He|He]; rewrite He;
      cbn; repeat split; auto using save_error_nonempty.
Qed.

Lemma handleSave_failure_witness :
  errorMsg (handleSave (Some "infinite recursion detected") (Refused "") editing_ana
              {[ "c1" := ana ]}).1.1
  = "Erro de Back-end (RLS): Recursão infinita detectada."
  /\ errorMsg (handleSave None (Refused "User already registered") editing_nameless_id
                 {[ "c1" := ana ]}).1.1
     = "Este e-mail já está registrado no sistema de autenticação.".
Proof.
  split.
  - assert (H : let '(st', db', sent) :=
                  handleSave (Some "infinite recursion detected") (Refused "") editing_ana
                    {[ "c1" := ana ]} in
                errorMsg st' = save_error "infinite recursion detected").
    { pose proof (handleSave_failure (Some "infinite recursion detected") (Refused "")
                    editing_ana {[ "c1" := ana ]} "infinite recursion detected") as H.
      destruct (handleSave _ _ editing_ana _) as [[st' db'] sent].
      apply H. left. exists "c1". split; [reflexivity|]. split; [discriminate|reflexivity]. }
    destruct (handleSave _ _ editing_ana _) as [[st' db'] sent]. exact H.
  - assert (H : let '(st', db', sent) :=
                  handleSave None (Refused "User already registered") editing_nameless_id
                    {[ "c1" := ana ]} in
                errorMsg st' = save_error "User already registered").
    { pose proof (handleSave_failure None (Refused "User already registered")
                    editing_nameless_id {[ "c1" := ana ]} "User already registered") as H.
      destruct (handleSave _ _ editing_nameless_id _) as [[st' db'] sent].
      apply H. right. split; [right|]; reflexivity. }
    destruct (handleSave _ _ editing_nameless_id _) as [[st' db'] sent]. exact H.
Defined.

(** After a successful edit of a candidate whose id is not empty the
    roster shows the candidate as a reload of the saved profile would,
    except for the test: the roster keeps
    the test of the form, the empty string when none was chosen, where
    the profile holds [null]. *)
Theorem handleSave_edit_matches_reload
    (signUp : SignUpReply) (st : State) (db : gmap string Profile) (p : Profile) :
  editingId st = Some (id p) ->
  id p <> "" ->
  db !! id p = Some p ->
  In (to_candidate p) (candidates st) ->
  f_name (formData st) <> "" ->
  let '(st', db', sent) := handleSave None signUp st db in
  exists p',
    db' !! id p = Some p'
    /\ In {| c_id := c_id (to_candidate p'); c_name := c_name (to_candidate p');
             c_email := c_email (to_candidate p'); c_status := c_status (to_candidate p');
             assignedTestId := Some (testId (formData st));
             c_score := c_score (to_candidate p');
             completedDate := completedDate (to_candidate p') |} (candidates st')
    /\ assignedTestId (to_candidate p') = or_null (testId (formData st)).
Proof.
  intros He Hid Hp Hin Hn.
  rewrite (handleSave_editing None signUp st db (id p) He Hid). cbn [commit].
  exists (apply_patch (edit_patch (formData st)) p).
  split; [rewrite update_lookup; case_decide; [now rewrite Hp|congruence]|].
  split; [|reflexivity].
  cbn [candidates finish]. apply in_map_iff. exists (to_candidate p).
  split; [|exact Hin].
  assert (Hname : Candidate.or_str (f_name (formData st)) "Sem Nome" = f_name (formData st)).
  { unfold Candidate.or_str.
    destruct (String.eqb_spec (f_name (formData st)) ""); [contradiction|reflexivity]. }
  cbn. now rewrite String.eqb_refl, Hname.
Qed.

Lemma handleSave_edit_matches_reload_witness :
  In {| c_id := "c1"; c_name := "Ana Maria"; c_email := "ana@example.com";
        c_status := "completed"; assignedTestId := Some "";
        c_score := Some 7%Z; completedDate := Some "2024-05-01" |}
     (candidates (handleSave None (Refused "")
                    (setCandidates [to_candidate ana] editing_ana) {[ "c1" := ana ]}).1.1).
Proof.
  pose proof (handleSave_edit_matches_reload (Refused "")
                (setCandidates [to_candidate ana] editing_ana) {[ "c1" := ana ]} ana
                eq_refl ltac:(discriminate) (lookup_singleton_eq _ _)
                (or_introl eq_refl)) as H.
  destruct (handleSave None (Refused "") _ {[ "c1" := ana ]}) as [[st' db'] sent] eqn:E.
  destruct H as (p' & Hp' & H & _); [discriminate|].
  assert (Hdb : db' = {[ "c1" := apply_patch (edit_patch (formData editing_ana)) ana ]}).
  { vm_compute in E. injection E as _ <- _. vm_compute. reflexivity. }
  rewrite Hdb, lookup_singleton_eq in Hp'. injection Hp' as <-. exact H.
Defined.

End RosterFacts.
